(** * Ray: command-line logger, framework detection and object lifetime

    A shallow embedding of
    - [rllib/utils/framework.py] ([get_auto_framework]),
    - [python/ray/autoscaler/cli_logger.py] (the [_CliLogger] singleton),
    - the assertions of [python/ray/tests/test_reference_counting_2.py],
    - the object-lifetime core (object store, ownership table, task lifecycle
      manager) that those tests drive,
    - the rest of [cli_logger.py] (the property setters, the verbose
      family, [group], [abort], [doassert], [confirm], [prompt]) and of
      [framework.py] ([check_framework], the import helpers,
      [get_activation_fn]),
    - the output checks of [python/ray/tests/test_cli.py].

    Part I holds the definitions, Part II the theorems. *)

From Stdlib Require Import ZArith List String Ascii Bool Lia.
From stdpp Require Import base list strings pretty.

Local Open Scope string_scope.
Local Open Scope Z_scope.

(* ===================================================================== *)
(** * Part I: definitions *)
(* ===================================================================== *)

(** ** Python values, exceptions and results *)

Module Py.

(** The Python values that reach the logger. [PyObj r] is an object of any
    other type, given by the text [str()] renders for it. *)
Inductive PyVal : Type :=
| PyNone
| PyBool (b : bool)
| PyInt (z : Z)
| PyStr (s : string)
| PyObj (rendered : string).

Inductive PyExc : Type :=
| ValueError (msg : string)
| TypeError (msg : string)
| IndexError (msg : string)
| KeyError (msg : string).

(** A call either returns a value or raises. *)
Inductive Res (A : Type) : Type :=
| Return (a : A)
| Raise (e : PyExc).
Arguments Return {A} a.
Arguments Raise {A} e.

Definition bind {A B : Type} (r : Res A) (k : A -> Res B) : Res B :=
  match r with
  | Return a => k a
  | Raise e => Raise e
  end.

(** [str(x)] *)
Definition py_str (v : PyVal) : string :=
  match v with
  | PyNone => "None"
  | PyBool true => "True"
  | PyBool false => "False"
  | PyInt z => pretty z
  | PyStr s => s
  | PyObj r => r
  end.

(** The line feed character, ["\n"] in the source. *)
Definition LF : ascii := "010"%char.
Definition newline : string := String LF EmptyString.

(** [needle in hay] on [str]: substring search. *)
Fixpoint py_in (needle hay : string) : bool :=
  if String.prefix needle hay then true
  else match hay with
       | EmptyString => false
       | String _ rest => py_in needle rest
       end.

(** [str.isspace] on one character (code points below 256). *)
Definition is_space (c : ascii) : bool :=
  let n := nat_of_ascii c in
  ((9 <=? n) && (n <=? 13))%nat || ((28 <=? n) && (n <=? 32))%nat
  || (n =? 133)%nat || (n =? 160)%nat.

Fixpoint lstrip (s : string) : string :=
  match s with
  | EmptyString => EmptyString
  | String c rest => if is_space c then lstrip rest else s
  end.

(** [s.strip()]: white space removed at both ends. *)
Definition strip (s : string) : string :=
  String.rev (lstrip (String.rev (lstrip s))).

(** [sep.join(xs)] *)
Fixpoint join (sep : string) (xs : list string) : string :=
  match xs with
  | [] => ""
  | [x] => x
  | x :: rest => x ++ sep ++ join sep rest
  end.

(** [s * n] for a string [s]: empty when [n <= 0]. *)
Definition repeat_str (s : string) (n : Z) : string :=
  Nat.iter (Z.to_nat n) (String.append s) "".

(** ["{:6}".format(s)]: left-justified in a field of six. *)
Definition ljust6 (s : string) : string :=
  s ++ Nat.iter (6 - String.length s)%nat (String.append " ") "".

End Py.

(** ** rllib/utils/framework.py *)

Module Framework.
Import Py.

(** What the module logger and [log_once] keep: the keys already logged
    once and the lines sent to [logger.info]. *)
Record LogState : Type := {
  logged_once : list string;
  info_lines : list string
}.

(** [ray.util.log_once(key)]: true the first time a key is seen. *)
Definition log_once (key : string) (l : LogState) : bool * LogState :=
  if bool_decide (key ∈ logged_once l) then (false, l)
  else (true, {| logged_once := key :: logged_once l;
                 info_lines := info_lines l |}).

Definition logger_info (line : string) (l : LogState) : LogState :=
  {| logged_once := logged_once l; info_lines := info_lines l ++ [line] |}.

(** An imported module object. The module globals [torch] and [tf] hold
    either one of these or [None], as [try_import_torch] and
    [try_import_tf] return them. *)
Inductive PyModule : Type := Module_ (name : string).

(** Truth value of a module global: [None] is false, a module is true. *)
Definition truthy (m : option PyModule) : bool :=
  match m with Some _ => true | None => false end.

Definition both_installed_msg : string :=
  "framework='auto' (default value) is not allowed if both TensorFlow AND PyTorch are installed! Instead, use framework='tf|tfe|torch' explicitly.".

Definition none_installed_msg : string :=
  "Neither TensorFlow nor PyTorch are installed! You must install one of them by running either `pip install tensorflow` OR `pip install torch torchvision`".

(** [get_auto_framework()], reading the module globals [torch] and
    [tf]. *)
Definition get_auto_framework (torch tf : option PyModule) (l : LogState)
  : LogState * Res string :=
  match torch with
  | Some _ =>
      (* PyTorch is installed. *)
      match tf with
      | None =>
          let '(first, l1) := log_once "get_auto_framework" l in
          let l2 :=
            if first
            then logger_info "`framework=auto` found in config -> Detected PyTorch." l1
            else l1 in
          (l2, Return "torch")
      | Some _ => (l, Raise (ValueError both_installed_msg))
      end
  | None =>
      if negb (truthy tf) then (l, Raise (ValueError none_installed_msg))
      else
        let '(first, l1) := log_once "get_auto_framework" l in
        let l2 :=
          if first
          then logger_info "`framework=auto` found in config -> Detected TensorFlow." l1
          else l1 in
        (l2, Return "tf")
  end.

End Framework.

(** ** python/ray/autoscaler/cli_logger.py *)

Module CliLogger.
Import Py.

(** The styles of the [colorful] package the logger uses. *)
Inductive Style : Type :=
| reset | dimmed | bold | underlined
| red | orange | limeGreen | dodgerBlue | skyBlue.

(** The [colorful] package ([cf] in the source), an external library: how
    a style renders a string under the current color mode, and
    [cf.format], which may raise as [str.format] does. *)
Class Colorful : Type := {
  cf_style : Style -> string -> string;
  cf_format : string -> list PyVal -> list (string * PyVal) -> Res string
}.

(** [colorful] with colors disabled ([cf.disable()]): styles leave the
    text as it is; [cf.format] is given for messages without fields. *)
Definition plain_colorful : Colorful :=
  {| cf_style := fun _ s => s;
     cf_format := fun s _ _ => Return s |}.

(** The attributes [__init__] sets on the singleton. *)
Record _CliLogger : Type := {
  _non_interactive : bool;
  _non_interactive_mode : string;
  _color_mode : string;
  indent_level : Z;
  _verbosity : Z;
  _autodetected_cf_colormode : Z
}.

(** What the logger acts on outside itself: the text written to
    [sys.stdout] so far, and the time of day as [formatter] renders it
    (["%x %X"]). *)
Record World : Type := {
  stdout : string;
  asctime : string
}.

(** [sys.stdout.write(text)] *)
Definition stdout_write (text : string) (w : World) : World :=
  {| stdout := stdout w ++ text; asctime := asctime w |}.

(** The [non_interactive] property. *)
Definition non_interactive (self : _CliLogger) : bool :=
  _non_interactive self.

(** The keyword arguments [_format_msg] reads, with their annotated
    types, and the remaining [**kwargs]. *)
Record Kwargs : Type := {
  _tags : option (list (string * PyVal));
  _numbered : option (string * Z * Z);
  _no_format : bool;
  kwargs : list (string * PyVal)
}.

Definition no_kwargs : Kwargs :=
  {| _tags := None; _numbered := None; _no_format := false; kwargs := [] |}.

(** The loop of [_format_msg] over [_tags.items()]. *)
Fixpoint tags_list (tags : list (string * PyVal)) : Res (list string) :=
  match tags with
  | [] => Return []
  | (k, v) :: rest =>
      match v with
      | PyBool true => bind (tags_list rest) (fun l => Return (k :: l))
      | PyBool false => tags_list rest
      | PyStr s => bind (tags_list rest) (fun l => Return ((k ++ "=" ++ s) :: l))
      | _ => Raise (TypeError "can only concatenate str to str")
      end
  end.

(** [_format_msg(msg, *args, _tags, _numbered, _no_format, **kwargs)]:
    for a [str] the tags, then the numbering, then the formatted message;
    for any other value the [str()] of the message and of the arguments,
    joined by commas. *)
Definition _format_msg `{Colorful} (msg : PyVal) (args : list PyVal)
    (kw : Kwargs) : Res string :=
  match msg with
  | PyStr m =>
      bind (match _tags kw with
            | None => Return ""
            | Some tags =>
                bind (tags_list tags) (fun tl =>
                  match tl with
                  | [] => Return ""
                  | _ => Return (cf_style reset
                                   (cf_style dimmed (" [" ++ join ", " tl ++ "]")))
                  end)
            end) (fun tags_str =>
      bind (match _numbered kw with
            | None => Return ""
            | Some (chars, i, n) =>
                match chars with
                | String c0 (String c1 _) =>
                    Return (cf_style dimmed
                              (String c0 "" ++ pretty i ++ "/" ++ pretty n
                               ++ String c1 "") ++ " ")
                | _ => Raise (IndexError "string index out of range")
                end
            end) (fun numbering_str =>
      if _no_format kw then Return (numbering_str ++ m ++ tags_str)
      else bind (cf_format m args (kwargs kw)) (fun formatted =>
             Return (numbering_str ++ formatted ++ tags_str))))
  | _ =>
      match kwargs kw with
      | _ :: _ => Raise (ValueError "We do not support printing kwargs yet.")
      | [] => Return (join ", " (map py_str (msg :: args)))
      end
  end.

(** [formatter.format(record)] for the record [_print] builds: format
    ["[{asctime}] {levelname:6} {message}"], no arguments, no exception. *)
Definition formatter_format (now levelname message : string) : string :=
  "[" ++ now ++ "] " ++ ljust6 levelname ++ " " ++ message.

(** [_CliLogger._print(msg, _level_str, _linefeed)] *)
Definition _print (self : _CliLogger) (w : World) (msg : string)
    (_level_str : string) (_linefeed : bool) : World * Res PyVal :=
  if py_in newline msg then (w, Raise (ValueError "NO"))
  else
    let emit (rendered_message : string) :=
      if negb _linefeed
      then (stdout_write rendered_message w, Return PyNone)
      else (stdout_write (rendered_message ++ newline) w, Return PyNone) in
    if non_interactive self then
      if String.eqb (strip msg) "" then (w, Return PyNone)
      else emit (formatter_format (asctime w) _level_str msg)
    else emit (repeat_str "  " (indent_level self) ++ msg).

(** A call made as the last statement of a body that has no [return]:
    its value is dropped and the body returns [None]; an exception goes
    on. *)
Definition as_statement (r : World * Res PyVal) : World * Res PyVal :=
  match r with
  | (w', Return _) => (w', Return PyNone)
  | (w', Raise e) => (w', Raise e)
  end.

(** Default of [_level_str] in [_print] and [print]. *)
Definition INFO : string := "INFO".

(** [_CliLogger.print(msg, *args, _level_str, **kwargs)] *)
Definition print `{Colorful} (self : _CliLogger) (w : World) (msg : PyVal)
    (args : list PyVal) (_level_str : string) (kw : Kwargs)
  : World * Res PyVal :=
  match _format_msg msg args kw with
  | Return s => as_statement (_print self w s _level_str true)
  | Raise e => (w, Raise e)
  end.

(** [_CliLogger.newline()]; the name [newline] is the string's. *)
Definition newline_ `{Colorful} (self : _CliLogger) (w : World)
  : World * Res PyVal :=
  as_statement (print self w (PyStr "") [] INFO no_kwargs).

(** [success], [_warning], [warning], [_error], [error] and [panic]: the
    message is styled and handed to [print] with the level name. *)
Definition success `{Colorful} (self : _CliLogger) (w : World) (msg : string)
    (args : list PyVal) (kw : Kwargs) : World * Res PyVal :=
  as_statement (print self w (PyStr (cf_style limeGreen msg)) args "SUCC" kw).

Definition _warning `{Colorful} (self : _CliLogger) (w : World) (msg : string)
    (args : list PyVal) (_level_str : option string) (kw : Kwargs)
  : World * Res PyVal :=
  match _level_str with
  | None => (w, Raise (ValueError "Log level not set."))
  | Some level =>
      as_statement (print self w (PyStr (cf_style orange msg)) args level kw)
  end.

Definition warning `{Colorful} (self : _CliLogger) (w : World) (msg : string)
    (args : list PyVal) (kw : Kwargs) : World * Res PyVal :=
  as_statement (_warning self w msg args (Some "WARN") kw).

Definition _error `{Colorful} (self : _CliLogger) (w : World) (msg : string)
    (args : list PyVal) (_level_str : option string) (kw : Kwargs)
  : World * Res PyVal :=
  match _level_str with
  | None => (w, Raise (ValueError "Log level not set."))
  | Some level =>
      as_statement (print self w (PyStr (cf_style red msg)) args level kw)
  end.

Definition error `{Colorful} (self : _CliLogger) (w : World) (msg : string)
    (args : list PyVal) (kw : Kwargs) : World * Res PyVal :=
  as_statement (_error self w msg args (Some "ERR") kw).

Definition panic `{Colorful} (self : _CliLogger) (w : World) (msg : string)
    (args : list PyVal) (kw : Kwargs) : World * Res PyVal :=
  as_statement (_error self w msg args (Some "PANIC") kw).

(** [_CliLogger.labeled_value(key, msg, *args, **kwargs)] *)
Definition labeled_value `{Colorful} (self : _CliLogger) (w : World)
    (key msg : string) (args : list PyVal) (kw : Kwargs)
  : World * Res PyVal :=
  match _format_msg (PyStr (cf_style bold msg)) args kw with
  | Return s =>
      as_statement (_print self w (cf_style skyBlue key ++ ": " ++ s) INFO true)
  | Raise e => (w, Raise e)
  end.

(** The compatibility entry points: each body is a bare [return]. *)
Definition old_debug (self : _CliLogger) (w : World) (logger : PyVal)
    (msg : string) (args : list PyVal) (kw : Kwargs) : World * Res PyVal :=
  (w, Return PyNone).

Definition old_info (self : _CliLogger) (w : World) (logger : PyVal)
    (msg : string) (args : list PyVal) (kw : Kwargs) : World * Res PyVal :=
  (w, Return PyNone).

Definition old_warning (self : _CliLogger) (w : World) (logger : PyVal)
    (msg : string) (args : list PyVal) (kw : Kwargs) : World * Res PyVal :=
  (w, Return PyNone).

Definition old_error (self : _CliLogger) (w : World) (logger : PyVal)
    (msg : string) (args : list PyVal) (kw : Kwargs) : World * Res PyVal :=
  (w, Return PyNone).

Definition old_exception (self : _CliLogger) (w : World) (logger : PyVal)
    (msg : string) (args : list PyVal) (kw : Kwargs) : World * Res PyVal :=
  (w, Return PyNone).

(** A call of one of the rendering operations, with its arguments. *)
Inductive RenderCall : Type :=
| call_print (msg : PyVal) (args : list PyVal) (_level_str : string) (kw : Kwargs)
| call_error (msg : string) (args : list PyVal) (kw : Kwargs)
| call_warning (msg : string) (args : list PyVal) (kw : Kwargs)
| call_success (msg : string) (args : list PyVal) (kw : Kwargs)
| call_panic (msg : string) (args : list PyVal) (kw : Kwargs)
| call_labeled_value (key msg : string) (args : list PyVal) (kw : Kwargs)
| call_old_debug (logger : PyVal) (msg : string) (args : list PyVal) (kw : Kwargs)
| call_old_info (logger : PyVal) (msg : string) (args : list PyVal) (kw : Kwargs)
| call_old_warning (logger : PyVal) (msg : string) (args : list PyVal) (kw : Kwargs)
| call_old_error (logger : PyVal) (msg : string) (args : list PyVal) (kw : Kwargs)
| call_old_exception (logger : PyVal) (msg : string) (args : list PyVal) (kw : Kwargs).

(** The call is made on the logger. *)
Definition render `{Colorful} (self : _CliLogger) (w : World) (c : RenderCall)
  : World * Res PyVal :=
  match c with
  | call_print msg args level kw => print self w msg args level kw
  | call_error msg args kw => error self w msg args kw
  | call_warning msg args kw => warning self w msg args kw
  | call_success msg args kw => success self w msg args kw
  | call_panic msg args kw => panic self w msg args kw
  | call_labeled_value key msg args kw => labeled_value self w key msg args kw
  | call_old_debug lg msg args kw => old_debug self w lg msg args kw
  | call_old_info lg msg args kw => old_info self w lg msg args kw
  | call_old_warning lg msg args kw => old_warning self w lg msg args kw
  | call_old_error lg msg args kw => old_error self w lg msg args kw
  | call_old_exception lg msg args kw => old_exception self w lg msg args kw
  end.

Definition set_indent_level (self : _CliLogger) (n : Z) : _CliLogger :=
  {| _non_interactive := _non_interactive self;
     _non_interactive_mode := _non_interactive_mode self;
     _color_mode := _color_mode self;
     indent_level := n;
     _verbosity := _verbosity self;
     _autodetected_cf_colormode := _autodetected_cf_colormode self |}.

(** The class [indented()] returns an instance of. Its methods act on the
    logger the instance closes over ([cli_logger = self]) and return
    [None]. *)
Module IndentedContextManager.

Definition __enter__ (cli_logger : _CliLogger) : _CliLogger * PyVal :=
  (set_indent_level cli_logger (indent_level cli_logger + 1), PyNone).

(** [type], [value] and [tb] are not read. *)
Definition __exit__ (cli_logger : _CliLogger) (exc : option PyExc)
  : _CliLogger * PyVal :=
  (set_indent_level cli_logger (indent_level cli_logger - 1), PyNone).

End IndentedContextManager.

(** Truth value of what [__exit__] returns. *)
Definition py_truthy (v : PyVal) : bool :=
  match v with
  | PyNone => false
  | PyBool b => b
  | PyInt z => negb (z =? 0)
  | PyStr s => negb (String.eqb s "")
  | PyObj _ => true
  end.

(** [with cli_logger.indented(): body]. The body acts on the logger and
    the world and ends normally or by raising; [__exit__] runs either
    way, and the exception goes on unless [__exit__] returns a true
    value. *)
Definition with_indented
    (body : _CliLogger -> World -> _CliLogger * World * Res unit)
    (self : _CliLogger) (w : World) : _CliLogger * World * Res unit :=
  let '(self1, _) := IndentedContextManager.__enter__ self in
  let '(self2, w2, r) := body self1 w in
  match r with
  | Return _ =>
      let '(self3, _) := IndentedContextManager.__exit__ self2 None in
      (self3, w2, Return tt)
  | Raise e =>
      let '(self3, suppress) := IndentedContextManager.__exit__ self2 (Some e) in
      (self3, w2, if py_truthy suppress then Return tt else Raise e)
  end.

(** Entering and leaving indented blocks, as a trace. *)
Inductive BlockEvent : Type := Enter | Exit.

Definition block_step (self : _CliLogger) (ev : BlockEvent) : _CliLogger :=
  match ev with
  | Enter => fst (IndentedContextManager.__enter__ self)
  | Exit => fst (IndentedContextManager.__exit__ self None)
  end.

Definition block_run (self : _CliLogger) (evs : list BlockEvent) : _CliLogger :=
  fold_left block_step evs self.

(** Enters minus exits of a trace. *)
Fixpoint depth_change (evs : list BlockEvent) : Z :=
  match evs with
  | [] => 0
  | Enter :: rest => 1 + depth_change rest
  | Exit :: rest => depth_change rest - 1
  end.

(** The logger as [__init__] leaves it. *)
Definition initial_logger (colormode : Z) : _CliLogger :=
  {| _non_interactive := false;
     _non_interactive_mode := "auto";
     _color_mode := "auto";
     indent_level := 0;
     _verbosity := 0;
     _autodetected_cf_colormode := colormode |}.

(** The logger after [non_interactive] was set to [True]. *)
Definition non_interactive_logger (colormode : Z) : _CliLogger :=
  {| _non_interactive := true;
     _non_interactive_mode := "auto";
     _color_mode := "false";
     indent_level := 0;
     _verbosity := 0;
     _autodetected_cf_colormode := colormode |}.

End CliLogger.

(** ** The object-lifetime core

    The object store, the ownership table, the task lifecycle manager and
    the eviction policy are not among the repository files at hand: only
    the tests that drive them are. Every definition of this module is
    modelled from the specification, section by section. *)

Module Core.

Local Open Scope nat_scope.
Local Open Scope list_scope.

(** Processes, objects and tasks are named by numbers. *)
Abbreviation ProcId := nat (only parsing).
Abbreviation ObjId := nat (only parsing).
Abbreviation TaskId := nat (only parsing).

(** Modelled from the spec: the error kinds of section 7, which the
    missing core raises, and the fail-fast programming error for
    inconsistent local bookkeeping. *)
Inductive ErrorKind : Type :=
| TimeoutError | LostError | WorkerError | StoreFullError | ProgrammingError.

(** Modelled from the spec: the Recovery column of section 7 (the missing
    error classes): only [TimeoutError] is caller-retryable. *)
Definition terminal (e : ErrorKind) : bool :=
  match e with
  | TimeoutError => false
  | _ => true
  end.

(** A call returns, raises, or is still blocked. *)
Inductive Reply (A : Type) : Type :=
| Ok (a : A)
| Raise (e : ErrorKind)
| Blocked.
Arguments Ok {A} a.
Arguments Raise {A} e.
Arguments Blocked {A}.

(** Modelled from the spec: the per-object states of section 4.2 (the
    missing ownership table). *)
Inductive ObjState : Type := ACTIVE | PENDING_EVICTION | EVICTED | LOST.

(** Modelled from the spec: a pin other than a local handle (glossary):
    held by a task for one of its arguments, or by a stored object for a
    reference its payload embeds. *)
Inductive Pin : Type :=
| TaskPin (t : TaskId)
| NestedPin (container : ObjId).

#[global] Instance Pin_eq_dec : EqDecision Pin.
Proof. solve_decision. Defined.

#[global] Instance ObjState_eq_dec : EqDecision ObjState.
Proof. solve_decision. Defined.

(** Modelled from the spec: ObjectRef, OwnershipRecord and StoreEntry of
    section 3 (the missing data model), one record per object: the
    immutable owner, the payload size and the references it embeds, one
    entry of [handles] per live local handle (naming its process), and
    the pins. *)
Record Obj : Type := mkObj {
  owner : ProcId;
  size_bytes : N;
  nested : list ObjId;
  handles : list ProcId;
  pins : list Pin;
  state : ObjState
}.

Definition with_handles (o : Obj) (h : list ProcId) : Obj :=
  mkObj (owner o) (size_bytes o) (nested o) h (pins o) (state o).

Definition with_pins (o : Obj) (p : list Pin) : Obj :=
  mkObj (owner o) (size_bytes o) (nested o) (handles o) p (state o).

Definition with_state (o : Obj) (st : ObjState) : Obj :=
  mkObj (owner o) (size_bytes o) (nested o) (handles o) (pins o) st.

(** Modelled from the spec: the live reference count of section 3 (the
    missing ownership table): local handles plus pins. *)
Definition refcount (o : Obj) : nat :=
  (length (handles o) + length (pins o))%nat.

Inductive TaskOutcome : Type :=
| Pending
| Succeeded (result : ObjId)
| Failed (e : ErrorKind).

(** Modelled from the spec: PendingTask of section 3 (the missing task
    lifecycle manager). [attempts] counts the crashed attempts. *)
Record Task : Type := mkTask {
  submitter : ProcId;
  args : list ObjId;
  max_retries : nat;
  attempts : nat;
  outcome : TaskOutcome
}.

(** Modelled from the spec: the state of the missing core: objects and
    tasks by identifier, the processes known dead, and the store's
    configuration (section 6). *)
Record Cluster : Type := mkCluster {
  objs : list Obj;
  tasks : list Task;
  dead : list ProcId;
  capacity_bytes : N;
  object_store_full_max_retries : nat
}.

Definition with_objs (s : Cluster) (os : list Obj) : Cluster :=
  mkCluster os (tasks s) (dead s) (capacity_bytes s)
            (object_store_full_max_retries s).

Definition with_tasks (s : Cluster) (ts : list Task) : Cluster :=
  mkCluster (objs s) ts (dead s) (capacity_bytes s)
            (object_store_full_max_retries s).

Definition with_dead (s : Cluster) (d : list ProcId) : Cluster :=
  mkCluster (objs s) (tasks s) d (capacity_bytes s)
            (object_store_full_max_retries s).

Definition empty_cluster (capacity : N) (retries : nat) : Cluster :=
  mkCluster [] [] [] capacity retries.

(** One occurrence of [x] removed. *)
Fixpoint remove_first {A : Type} `{EqDecision A} (x : A) (l : list A) : list A :=
  match l with
  | [] => []
  | y :: rest => if decide (x = y) then rest else y :: remove_first x rest
  end.

Definition add_pin (p : Pin) (o : Obj) : Obj := with_pins o (p :: pins o).
Definition drop_pin (p : Pin) (o : Obj) : Obj :=
  with_pins o (remove_first p (pins o)).

(** The payload of an entry is in the store. *)
Definition in_store (o : Obj) : bool :=
  match state o with
  | ACTIVE | PENDING_EVICTION => true
  | EVICTED | LOST => false
  end.

(** Modelled from the spec: capacity accounting of section 4.1 (the
    missing object store): [used_bytes] is the size of the payloads in
    the store. *)
Definition used_bytes (s : Cluster) : N :=
  fold_right (fun o acc => if in_store o then (size_bytes o + acc)%N else acc)
             0%N (objs s).

(** Modelled from the spec: the recursive pin of section 3 (the missing
    reference-count protocol), on release: the pins an object holds on the
    references it embeds are dropped. *)
Definition release_nested (container : ObjId) (bs : list ObjId)
    (os : list Obj) : list Obj :=
  fold_left (fun acc b => alter (drop_pin (NestedPin container)) b acc) bs os.

(** Modelled from the spec: sections 3 and 4.2 (the missing ownership
    table): an active object whose count reached zero becomes
    [PENDING_EVICTION], one whose owner died becomes [LOST]; either way
    it no longer pins what it embeds. *)
Definition settle (dead_procs : list ProcId) (i : ObjId) (os : list Obj)
  : list Obj :=
  match os !! i with
  | Some o =>
      match state o with
      | ACTIVE =>
          if bool_decide (owner o ∈ dead_procs)
          then release_nested i (nested o) (<[i := with_state o LOST]> os)
          else if (refcount o =? 0)%nat
          then release_nested i (nested o)
                 (<[i := with_state o PENDING_EVICTION]> os)
          else os
      | _ => os
      end
  | None => os
  end.

(** Modelled from the spec: the cascade of releases (section 8, the
    recursive-pin law; the missing ownership table). Objects are settled
    from the youngest to the oldest: an object only embeds references to
    older ones, so one pass reaches every object whose count drops. *)
Fixpoint sweep (dead_procs : list ProcId) (n : nat) (os : list Obj)
  : list Obj :=
  match n with
  | O => os
  | S i => sweep dead_procs i (settle dead_procs i os)
  end.

Definition settle_all (s : Cluster) : Cluster :=
  with_objs s (sweep (dead s) (length (objs s)) (objs s)).

(** Modelled from the spec: [evict] of section 4.1 (the missing object
    store): acts on an entry whose count is zero, idempotent. *)
Definition evict_entry (o : Obj) : Obj :=
  match state o with
  | PENDING_EVICTION => with_state o EVICTED
  | _ => o
  end.

Definition evict (id : ObjId) (s : Cluster) : Cluster :=
  with_objs s (alter evict_entry id (objs s)).

(** Modelled from the spec: one eviction attempt of [put] (section 4.1,
    the missing object store): all currently zero-refcount entries go. *)
Definition evict_all (s : Cluster) : Cluster :=
  with_objs s (map evict_entry (objs s)).

(** Modelled from the spec: the retry loop of [put] (section 4.1, the
    missing object store): up to [attempts] eviction attempts to fit
    [need] more bytes. *)
Fixpoint make_room (attempts : nat) (need : N) (s : Cluster) : Cluster * bool :=
  if (used_bytes s + need <=? capacity_bytes s)%N then (s, true)
  else match attempts with
       | O => (s, false)
       | S k => make_room k need (evict_all s)
       end.

Record Payload : Type := mkPayload {
  payload_bytes : N;
  embedded : list ObjId
}.

(** Process [p] has a local handle for [id]. *)
Definition holds (p : ProcId) (s : Cluster) (id : ObjId) : bool :=
  match objs s !! id with
  | Some o => bool_decide (p ∈ handles o)
  | None => false
  end.

Definition alive (p : ProcId) (s : Cluster) : bool :=
  negb (bool_decide (p ∈ dead s)).

(** Modelled from the spec: registration of a new object (sections 2 and
    3, the missing ownership table): its entry is stored and the
    references its payload embeds are pinned. The creating process knows
    the payload it stores, so for it the embedded references are
    discovered at once (section 9: one scan per object and process). *)
Definition register (o : Obj) (s : Cluster) : Cluster * ObjId :=
  let id := length (objs s) in
  (with_objs s
     (fold_left (fun acc b => alter (add_pin (NestedPin id)) b acc)
                (nested o) (objs s ++ [o])),
   id).

(** Modelled from the spec: [put] of section 4.1 (the missing object
    store). The caller gets the first local handle. A payload can only
    embed references its creator holds. *)
Definition put (p : ProcId) (pl : Payload) (s : Cluster)
  : Cluster * Reply ObjId :=
  if negb (alive p s) then (s, Raise WorkerError)
  else if negb (forallb (holds p s) (embedded pl))
  then (s, Raise ProgrammingError)
  else
    match make_room (object_store_full_max_retries s) (payload_bytes pl) s with
    | (s1, false) => (s1, Raise StoreFullError)
    | (s1, true) =>
        let '(s2, id) :=
          register (mkObj p (payload_bytes pl) (embedded pl) [p] [] ACTIVE) s1 in
        (s2, Ok id)
    end.

(** Modelled from the spec: [add_local_ref] of section 4.2 (the missing
    ownership table): one more local handle, on process [p]. *)
Definition add_local_ref (p : ProcId) (id : ObjId) (s : Cluster)
  : Cluster * Reply unit :=
  if negb (alive p s) then (s, Raise WorkerError)
  else
    match objs s !! id with
    | Some o =>
        match state o with
        | ACTIVE =>
            (with_objs s (<[id := with_handles o (p :: handles o)]> (objs s)),
             Ok tt)
        | LOST => (s, Raise LostError)
        | _ => (s, Raise ProgrammingError)
        end
    | None => (s, Raise ProgrammingError)
    end.

(** Modelled from the spec: [remove_local_ref] of section 4.2 (the
    missing ownership table); releasing a handle never acquired fails
    fast. *)
Definition remove_local_ref (p : ProcId) (id : ObjId) (s : Cluster)
  : Cluster * Reply unit :=
  match objs s !! id with
  | Some o =>
      if bool_decide (p ∈ handles o)
      then (settle_all
              (with_objs s
                 (<[id := with_handles o (remove_first p (handles o))]> (objs s))),
            Ok tt)
      else (s, Raise ProgrammingError)
  | None => (s, Raise ProgrammingError)
  end.

(** Modelled from the spec: [add_task_ref(id, task_id)] of section 4.2
    (the missing ownership table), for every argument. *)
Definition add_task_refs (t : TaskId) (ids : list ObjId) (os : list Obj)
  : list Obj :=
  fold_left (fun acc a => alter (add_pin (TaskPin t)) a acc) ids os.

Definition release_task_refs (t : TaskId) (ids : list ObjId) (os : list Obj)
  : list Obj :=
  fold_left (fun acc a => alter (drop_pin (TaskPin t)) a acc) ids os.

(** Modelled from the spec: [submit] of section 4.3 (the missing task
    lifecycle manager): every argument is pinned until the task reaches a
    terminal outcome; what an argument embeds is pinned through it. *)
Definition submit (p : ProcId) (arg_ids : list ObjId) (retries : nat)
    (s : Cluster) : Cluster * Reply TaskId :=
  if negb (alive p s) then (s, Raise WorkerError)
  else if negb (forallb (holds p s) arg_ids) then (s, Raise ProgrammingError)
  else
    let t := length (tasks s) in
    (with_tasks (with_objs s (add_task_refs t arg_ids (objs s)))
                (tasks s ++ [mkTask p arg_ids retries 0 Pending]),
     Ok t).

Definition set_outcome (tk : Task) (o : TaskOutcome) : Task :=
  mkTask (submitter tk) (args tk) (max_retries tk) (attempts tk) o.

Definition retry (tk : Task) : Task :=
  mkTask (submitter tk) (args tk) (max_retries tk) (S (attempts tk)) (outcome tk).

(** Modelled from the spec: "On success" of section 4.3 (the missing task
    lifecycle manager): the returned object is registered as owned by the
    executing process, its first handle goes to the submitter, and the
    argument pins are released. *)
Definition on_success (t : TaskId) (executor : ProcId) (pl : Payload)
    (s : Cluster) : Cluster * Reply ObjId :=
  match tasks s !! t with
  | Some tk =>
      match outcome tk with
      | Pending =>
          if negb (alive executor s) then (s, Raise WorkerError)
          else if negb (forallb (holds executor s) (embedded pl))
          then (s, Raise ProgrammingError)
          else
            match make_room (object_store_full_max_retries s)
                            (payload_bytes pl) s with
            | (s1, false) => (s1, Raise StoreFullError)
            | (s1, true) =>
                let '(s2, id) :=
                  register (mkObj executor (payload_bytes pl) (embedded pl)
                                  [submitter tk] [] ACTIVE) s1 in
                (settle_all
                   (with_tasks
                      (with_objs s2 (release_task_refs t (args tk) (objs s2)))
                      (<[t := set_outcome tk (Succeeded id)]> (tasks s2))),
                 Ok id)
            end
      | _ => (s, Raise ProgrammingError)
      end
  | None => (s, Raise ProgrammingError)
  end.

(** Modelled from the spec: "On executor crash mid-execution" of section
    4.3 (the missing task lifecycle manager): retried up to
    [max_retries] with the pins unchanged; then the pins are released
    and the task fails with [WorkerError]. A task that already reached
    its outcome is not touched. *)
Definition on_executor_crash (t : TaskId) (s : Cluster) : Cluster :=
  match tasks s !! t with
  | Some tk =>
      match outcome tk with
      | Pending =>
          if (attempts tk <? max_retries tk)%nat
          then with_tasks s (<[t := retry tk]> (tasks s))
          else settle_all
                 (with_tasks
                    (with_objs s (release_task_refs t (args tk) (objs s)))
                    (<[t := set_outcome tk (Failed WorkerError)]> (tasks s)))
      | _ => s
      end
  | None => s
  end.

(** Modelled from the spec: owner death of sections 3 and 4.2 (the
    missing membership event): the objects the process owns are lost. *)
Definition kill (p : ProcId) (s : Cluster) : Cluster :=
  settle_all (with_dead s (p :: dead s)).

(** What a [get] waits for: a stored object, or the result of a task. *)
Inductive Awaited : Type :=
| OfObject (id : ObjId)
| OfTask (t : TaskId).

Inductive Poll : Type :=
| Ready (pl : Payload)
| Waiting
| Gone (e : ErrorKind).

Definition poll_object (s : Cluster) (id : ObjId) : Poll :=
  match objs s !! id with
  | Some o =>
      match state o with
      | ACTIVE => Ready (mkPayload (size_bytes o) (nested o))
      | LOST => Gone LostError
      | PENDING_EVICTION | EVICTED => Waiting
      end
  | None => Waiting
  end.

(** Modelled from the spec: what one look of [get] finds (sections 4.1,
    4.3 and 8; the missing object store): the data when the count is
    above zero, a terminal error when the owner is gone or the task
    failed, nothing yet otherwise. *)
Definition poll (s : Cluster) (a : Awaited) : Poll :=
  match a with
  | OfObject id => poll_object s id
  | OfTask t =>
      match tasks s !! t with
      | Some tk =>
          match outcome tk with
          | Pending => Waiting
          | Succeeded id => poll_object s id
          | Failed e => Gone e
          end
      | None => Waiting
      end
  end.

(** Modelled from the spec: [get(id, timeout?)] of section 4.1 (the
    missing object store), in discrete time: [trace] is the cluster as
    the caller finds it at each tick of its wait, [timeout] the number of
    ticks it is ready to wait. The call blocks until the data is present;
    it is [Blocked] when the trace ends first. *)
Fixpoint await (a : Awaited) (timeout : option nat) (trace : list Cluster)
  : Reply Payload :=
  match trace with
  | [] => Blocked
  | s :: later =>
      match poll s a with
      | Ready pl => Ok pl
      | Gone e => Raise e
      | Waiting =>
          match timeout with
          | Some O => Raise TimeoutError
          | Some (S k) => await a (Some k) later
          | None => await a None later
          end
      end
  end.

(** Modelled from the spec: [get(ref, timeout)] of section 6 (the missing
    object store) on a cluster where nothing else happens during the
    wait. The cluster is returned as the call leaves it. *)
Definition get (a : Awaited) (timeout : option nat) (s : Cluster)
  : Cluster * Reply Payload :=
  (s, match poll s a with
      | Ready pl => Ok pl
      | Gone e => Raise e
      | Waiting =>
          match timeout with
          | Some _ => Raise TimeoutError
          | None => Blocked
          end
      end).

Definition is_waiting (p : Poll) : bool :=
  match p with Waiting => true | _ => false end.

(** At each of the first [n + 1] ticks of [trace] the data is not there
    and nothing terminal is known: the wait is still on when the timeout
    of [n] ticks elapses. *)
Definition waiting_throughout (a : Awaited) (n : nat) (trace : list Cluster)
  : bool :=
  forallb (fun s => is_waiting (poll s a)) (firstn (S n) trace).

(** The operations and events of the core, for runs. *)
Inductive Op : Type :=
| OpPut (p : ProcId) (pl : Payload)
| OpAddLocalRef (p : ProcId) (id : ObjId)
| OpRemoveLocalRef (p : ProcId) (id : ObjId)
| OpEvict (id : ObjId)
| OpSubmit (p : ProcId) (arg_ids : list ObjId) (retries : nat)
| OpSuccess (t : TaskId) (executor : ProcId) (pl : Payload)
| OpCrash (t : TaskId)
| OpKill (p : ProcId)
| OpGet (a : Awaited) (timeout : option nat).

Definition step (s : Cluster) (op : Op) : Cluster :=
  match op with
  | OpPut p pl => fst (put p pl s)
  | OpAddLocalRef p id => fst (add_local_ref p id s)
  | OpRemoveLocalRef p id => fst (remove_local_ref p id s)
  | OpEvict id => evict id s
  | OpSubmit p arg_ids retries => fst (submit p arg_ids retries s)
  | OpSuccess t executor pl => fst (on_success t executor pl s)
  | OpCrash t => on_executor_crash t s
  | OpKill p => kill p s
  | OpGet a timeout => fst (get a timeout s)
  end.

Definition run (s : Cluster) (ops : list Op) : Cluster :=
  fold_left step ops s.

End Core.

(** ** python/ray/tests/test_reference_counting_2.py: fixture and helper,
    run on the core *)

Module Scenario.
Import Core.

Local Open Scope N_scope.

Definition MiB : N := 1024 * 1024.

(** The process that runs the test. *)
Definition driver : ProcId := 0%nat.

(** The worker the fixture starts ([num_cpus=1]). *)
Definition worker : ProcId := 1%nat.

(** The fixture [one_worker_100MiB]: [object_store_memory] of 100 MiB and
    [object_store_full_max_retries] of 2. *)
Definition one_worker_100MiB : Cluster :=
  empty_cluster (100 * MiB) 2.

(** [np.zeros(40 * 1024 * 1024, dtype=np.uint8)] *)
Definition array_40MiB : Payload := mkPayload (40 * MiB) [].

(** [ray.put(...)] whose result is not kept: the handle is released as
    soon as the call returns. [delivered] tells whether the owner's
    [evict] has reached the store when the next operation starts. *)
Definition unrelated_put (delivered : bool) (s : Cluster)
  : Cluster * Reply ObjId :=
  match put driver array_40MiB s with
  | (s1, Ok id) =>
      let s2 := fst (remove_local_ref driver id s1) in
      (if delivered then evict id s2 else s2, Ok id)
  | r => r
  end.

(** The loop of [_fill_object_store_and_get]: the replies of the puts,
    in order. *)
Fixpoint _fill_object_store (schedule : list bool) (s : Cluster)
  : Cluster * list (Reply ObjId) :=
  match schedule with
  | [] => (s, [])
  | delivered :: rest =>
      let '(s1, r) := unrelated_put delivered s in
      let '(s2, rs) := _fill_object_store rest s1 in
      (s2, r :: rs)
  end.

Definition succeeded {A : Type} (r : Reply A) : bool :=
  match r with Ok _ => true | _ => false end.

(** Scenario A up to the five unrelated puts: the object put first is
    held by the driver. *)
Definition scenario_A_filled (schedule : list bool)
  : Cluster * list (Reply ObjId) :=
  let s1 := fst (put driver array_40MiB one_worker_100MiB) in
  _fill_object_store schedule s1.

(** The identifier the first put of a run returns. *)
Definition held : ObjId := 0%nat.

(** Scenario A after the driver dropped its reference. *)
Definition scenario_A_dropped (schedule : list bool) : Cluster :=
  fst (remove_local_ref driver held (fst (scenario_A_filled schedule))).

(** A list holding one reference, as [ray.put([nested_oid])] stores it. *)
Definition ref_list (id : ObjId) : Payload := mkPayload 1024 [id].

(** [levels] nested puts around [id], by the driver; the identifiers of
    the wrappers, innermost first. *)
Fixpoint nest (levels : nat) (id : ObjId) (s : Cluster)
  : Cluster * list ObjId :=
  match levels with
  | O => (s, [])
  | S k =>
      match put driver (ref_list id) s with
      | (s1, Ok w) =>
          let '(s2, ws) := nest k w s1 in (s2, w :: ws)
      | (s1, _) => (s1, [])
      end
  end.

Definition drop_all (p : ProcId) (ids : list ObjId) (s : Cluster) : Cluster :=
  fold_left (fun acc id => fst (remove_local_ref p id acc)) ids s.

(** Scenario B: the array, five wrappers, a task submitted with the
    outermost wrapper as its argument ([max_retries=1]), and every
    reference of the driver dropped. The array is object 0, the wrappers
    are 1 to 5, the task is task 0. *)
Definition scenario_B_pending : Cluster :=
  let s1 := fst (put driver array_40MiB one_worker_100MiB) in
  let '(s2, ws) := nest 5 0%nat s1 in
  let s3 := fst (submit driver [List.last ws 0%nat] 1 s2) in
  drop_all driver (0%nat :: ws) s3.

Definition innermost : ObjId := 0%nat.
Definition outermost : ObjId := 5%nat.
Definition pending_task : TaskId := 0%nat.

(** How the pending task of scenario B ends: it returns, or its executor
    crashes on the first attempt and on the retry. *)
Definition task_returns (s : Cluster) : Cluster :=
  fst (on_success pending_task worker (mkPayload 16 []) s).

Definition task_crashes_twice (s : Cluster) : Cluster :=
  on_executor_crash pending_task (on_executor_crash pending_task s).

Definition state_of (s : Cluster) (id : ObjId) : option ObjState :=
  state <$> objs s !! id.

(** Scenario B as a run of operations on the fixture. *)
Definition scenario_B_ops : list Op :=
  [OpPut driver array_40MiB;
   OpPut driver (ref_list 0%nat); OpPut driver (ref_list 1%nat);
   OpPut driver (ref_list 2%nat); OpPut driver (ref_list 3%nat);
   OpPut driver (ref_list 4%nat);
   OpSubmit driver [5%nat] 1;
   OpRemoveLocalRef driver 0%nat; OpRemoveLocalRef driver 1%nat;
   OpRemoveLocalRef driver 2%nat; OpRemoveLocalRef driver 3%nat;
   OpRemoveLocalRef driver 4%nat; OpRemoveLocalRef driver 5%nat].

(** A task submitted by the driver with the array as its argument, about
    to return from the worker. *)
Definition task_submitted_ops : list Op :=
  [OpPut driver array_40MiB; OpSubmit driver [0%nat] 0].

(** What happens to the object the first task returned (object 1): the
    driver passes it to a second task, the worker that runs it takes a
    handle and returns a list that holds the reference. *)
Definition pass_through_ops : list Op :=
  [OpSubmit driver [1%nat] 0;
   OpAddLocalRef worker 1%nat;
   OpSuccess 1%nat worker (ref_list 1%nat)].

End Scenario.

(** ** python/ray/tests/test_reference_counting_2.py: what the tests
    assert about the errors of [ray.get] *)

Module RefCountTest.

(** The exception classes of [ray.exceptions] the tests name. *)
Inductive RayError : Type :=
| RayTimeoutError
| RayWorkerError
| UnreconstructableError.

(** How [ray.get] ends. *)
Inductive GetResult : Type :=
| Returned
| Raised (e : RayError).

Inductive Verdict : Type :=
| Passes
| AssertionFails
| ErrorEscapes (e : RayError).

(** Lines 88 to 93 of [test_recursively_nest_ids], a [try] around
    [ray.get(tail_oid)] with an [assert] in each branch: the task behind
    [tail_oid] was declared with [max_retries=1] and, with [failure],
    leaves by [os._exit(0)] every time it runs. [got] is how
    [ray.get(tail_oid)] ends. Only [UnreconstructableError] is caught. *)
Definition test_recursively_nest_ids_tail (failure : bool) (got : GetResult)
  : Verdict :=
  match got with
  | Returned => if negb failure then Passes else AssertionFails
  | Raised UnreconstructableError => if failure then Passes else AssertionFails
  | Raised e => ErrorEscapes e
  end.

(** Lines 170 to 175 of [test_pass_returned_object_id]: the task was
    declared with [max_retries=0]. Only [RayWorkerError] is caught. *)
Definition test_pass_returned_object_id_pending (failure : bool)
    (got : GetResult) : Verdict :=
  match got with
  | Returned => if negb failure then Passes else AssertionFails
  | Raised RayWorkerError => if failure then Passes else AssertionFails
  | Raised e => ErrorEscapes e
  end.

(** The error kind of the specification an exception class stands for. *)
Definition kind_of (e : RayError) : Core.ErrorKind :=
  match e with
  | RayTimeoutError => Core.TimeoutError
  | RayWorkerError => Core.WorkerError
  | UnreconstructableError => Core.LostError
  end.

End RefCountTest.

(** ** The object-lifetime core: what the ownership table maintains *)

Module Ownership.
Import Core.

Local Open Scope nat_scope.
Local Open Scope list_scope.

(** [o'] is [o] up to its pins. *)
Definition same_but_pins (o o' : Obj) : Prop :=
  owner o' = owner o /\ size_bytes o' = size_bytes o /\ nested o' = nested o
  /\ handles o' = handles o /\ state o' = state o.

(** Every object of [os] is still in [os'], with its owner, its size and
    the references it embeds. *)
Definition extends (os os' : list Obj) : Prop :=
  forall (j : nat) (o : Obj),
    os !! j = Some o ->
    exists o', os' !! j = Some o'
               /\ owner o' = owner o /\ size_bytes o' = size_bytes o
               /\ nested o' = nested o.

(** A function on entries that keeps the owner and the payload. *)
Definition keeps_payload (f : Obj -> Obj) : Prop :=
  forall o, owner (f o) = owner o /\ size_bytes (f o) = size_bytes o
            /\ nested (f o) = nested o.

(** An object only embeds references to older objects. *)
Definition J1 (os : list Obj) : Prop :=
  forall i o b, os !! i = Some o -> b ∈ nested o -> b < i.

(** An active object holds a pin on every reference it embeds. *)
Definition J2 (os : list Obj) : Prop :=
  forall i o b,
    os !! i = Some o -> state o = ACTIVE -> b ∈ nested o ->
    exists ob, os !! b = Some ob /\ NestedPin i ∈ pins ob.

(** An active object is referenced and its owner is alive. *)
Definition J3 (d : list ProcId) (os : list Obj) : Prop :=
  forall i o,
    os !! i = Some o -> state o = ACTIVE -> 0 < refcount o /\ owner o ∉ d.

(** An object that is not active is unreferenced, or its owner is dead. *)
Definition J4 (d : list ProcId) (os : list Obj) : Prop :=
  forall i o,
    os !! i = Some o -> state o <> ACTIVE -> refcount o = 0 \/ owner o ∈ d.

Definition PreInv (d : list ProcId) (os : list Obj) : Prop :=
  J1 os /\ J2 os /\ J4 d os.

Definition Inv (s : Cluster) : Prop :=
  PreInv (dead s) (objs s) /\ J3 (dead s) (objs s).

(** Object [j] needs no settling. *)
Definition settled (d : list ProcId) (os : list Obj) (j : nat) : Prop :=
  forall o, os !! j = Some o -> state o = ACTIVE -> 0 < refcount o /\ owner o ∉ d.

End Ownership.

(** ** More of Python: exceptions of other modules, [str] methods, input *)

Module PyExt.
Import Py.

(** The exceptions the remaining functions raise or pass on, beside the
    built-in ones of [PyExc]. [RegexError] is [re.error], for a pattern
    that does not compile. The two [click] classes carry their message;
    [SilentClickException] is the subclass the logger module defines. *)
Inductive Exc : Type :=
| Builtin (e : PyExc)
| AssertionError
| AttributeError (msg : string)
| ImportError (msg : string)
| KeyboardInterrupt
| RegexError (pattern : string)
| ClickException (message : string)
| SilentClickException (message : string).

Inductive Out (A : Type) : Type :=
| Returns (a : A)
| Raises (e : Exc).
Arguments Returns {A} a.
Arguments Raises {A} e.

(** [str.lower] on one character (code points below 256): the letters
    A-Z and the accented capitals 192-222, the multiplication sign 215
    apart, move up by 32. *)
Definition lower_char (c : ascii) : ascii :=
  let n := nat_of_ascii c in
  if ((65 <=? n) && (n <=? 90))%nat
     || ((192 <=? n) && (n <=? 222) && negb (n =? 215))%nat
  then ascii_of_nat (n + 32)
  else c.

Fixpoint lower (s : string) : string :=
  match s with
  | EmptyString => EmptyString
  | String c rest => String (lower_char c) (lower rest)
  end.

(** [s.endswith("\n")] *)
Fixpoint endswith_newline (s : string) : bool :=
  match s with
  | EmptyString => false
  | String c EmptyString => Ascii.eqb c LF
  | String _ rest => endswith_newline rest
  end.

(** [s.split("\n")]: the pieces between line feeds, never an empty
    list. *)
Fixpoint split_newline (s : string) : list string :=
  match s with
  | EmptyString => [EmptyString]
  | String c rest =>
      if Ascii.eqb c LF then EmptyString :: split_newline rest
      else match split_newline rest with
           | piece :: pieces => String c piece :: pieces
           | [] => [String c EmptyString]
           end
  end.

(** [x in xs] for a list of [str]. *)
Definition str_in (x : string) (xs : list string) : bool :=
  existsb (String.eqb x) xs.

(** What [sys.stdin.readline()] meets next: a line as typed, with its
    line feed, or Ctrl-C while it waits. An empty list is the end of the
    input. *)
Inductive Input : Type :=
| Line (text : string)
| Interrupt.

(** [sys.stdin.readline()]: at the end of the input it returns the empty
    string, every time it is called. *)
Definition readline (stdin : list Input) : list Input * Out string :=
  match stdin with
  | [] => ([], Returns "")
  | Line text :: rest => (rest, Returns text)
  | Interrupt :: rest => (rest, Raises KeyboardInterrupt)
  end.

End PyExt.

(** ** cli_logger.py: the settings of the logger *)

Module CliSettings.
Import Py PyExt CliLogger.

(** The two color modes of [colorful] the logger names. *)
Class ColorModes : Type := {
  NO_COLORS : Z;
  ANSI_8_COLORS : Z
}.

(** What the logger asks of [colorful]: an assignment to [cf.colormode]
    or [cf.disable()]. *)
Inductive CfCall : Type :=
| set_colormode (mode : Z)
| disable.

(** The terminal: the requests made to [colorful] so far, oldest first,
    and whether standard input is a terminal. *)
Record Terminal : Type := {
  cf_calls : list CfCall;
  stdin_isatty : bool
}.

Definition cf_call (call : CfCall) (t : Terminal) : Terminal :=
  {| cf_calls := cf_calls t ++ [call]; stdin_isatty := stdin_isatty t |}.

Definition set__color_mode (self : _CliLogger) (x : string) : _CliLogger :=
  {| _non_interactive := _non_interactive self;
     _non_interactive_mode := _non_interactive_mode self;
     _color_mode := x;
     indent_level := indent_level self;
     _verbosity := _verbosity self;
     _autodetected_cf_colormode := _autodetected_cf_colormode self |}.

Definition set__non_interactive_mode (self : _CliLogger) (x : string)
  : _CliLogger :=
  {| _non_interactive := _non_interactive self;
     _non_interactive_mode := x;
     _color_mode := _color_mode self;
     indent_level := indent_level self;
     _verbosity := _verbosity self;
     _autodetected_cf_colormode := _autodetected_cf_colormode self |}.

Definition set__non_interactive (self : _CliLogger) (x : bool) : _CliLogger :=
  {| _non_interactive := x;
     _non_interactive_mode := _non_interactive_mode self;
     _color_mode := _color_mode self;
     indent_level := indent_level self;
     _verbosity := _verbosity self;
     _autodetected_cf_colormode := _autodetected_cf_colormode self |}.

(** The [non_interactive_mode] and [color_mode] properties. *)
Definition non_interactive_mode (self : _CliLogger) : string :=
  _non_interactive_mode self.

Definition color_mode (self : _CliLogger) : string :=
  _color_mode self.

(** [_CliLogger.detect_colors()] *)
Definition detect_colors `{ColorModes} (self : _CliLogger) (t : Terminal)
  : Terminal * Res PyVal :=
  if String.eqb (color_mode self) "true" then
    if negb (_autodetected_cf_colormode self =? NO_COLORS)
    then (cf_call (set_colormode (_autodetected_cf_colormode self)) t,
          Return PyNone)
    else (cf_call (set_colormode ANSI_8_COLORS) t, Return PyNone)
  else if String.eqb (color_mode self) "false" then
    (cf_call disable t, Return PyNone)
  else if String.eqb (color_mode self) "auto" then
    (t, Return PyNone)
  else
    (t, Raise (ValueError ("Invalid log color setting: " ++ color_mode self))).

(** The setter of [color_mode]: the attribute is assigned before
    [detect_colors] looks at it. *)
Definition color_mode_setter `{ColorModes} (self : _CliLogger) (t : Terminal)
    (x : string) : _CliLogger * Terminal * Res PyVal :=
  let self1 := set__color_mode self (lower x) in
  match detect_colors self1 t with
  | (t1, Return _) => (self1, t1, Return PyNone)
  | (t1, Raise e) => (self1, t1, Raise e)
  end.

(** The setter of [non_interactive]. *)
Definition non_interactive_setter `{ColorModes} (self : _CliLogger)
    (t : Terminal) (x : bool) : _CliLogger * Terminal * Res PyVal :=
  let self1 :=
    if negb (String.eqb (_non_interactive_mode self) "auto")
    then set__non_interactive_mode self (if x then "true" else "false")
    else self in
  if x then
    match color_mode_setter self1 t "false" with
    | (self2, t2, Return _) => (set__non_interactive self2 x, t2, Return PyNone)
    | (self2, t2, Raise e) => (self2, t2, Raise e)
    end
  else (set__non_interactive self1 x, t, Return PyNone).

(** The setter of [non_interactive_mode]. *)
Definition non_interactive_mode_setter `{ColorModes} (self : _CliLogger)
    (t : Terminal) (x : string) : _CliLogger * Terminal * Res PyVal :=
  let self1 := set__non_interactive_mode self (lower x) in
  if String.eqb (non_interactive_mode self1) "auto" then
    non_interactive_setter self1 t (negb (stdin_isatty t))
  else if String.eqb (non_interactive_mode self1) "false" then
    non_interactive_setter self1 t false
  else if String.eqb (non_interactive_mode self1) "true" then
    non_interactive_setter self1 t true
  else (self1, t, Return PyNone).

(** The [verbosity] property and its setter. *)
Definition verbosity (self : _CliLogger) : Z :=
  if non_interactive self then 999 else _verbosity self.

Definition verbosity_setter (self : _CliLogger) (x : Z) : _CliLogger :=
  {| _non_interactive := _non_interactive self;
     _non_interactive_mode := _non_interactive_mode self;
     _color_mode := _color_mode self;
     indent_level := indent_level self;
     _verbosity := x;
     _autodetected_cf_colormode := _autodetected_cf_colormode self |}.

(** An assignment to one of the four properties. *)
Inductive Assignment : Type :=
| assign_non_interactive_mode (x : string)
| assign_non_interactive (x : bool)
| assign_color_mode (x : string)
| assign_verbosity (x : Z).

Definition assign `{ColorModes} (self : _CliLogger) (t : Terminal)
    (a : Assignment) : _CliLogger * Terminal * Res PyVal :=
  match a with
  | assign_non_interactive_mode x => non_interactive_mode_setter self t x
  | assign_non_interactive x => non_interactive_setter self t x
  | assign_color_mode x => color_mode_setter self t x
  | assign_verbosity x => (verbosity_setter self x, t, Return PyNone)
  end.

(** A script of assignments, each in its own [try] block: one that
    raises leaves what it had stored and the script goes on. *)
Fixpoint assign_all `{ColorModes} (self : _CliLogger) (t : Terminal)
    (script : list Assignment) : _CliLogger * Terminal :=
  match script with
  | [] => (self, t)
  | a :: rest =>
      let '(self1, t1, _) := assign self t a in
      assign_all self1 t1 rest
  end.

(** The mode strings ["true"] and ["false"] say what the flag is. *)
Definition mode_agrees (self : _CliLogger) : Prop :=
  (non_interactive_mode self = "true" -> non_interactive self = true)
  /\ (non_interactive_mode self = "false" -> non_interactive self = false).

(** [verbose], [verbose_warning], [verbose_error] and [very_verbose]. *)
Definition verbose `{Colorful} (self : _CliLogger) (w : World) (msg : PyVal)
    (args : list PyVal) (kw : Kwargs) : World * Res PyVal :=
  if 0 <? verbosity self
  then as_statement (print self w msg args "VINFO" kw)
  else (w, Return PyNone).

Definition verbose_warning `{Colorful} (self : _CliLogger) (w : World)
    (msg : string) (args : list PyVal) (kw : Kwargs) : World * Res PyVal :=
  if 0 <? verbosity self
  then as_statement (_warning self w msg args (Some "VWARN") kw)
  else (w, Return PyNone).

Definition verbose_error `{Colorful} (self : _CliLogger) (w : World)
    (msg : string) (args : list PyVal) (kw : Kwargs) : World * Res PyVal :=
  if 0 <? verbosity self
  then as_statement (_error self w msg args (Some "VERR") kw)
  else (w, Return PyNone).

Definition very_verbose `{Colorful} (self : _CliLogger) (w : World)
    (msg : PyVal) (args : list PyVal) (kw : Kwargs) : World * Res PyVal :=
  if 1 <? verbosity self
  then as_statement (print self w msg args "VVINFO" kw)
  else (w, Return PyNone).

End CliSettings.

(** ** cli_logger.py: groups, aborting and the dialogs *)

Module CliDialog.
Import Py PyExt CliLogger.

(** The console of a dialog: the world the logger writes to and what is
    still to come on standard input. *)
Record Console : Type := {
  world : World;
  stdin : list Input
}.

Definition on_world (c : Console) (w : World) : Console :=
  {| world := w; stdin := stdin c |}.

(** [_CliLogger.group(msg, *args, **kwargs)]: the title is printed, then
    the context manager of [indented()] is returned. *)
Definition group `{Colorful} (self : _CliLogger) (w : World) (msg : string)
    (args : list PyVal) (kw : Kwargs) : World * Res unit :=
  match print self w (PyStr (cf_style dodgerBlue msg)) args INFO kw with
  | (w1, Return _) => (w1, Return tt)
  | (w1, Raise e) => (w1, Raise e)
  end.

(** [_CliLogger.timed(msg, *args, **kwargs)] *)
Definition timed `{Colorful} (self : _CliLogger) (w : World) (msg : string)
    (args : list PyVal) (kw : Kwargs) : World * Res unit :=
  group self w msg args kw.

(** [with cli_logger.group(msg, ...): body]: when [group] raises the
    block is not entered. *)
Definition with_group `{Colorful}
    (body : _CliLogger -> World -> _CliLogger * World * Res unit)
    (self : _CliLogger) (w : World) (msg : string) (args : list PyVal)
    (kw : Kwargs) : _CliLogger * World * Res unit :=
  match group self w msg args kw with
  | (w1, Return _) => with_indented body self w1
  | (w1, Raise e) => (self, w1, Raise e)
  end.

Definition abort_message : string := "Exiting due to cli_logger.abort()".

(** [_CliLogger.abort(msg=None, *args, exc=None, **kwargs)] *)
Definition abort `{Colorful} (self : _CliLogger) (w : World)
    (msg : option string) (args : list PyVal) (exc : option Exc) (kw : Kwargs)
  : World * Out PyVal :=
  let finish (w1 : World) : World * Out PyVal :=
    match exc with
    | Some e => (w1, Raises e)
    | None =>
        if non_interactive self
        then (w1, Raises (ClickException abort_message))
        else (w1, Raises (SilentClickException abort_message))
    end in
  match msg with
  | Some m =>
      match _error self w m args (Some "PANIC") kw with
      | (w1, Return _) => finish w1
      | (w1, Raise e) => (w1, Raises (Builtin e))
      end
  | None => finish w
  end.

(** [_CliLogger.doassert(val, msg, *args, **kwargs)] *)
Definition doassert `{Colorful} (self : _CliLogger) (w : World) (val : bool)
    (msg : string) (args : list PyVal) (kw : Kwargs) : World * Out PyVal :=
  if negb val then
    let exc := if non_interactive self then Some AssertionError else None in
    match abort self w (Some msg) args exc kw with
    | (w1, Returns _) => (w1, Returns PyNone)
    | (w1, Raises e) => (w1, Raises e)
    end
  else (w, Returns PyNone).

(** [_CliLogger.render_list(xs, separator)] *)
Definition render_list `{Colorful} (xs : list string) (separator : string)
  : string :=
  join separator (map (cf_style bold) xs).

Definition yes_answers : list string := ["y"; "yes"; "true"; "1"].
Definition no_answers : list string := ["n"; "no"; "false"; "0"].

Definition invalid_answer_msg : string :=
  "{}Invalid answer: {}. Expected {} or {}".

(** The [while True] loop of [confirm], with the prompt text and the
    width of the message as the code before it computed them. It ends
    with the answer, or with the exception that left it
    ([KeyboardInterrupt] from [readline] among them); [None] when
    [fuel] rounds were not enough. *)
Fixpoint confirm_loop `{Colorful} (fuel : nat) (self : _CliLogger)
    (c : Console) (default : bool) (msg_len : nat) (confirm_str : string)
  : option (Console * Out bool) :=
  match fuel with
  | O => None
  | S fuel' =>
      match readline (stdin c) with
      | (rest, Raises e) => Some ({| world := world c; stdin := rest |}, Raises e)
      | (rest, Returns ans0) =>
          let c1 := {| world := world c; stdin := rest |} in
          let ans := lower ans0 in
          if String.eqb ans newline then Some (c1, Returns default)
          else
            let ans := strip ans in
            if str_in ans yes_answers then Some (c1, Returns true)
            else if str_in ans no_answers then Some (c1, Returns false)
            else
              let indent := repeat_str " " (Z.of_nat msg_len) in
              match error self (world c1) invalid_answer_msg
                      [PyStr indent; PyStr (cf_style bold (strip ans));
                       PyStr (render_list yes_answers "/");
                       PyStr (render_list no_answers "/")] no_kwargs with
              | (w2, Raise e) => Some (on_world c1 w2, Raises (Builtin e))
              | (w2, Return _) =>
                  match _print self w2 (indent ++ confirm_str) INFO false with
                  | (w3, Raise e) => Some (on_world c1 w3, Raises (Builtin e))
                  | (w3, Return _) =>
                      confirm_loop fuel' self (on_world c1 w3) default msg_len
                        confirm_str
                  end
              end
      end
  end.

Definition non_interactive_confirm_msg : string :=
  "This command requires user confirmation. When running non-interactively, supply --yes to skip.".

Definition confirm_abort_message : string :=
  "Exiting due to the response to confirm(should_abort=True).".

(** [_CliLogger.confirm(yes, msg, *args, _abort, _default, **kwargs)] *)
Definition confirm `{Colorful} (fuel : nat) (self : _CliLogger) (c : Console)
    (yes : bool) (msg : string) (args : list PyVal) (_abort _default : bool)
    (kw : Kwargs) : option (Console * Out bool) :=
  let should_abort := _abort in
  let default := _default in
  if non_interactive self && negb yes then
    match error self (world c) non_interactive_confirm_msg [] no_kwargs with
    | (w1, Raise e) => Some (on_world c w1, Raises (Builtin e))
    | (w1, Return _) =>
        Some (on_world c w1,
              Raises (Builtin (ValueError "Non-interactive confirm without --yes.")))
    end
  else
    let yn_str :=
      if default then cf_style limeGreen "Y" ++ "/" ++ cf_style red "n"
      else cf_style limeGreen "y" ++ "/" ++ cf_style red "N" in
    let confirm_str := cf_style underlined ("Confirm [" ++ yn_str ++ "]:") ++ " " in
    match _format_msg (PyStr msg) args kw with
    | Raise e => Some (c, Raises (Builtin e))
    | Return rendered =>
        let rendered_message :=
          if negb (String.eqb rendered "") && negb (endswith_newline msg)
          then rendered ++ " " else rendered in
        let msg_len :=
          String.length (List.last (split_newline rendered_message) "") in
        let complete_str := rendered_message ++ confirm_str in
        if yes then
          match _print self (world c)
                  (complete_str ++ "y "
                   ++ cf_style dimmed "[automatic, due to --yes]") INFO true with
          | (w1, Raise e) => Some (on_world c w1, Raises (Builtin e))
          | (w1, Return _) => Some (on_world c w1, Returns true)
          end
        else
          match _print self (world c) complete_str INFO false with
          | (w1, Raise e) => Some (on_world c w1, Raises (Builtin e))
          | (w1, Return _) =>
              let finish (c3 : Console) (res : bool) : Console * Out bool :=
                if negb res && should_abort then
                  match _print self (world c3) "Exiting..." INFO true with
                  | (w4, Raise e) => (on_world c3 w4, Raises (Builtin e))
                  | (w4, Return _) =>
                      (on_world c3 w4,
                       Raises (SilentClickException confirm_abort_message))
                  end
                else (c3, Returns res) in
              match confirm_loop fuel self (on_world c w1) default msg_len
                      confirm_str with
              | None => None
              | Some (c2, Returns res) => Some (finish c2 res)
              | Some (c2, Raises KeyboardInterrupt) =>
                  match newline_ self (world c2) with
                  | (w3, Raise e) => Some (on_world c2 w3, Raises (Builtin e))
                  | (w3, Return _) => Some (finish (on_world c2 w3) default)
                  end
              | Some (c2, Raises e) => Some (c2, Raises e)
              end
          end
    end.

(** What one line of input means to the loop of [confirm]: an answer, the
    bare line feed that stands for the default, or nothing it knows. *)
Inductive Reading : Type :=
| Answer (b : bool)
| Blank
| Unknown.

Definition read_answer (text : string) : Reading :=
  if String.eqb (lower text) newline then Blank
  else if str_in (strip (lower text)) yes_answers then Answer true
  else if str_in (strip (lower text)) no_answers then Answer false
  else Unknown.

(** The first input that settles the dialog, and the input left after
    it: lines that are no answer are passed over, Ctrl-C stands for the
    default, and the end of the input settles nothing. *)
Fixpoint first_answer (default : bool) (inputs : list Input)
  : option (bool * list Input) :=
  match inputs with
  | [] => None
  | Interrupt :: rest => Some (default, rest)
  | Line text :: rest =>
      match read_answer text with
      | Answer b => Some (b, rest)
      | Blank => Some (default, rest)
      | Unknown => first_answer default rest
      end
  end.

(** A line as a terminal delivers it: no line feed but, possibly, the one
    at its end. *)
Fixpoint is_line (text : string) : bool :=
  match text with
  | EmptyString => true
  | String c EmptyString => true
  | String c rest => negb (Ascii.eqb c LF) && is_line rest
  end.

Definition is_typed (x : Input) : bool :=
  match x with
  | Line text => is_line text
  | Interrupt => true
  end.

(** What the dialog needs of [colorful] to stay on one line: styles add
    no line feed, and [cf.format] fills the four fields of the
    invalid-answer message, and formats the empty message of
    [newline()], without raising and without adding one. *)
Definition formats_on_one_line `{Colorful} : Prop :=
  (forall (st : Style) (s : string),
     py_in newline s = false -> py_in newline (cf_style st s) = false)
  /\ (forall a b c d : string,
        py_in newline a = false -> py_in newline b = false ->
        py_in newline c = false -> py_in newline d = false ->
        exists s : string,
          cf_format (cf_style red invalid_answer_msg)
            [PyStr a; PyStr b; PyStr c; PyStr d] [] = Return s
          /\ py_in newline s = false)
  /\ (exists s : string,
        cf_format "" [] [] = Return s /\ py_in newline s = false).

(** A block body that prints one message. *)
Definition print_in_block `{Colorful} (msg : PyVal) (args : list PyVal)
    (kw : Kwargs) (self : _CliLogger) (w : World)
  : _CliLogger * World * Res unit :=
  match print self w msg args INFO kw with
  | (w1, Return _) => (self, w1, Return tt)
  | (w1, Raise e) => (self, w1, Raise e)
  end.

(** The parameters [_print] takes by keyword. *)
Record PrintKeywords : Type := {
  level_str : string;
  linefeed : bool
}.

(** Binding the keywords of a call [self._print(msg, **keywords)]: a
    name that is no parameter of [_print] is a [TypeError], raised before
    the body runs. *)
Fixpoint bind_print_keywords (keywords : list (string * PyVal))
    (bound : PrintKeywords) : Res PrintKeywords :=
  match keywords with
  | [] => Return bound
  | (name, v) :: rest =>
      if String.eqb name "_level_str" then
        bind_print_keywords rest
          {| level_str := py_str v; linefeed := linefeed bound |}
      else if String.eqb name "_linefeed" then
        bind_print_keywords rest
          {| level_str := level_str bound; linefeed := py_truthy v |}
      else
        Raise (TypeError ("_print() got an unexpected keyword argument '"
                          ++ name ++ "'"))
  end.

Definition _print_with_keywords (self : _CliLogger) (w : World) (msg : string)
    (keywords : list (string * PyVal)) : World * Res PyVal :=
  match bind_print_keywords keywords {| level_str := INFO; linefeed := true |} with
  | Return bound => _print self w msg (level_str bound) (linefeed bound)
  | Raise e => (w, Raise e)
  end.

(** [_CliLogger.prompt(msg, *args, **kwargs)]: the message is printed by
    [self._print(rendered_message, linefeed=False)], then one line is
    read. *)
Definition prompt `{Colorful} (self : _CliLogger) (c : Console) (msg : string)
    (args : list PyVal) (kw : Kwargs) : Console * Out string :=
  let complete_str := cf_style underlined msg in
  match _format_msg (PyStr complete_str) args kw with
  | Raise e => (c, Raises (Builtin e))
  | Return rendered =>
      let rendered_message :=
        if negb (String.eqb rendered "") && negb (endswith_newline msg)
        then rendered ++ " " else rendered in
      match _print_with_keywords self (world c) rendered_message
              [("linefeed", PyBool false)] with
      | (w1, Raise e) => (on_world c w1, Raises (Builtin e))
      | (w1, Return _) =>
          let c1 := on_world c w1 in
          match readline (stdin c1) with
          | (rest, Returns ans) =>
              ({| world := world c1; stdin := rest |}, Returns (strip (lower ans)))
          | (rest, Raises KeyboardInterrupt) =>
              let c2 := {| world := world c1; stdin := rest |} in
              match newline_ self (world c2) with
              | (w3, Raise e) => (on_world c2 w3, Raises (Builtin e))
              | (w3, Return _) => (on_world c2 w3, Returns "")
              end
          | (rest, Raises e) => ({| world := world c1; stdin := rest |}, Raises e)
          end
      end
  end.

(** [colorful] with colors disabled, and [cf.format] for messages whose
    fields are all the automatic field [{}]: each takes the next
    positional argument, and a field with no argument left is an
    [IndexError]. *)
Fixpoint format_fields (s : string) (args : list PyVal) : Res string :=
  match s with
  | EmptyString => Return EmptyString
  | String "{" (String "}" rest) =>
      match args with
      | [] =>
          Raise (IndexError
                   "Replacement index 0 out of range for positional args tuple")
      | a :: args' =>
          bind (format_fields rest args') (fun r => Return (py_str a ++ r))
      end
  | String c rest => bind (format_fields rest args) (fun r => Return (String c r))
  end.

Definition fields_colorful : Colorful :=
  {| cf_style := fun _ s => s;
     cf_format := fun s args _ => format_fields s args |}.

(** A world with nothing written yet, and a console on which the given
    answers are typed, each followed by the return key. *)
Definition blank_world : World := {| stdout := ""; asctime := "" |}.

Definition typed (answers : list string) : Console :=
  {| world := blank_world;
     stdin := map (fun a => Line (a ++ newline)) answers |}.

(** [_CliLogger.old_confirm(msg, yes)]: a bare [return]. *)
Definition old_confirm (self : _CliLogger) (c : Console) (msg : string)
    (yes : bool) : Console * Out PyVal :=
  (c, Returns PyNone).

End CliDialog.

(** ** framework.py: checking a framework and importing it *)

Module FrameworkImports.
Import Py PyExt Framework.

Definition no_tensorflow_msg : string :=
  "Could not import `tensorflow`. Try `pip install tensorflow`".

Definition no_torch_msg : string :=
  "Could not import `torch`. Try `pip install torch torchvision`".

(** [v == s] for a [str] literal [s]. *)
Definition py_eq_str (v : PyVal) (s : string) : bool :=
  match v with
  | PyStr x => String.eqb x s
  | _ => false
  end.

Definition invalid_framework_msg (framework : PyVal) : string :=
  "Invalid framework='" ++ py_str framework
  ++ "'. Use one of [tf|tfe|torch|auto].".

(** [check_framework(framework, allow_none=True)], reading the module
    globals [torch] and [tf]. *)
Definition check_framework (framework : PyVal) (allow_none : bool)
    (torch tf : option PyModule) (l : LogState) : LogState * Out PyVal :=
  (* Resolve auto framework first. *)
  let resolved : LogState * Res PyVal :=
    if py_eq_str framework "auto" then
      match get_auto_framework torch tf l with
      | (l1, Return f) => (l1, Return (PyStr f))
      | (l1, Raise e) => (l1, Raise e)
      end
    else (l, Return framework) in
  match resolved with
  | (l1, Raise e) => (l1, Raises (Builtin e))
  | (l1, Return framework) =>
      if py_eq_str framework "tf" || py_eq_str framework "tfe" then
        match tf with
        | None => (l1, Raises (ImportError no_tensorflow_msg))
        | Some _ => (l1, Returns framework)
        end
      else if py_eq_str framework "torch" then
        match torch with
        | None => (l1, Raises (ImportError no_torch_msg))
        | Some _ => (l1, Returns framework)
        end
      else
        match framework with
        | PyNone =>
            if negb allow_none
            then (l1, Raises (Builtin (ValueError "framework=None not allowed!")))
            else (l1, Returns framework)
        | _ => (l1, Raises (Builtin (ValueError (invalid_framework_msg framework))))
        end
  end.

(** The interpreter as the import helpers see it: [os.environ], the
    names in [sys.modules], the modules the import system can find, the
    lines sent to [logger.warning], and the calls made on the tensorflow
    module. *)
Record Interp : Type := {
  environ : list (string * string);
  sys_modules : list string;
  installed : list string;
  warnings : list string;
  tf_calls : list string
}.

(** [key in os.environ] *)
Definition in_environ (key : string) (i : Interp) : bool :=
  str_in key (map fst (environ i)).

(** [os.environ[key] = value] for a key that is not set. *)
Definition setenv (key value : string) (i : Interp) : Interp :=
  {| environ := environ i ++ [(key, value)];
     sys_modules := sys_modules i;
     installed := installed i;
     warnings := warnings i;
     tf_calls := tf_calls i |}.

Definition logger_warning (line : string) (i : Interp) : Interp :=
  {| environ := environ i;
     sys_modules := sys_modules i;
     installed := installed i;
     warnings := warnings i ++ [line];
     tf_calls := tf_calls i |}.

Definition tf_call (name : string) (i : Interp) : Interp :=
  {| environ := environ i;
     sys_modules := sys_modules i;
     installed := installed i;
     warnings := warnings i;
     tf_calls := tf_calls i ++ [name] |}.

Definition load (name : string) (i : Interp) : Interp :=
  {| environ := environ i;
     sys_modules := sys_modules i ++ [name];
     installed := installed i;
     warnings := warnings i;
     tf_calls := tf_calls i |}.

(** [import a.b.c], given as the packages on the way, outermost first:
    one already in [sys.modules] is taken from there, one the import
    system finds is loaded and entered, and the first one it does not
    find raises [ImportError], the ones before it staying loaded. *)
Fixpoint import_ (names : list string) (i : Interp) : Interp * Out unit :=
  match names with
  | [] => (i, Returns tt)
  | name :: rest =>
      if str_in name (sys_modules i) then import_ rest i
      else if str_in name (installed i) then import_ rest (load name i)
      else (i, Raises (ImportError ("No module named '" ++ name ++ "'")))
  end.

(** [try_import_tf(error=False)]. The attribute [compat.v1] of a loaded
    tensorflow is there when that submodule is loaded. *)
Definition try_import_tf (error : bool) (i : Interp)
  : Interp * Out (option PyModule) :=
  if in_environ "RLLIB_TEST_NO_TF_IMPORT" i then
    (logger_warning "Not importing TensorFlow for test purposes" i,
     Returns None)
  else
    let i1 :=
      if negb (in_environ "TF_CPP_MIN_LOG_LEVEL" i)
      then setenv "TF_CPP_MIN_LOG_LEVEL" "3" i else i in
    if str_in "tensorflow" (sys_modules i1) then
      if str_in "tensorflow.compat.v1" (sys_modules i1)
      then (i1, Returns (Some (Module_ "tensorflow.compat.v1")))
      else (i1, Returns (Some (Module_ "tensorflow")))
    else
      match import_ ["tensorflow"; "tensorflow.compat"; "tensorflow.compat.v1"]
              i1 with
      | (i2, Returns _) =>
          (tf_call "disable_v2_behavior" (tf_call "logging.set_verbosity" i2),
           Returns (Some (Module_ "tensorflow.compat.v1")))
      | (i2, Raises (ImportError _)) =>
          match import_ ["tensorflow"] i2 with
          | (i3, Returns _) => (i3, Returns (Some (Module_ "tensorflow")))
          | (i3, Raises (ImportError msg)) =>
              if error then (i3, Raises (ImportError msg))
              else (i3, Returns None)
          | (i3, Raises e) => (i3, Raises e)
          end
      | (i2, Raises e) => (i2, Raises e)
      end.


(** What [try_import_torch] returns beside the [torch] module: the
    module [torch.nn], or an instance of the class [NNStub]. *)
Inductive NN : Type :=
| nn_module (m : PyModule)
| NNStub.

(** [_torch_stubs()] *)
Definition _torch_stubs : option PyModule * NN := (None, NNStub).

(** [try_import_torch(error=False)] *)
Definition try_import_torch (error : bool) (i : Interp)
  : Interp * Out (option PyModule * NN) :=
  if in_environ "RLLIB_TEST_NO_TORCH_IMPORT" i then
    (logger_warning "Not importing PyTorch for test purposes." i,
     Returns _torch_stubs)
  else
    let on_import_error (i1 : Interp) (msg : string) :=
      if error then (i1, Raises (ImportError msg))
      else (i1, Returns _torch_stubs) in
    match import_ ["torch"] i with
    | (i1, Returns _) =>
        match import_ ["torch"; "torch.nn"] i1 with
        | (i2, Returns _) =>
            (i2, Returns (Some (Module_ "torch"), nn_module (Module_ "torch.nn")))
        | (i2, Raises (ImportError msg)) => on_import_error i2 msg
        | (i2, Raises e) => (i2, Raises e)
        end
    | (i1, Raises (ImportError msg)) => on_import_error i1 msg
    | (i1, Raises e) => (i1, Raises e)
    end.

(** [nn.<name>] for what [try_import_torch] returned: an [NNStub] has
    the attributes [functional] and [Module] and no other; the module
    [torch.nn] has the classes asked of it. *)
Definition nn_getattr (nn : NN) (name : string) : Out PyVal :=
  match nn with
  | nn_module (Module_ m) => Returns (PyObj (m ++ "." ++ name))
  | NNStub =>
      if String.eqb name "functional" then Returns PyNone
      else if String.eqb name "Module" then Returns (PyObj "ModuleStub")
      else Raises (AttributeError
                     ("'NNStub' object has no attribute '" ++ name ++ "'"))
  end.

Definition unknown_activation_msg (name : string) (framework : PyVal)
  : string :=
  "Unknown activation (" ++ name ++ ") for framework=" ++ py_str framework
  ++ "!".

(** [get_activation_fn(name, framework="tf")], the name being [None] or
    a [str]; both branches begin with [name in ["linear", None]], which
    [None] passes whatever the framework is. [tf_nn] lists the names the
    module [tf.nn] has. *)
Definition get_activation_fn (tf_nn : list string) (name : option string)
    (framework : PyVal) (i : Interp) : Interp * Out PyVal :=
  match name with
  | None => (i, Returns PyNone)
  | Some n =>
      if py_eq_str framework "torch" then
        if String.eqb n "linear" then (i, Returns PyNone)
        else
          match try_import_torch false i with
          | (i1, Returns (_, nn)) =>
              if String.eqb n "relu" then (i1, nn_getattr nn "ReLU")
              else if String.eqb n "tanh" then (i1, nn_getattr nn "Tanh")
              else (i1, Raises (Builtin (ValueError
                          (unknown_activation_msg n framework))))
          | (i1, Raises e) => (i1, Raises e)
          end
      else
        if String.eqb n "linear" then (i, Returns PyNone)
        else
          match try_import_tf false i with
          | (i1, Returns None) =>
              (i1, Raises (AttributeError
                             "'NoneType' object has no attribute 'nn'"))
          | (i1, Returns (Some (Module_ m))) =>
              if str_in n tf_nn
              then (i1, Returns (PyObj (m ++ ".nn." ++ n)))
              else (i1, Raises (Builtin (ValueError
                          (unknown_activation_msg n framework))))
          | (i1, Raises e) => (i1, Raises e)
          end
  end.






(** A fresh interpreter with the given modules to be found. *)
Definition fresh_interp (modules : list string) : Interp :=
  {| environ := []; sys_modules := []; installed := modules;
     warnings := []; tf_calls := [] |}.

End FrameworkImports.

(** ** python/ray/tests/test_cli.py: the output checks *)

Module TestCli.
Import Py PyExt.
Local Open Scope nat_scope.
Local Open Scope list_scope.






Section WithRegex.

(** [re.fullmatch(pattern, text) is not None]; [None] for a pattern that
    does not compile, where [re] raises [re.error]. *)
Variable fullmatch : string -> string -> option bool.

(** [repr(s)] *)
Variable repr : string -> string.

(** The [for] loop of [_debug_check_line_by_line]: the index [i] and the
    lines printed so far. *)
Fixpoint check_lines (output_lines expected_lines : list string) (i : nat)
    (printed : list string) : nat * list string * Out unit :=
  match output_lines with
  | [] => (i, printed, Returns tt)
  | out :: rest =>
      let printed := printed ++ [out] in
      if length expected_lines <=? i then
        check_lines rest expected_lines (i + 1)
          (printed ++ ["!!!!!! Expected fewer lines"])
      else
        match nth_error expected_lines i with
        | None =>
            (i, printed, Raises (Builtin (IndexError "list index out of range")))
        | Some exp =>
            match fullmatch (exp ++ " *")%string out with
            | None => (i, printed, Raises (RegexError exp))
            | Some matched =>
                let printed :=
                  if negb matched
                  then printed ++ ["!!!!!!! Expected (regex):"; repr exp]
                  else printed in
                check_lines rest expected_lines (i + 1) printed
            end
        end
  end.

(** The [while] loop that follows: [i] is advanced before the line is
    looked up. [fuel] bounds the rounds. *)
Fixpoint report_missing (fuel : nat) (expected_lines : list string) (i : nat)
    (printed : list string) : option (nat * list string * Out unit) :=
  match fuel with
  | O => None
  | S fuel' =>
      if i <? length expected_lines then
        let i := i + 1 in
        let printed := printed ++ ["!!!!!!! Expected (regex):"] in
        match nth_error expected_lines i with
        | None =>
            Some (i, printed,
                  Raises (Builtin (IndexError "list index out of range")))
        | Some exp =>
            report_missing fuel' expected_lines i (printed ++ [repr exp])
        end
      else Some (i, printed, Returns tt)
  end.

(** [_debug_check_line_by_line(result, expected_lines)], given
    [result.output]: what it printed and how it ended. *)
Definition _debug_check_line_by_line (fuel : nat) (output : string)
    (expected_lines : list string) : option (list string * Out unit) :=
  let output_lines := split_newline output in
  match check_lines output_lines expected_lines 0 [] with
  | (i, printed, Raises e) => Some (printed, Raises e)
  | (i, printed, Returns _) =>
      match report_missing fuel expected_lines i printed with
      | None => None
      | Some (_, printed, Raises e) => Some (printed, Raises e)
      | Some (_, printed, Returns _) => Some (printed, Raises AssertionError)
      end
  end.

End WithRegex.

End TestCli.

(* ===================================================================== *)
(** * Part II: theorems *)
(* ===================================================================== *)

(** ** Strings *)

Module PyFacts.
Import Py.

Lemma append_assoc (a b c : string) : (a ++ b) ++ c = a ++ (b ++ c).
Proof.
  induction a as [|x a IH]; [reflexivity|].
  change (String x ((a ++ b) ++ c) = String x (a ++ (b ++ c))).
  now rewrite IH.
Qed.

Lemma chars_app (a b : string) :
  list_ascii_of_string (a ++ b)
  = (list_ascii_of_string a ++ list_ascii_of_string b)%list.
Proof. induction a as [|c a IH]; simpl; [reflexivity|]. now rewrite IH. Qed.

(** The test of [_print], ["\n" in msg], holds exactly when one of the
    characters of [msg] is the line feed. *)
Lemma py_in_newline_cons (c : ascii) (rest : string) :
  py_in newline (String c rest)
  = if ascii_dec LF c then true else py_in newline rest.
Proof.
  change (py_in newline (String c rest))
    with (if String.prefix newline (String c rest) then true
          else py_in newline rest).
  unfold newline. cbn [String.prefix].
  destruct (ascii_dec LF c); [|reflexivity].
  now destruct rest.
Qed.

Lemma py_in_newline (msg : string) :
  py_in newline msg = true <-> In LF (list_ascii_of_string msg).
Proof.
  induction msg as [|c rest IH].
  - simpl. split; [discriminate | tauto].
  - rewrite py_in_newline_cons. cbn [list_ascii_of_string In].
    destruct (ascii_dec LF c) as [Heq|Hne].
    + split; auto.
    + rewrite IH. split; [auto | intros [Heq|Hin]; [congruence | assumption]].
Qed.

Lemma py_in_newline_false (msg : string) :
  py_in newline msg = false <-> ~ In LF (list_ascii_of_string msg).
Proof.
  rewrite <- py_in_newline. destruct (py_in newline msg); split; congruence.
Qed.

Lemma no_LF_app (a b : string) :
  ~ In LF (list_ascii_of_string a) -> ~ In LF (list_ascii_of_string b) ->
  ~ In LF (list_ascii_of_string (a ++ b)).
Proof. rewrite chars_app, in_app_iff. tauto. Qed.

Lemma no_LF_iter (s : string) (n : nat) :
  ~ In LF (list_ascii_of_string s) ->
  ~ In LF (list_ascii_of_string (Nat.iter n (String.append s) "")).
Proof.
  intros Hs. induction n as [|n IH]; simpl; [tauto|].
  now apply no_LF_app.
Qed.

Lemma no_LF_repeat_str (s : string) (n : Z) :
  ~ In LF (list_ascii_of_string s) ->
  ~ In LF (list_ascii_of_string (repeat_str s n)).
Proof. apply no_LF_iter. Qed.

Lemma no_LF_ljust6 (s : string) :
  ~ In LF (list_ascii_of_string s) ->
  ~ In LF (list_ascii_of_string (ljust6 s)).
Proof.
  intros Hs. apply no_LF_app; [assumption|].
  apply no_LF_iter. simpl. intros [H|[]]. discriminate H.
Qed.

Lemma length_indent (k : nat) :
  String.length (Nat.iter k (String.append "  ") "") = (2 * k)%nat.
Proof.
  induction k as [|k IH]; [reflexivity|].
  change (Nat.iter (S k) (String.append "  ") "")
    with (String " "%char (String " "%char (Nat.iter k (String.append "  ") ""))).
  cbn [String.length]. rewrite IH. lia.
Qed.

Ltac no_LF_literal := cbn; intuition discriminate.

End PyFacts.

(** ** rllib/utils/framework.py *)

Module FrameworkFacts.
Import Py Framework.

Lemma log_once_then_info_result (key line : string) (l : LogState) (r : Res string) :
  snd (let '(first, l1) := log_once key l in
       let l2 := if first then logger_info line l1 else l1 in
       (l2, r)) = r.
Proof. now destruct (log_once key l) as [first l1]. Qed.

(** C8. [get_auto_framework] decides on the two module globals alone:
    torch without tf gives "torch", tf without torch gives "tf", both
    installed raises [ValueError], none installed raises [ValueError];
    the four cases cover every input. *)
Theorem get_auto_framework_case_analysis :
  forall (torch_module tf_module : PyModule) (l : LogState),
    snd (get_auto_framework (Some torch_module) None l) = Return "torch"
    /\ snd (get_auto_framework None (Some tf_module) l) = Return "tf"
    /\ get_auto_framework (Some torch_module) (Some tf_module) l
       = (l, Raise (ValueError both_installed_msg))
    /\ get_auto_framework None None l
       = (l, Raise (ValueError none_installed_msg)).
Proof.
  intros t f l. repeat split.
  - unfold get_auto_framework. apply log_once_then_info_result.
  - unfold get_auto_framework. simpl. apply log_once_then_info_result.
Qed.

(** A second call of [log_once] with a key finds it logged. *)
Lemma log_once_again (key : string) (l : LogState) :
  log_once key (snd (log_once key l)) = (false, snd (log_once key l)).
Proof.
  unfold log_once at 2 3.
  destruct (bool_decide (key ∈ logged_once l)) eqn:E; cbn [snd]; unfold log_once.
  - now rewrite E.
  - cbn [logged_once]. rewrite bool_decide_eq_true_2; [reflexivity | left].
Qed.

Lemma logged_once_logger_info (line : string) (l : LogState) :
  logged_once (logger_info line l) = logged_once l.
Proof. reflexivity. Qed.

(** X4. Whatever is installed, [get_auto_framework] writes its detection
    message at most once: a second call leaves the log as the first one
    left it. *)
Theorem get_auto_framework_logs_once :
  forall (torch tf : option PyModule) (l : LogState),
    fst (get_auto_framework torch tf (fst (get_auto_framework torch tf l)))
    = fst (get_auto_framework torch tf l).
Proof.
  assert (Hkey : forall (line : string) (l : LogState) (r : Res string),
            let after := fst (let '(first, l1) := log_once "get_auto_framework" l in
                              let l2 := if first then logger_info line l1 else l1 in
                              (l2, r)) in
            fst (let '(first, l1) := log_once "get_auto_framework" after in
                 let l2 := if first then logger_info line l1 else l1 in
                 (l2, r)) = after).
  { intros line l r.
    destruct (log_once "get_auto_framework" l) as [first l1] eqn:E1.
    assert (Hin : "get_auto_framework" ∈ logged_once l1).
    { unfold log_once in E1.
      destruct (bool_decide ("get_auto_framework" ∈ logged_once l)) eqn:E;
        inversion E1; subst.
      - now apply bool_decide_eq_true in E.
      - left. }
    cbv zeta. cbn [fst].
    match goal with
    | |- context [log_once _ ?l2] =>
        assert (H2 : log_once "get_auto_framework" l2 = (false, l2))
    end.
    { unfold log_once. rewrite bool_decide_eq_true_2; [reflexivity|].
      destruct first; assumption. }
    rewrite H2. reflexivity. }
  intros [t|] [f|] l; try reflexivity.
  - unfold get_auto_framework. apply Hkey.
  - unfold get_auto_framework. cbn [truthy negb]. apply Hkey.
Qed.

End FrameworkFacts.

(** ** python/ray/autoscaler/cli_logger.py *)

Module CliLoggerFacts.
Import Py PyFacts CliLogger.

Lemma no_LF_formatter_format (now level msg : string) :
  ~ In LF (list_ascii_of_string now) ->
  ~ In LF (list_ascii_of_string level) ->
  ~ In LF (list_ascii_of_string msg) ->
  ~ In LF (list_ascii_of_string (formatter_format now level msg)).
Proof.
  intros Hn Hl Hm. unfold formatter_format.
  apply no_LF_app; [no_LF_literal|].
  apply no_LF_app; [assumption|].
  apply no_LF_app; [no_LF_literal|].
  apply no_LF_app; [now apply no_LF_ljust6|].
  apply no_LF_app; [no_LF_literal|assumption].
Qed.

(** [_print] has three ways to end: the [ValueError], a silent return,
    or one write followed by a return of [None]. *)
Lemma _print_cases (self : _CliLogger) (w : World) (msg level : string)
    (linefeed : bool) :
  (py_in newline msg = true
   /\ _print self w msg level linefeed = (w, Raise (ValueError "NO")))
  \/ (py_in newline msg = false
      /\ non_interactive self = true /\ strip msg = ""
      /\ _print self w msg level linefeed = (w, Return PyNone))
  \/ (py_in newline msg = false
      /\ exists rendered : string,
           rendered = (if non_interactive self
                       then formatter_format (asctime w) level msg
                       else repeat_str "  " (indent_level self) ++ msg)
           /\ _print self w msg level linefeed
              = (stdout_write (if linefeed then rendered ++ newline else rendered) w,
                 Return PyNone)).
Proof.
  unfold _print. destruct (py_in newline msg) eqn:Hnl.
  - left. auto.
  - right. destruct (non_interactive self) eqn:Hni.
    + destruct (String.eqb (strip msg) "") eqn:Hblank.
      * left. apply String.eqb_eq in Hblank. auto.
      * right. split; [reflexivity|]. eexists. split; [reflexivity|].
        now destruct linefeed.
    + right. split; [reflexivity|]. eexists. split; [reflexivity|].
      now destruct linefeed.
Qed.

Lemma _print_result (self : _CliLogger) (w : World) (msg level : string)
    (linefeed : bool) :
  snd (_print self w msg level linefeed) = Return PyNone
  \/ snd (_print self w msg level linefeed) = Raise (ValueError "NO").
Proof.
  destruct (_print_cases self w msg level linefeed)
    as [[_ ->]|[(_ & _ & _ & ->)|(_ & r & _ & ->)]]; simpl; auto.
Qed.

Lemma as_statement_result (r : World * Res PyVal) :
  snd (as_statement r) = Return PyNone
  \/ exists e, snd (as_statement r) = Raise e.
Proof. destruct r as [w [v|e]]; simpl; eauto. Qed.

Section WithColorful.
Context `{Colorful}.

Lemma print_result (self : _CliLogger) (w : World) (msg : PyVal)
    (args : list PyVal) (level : string) (kw : Kwargs) :
  snd (print self w msg args level kw) = Return PyNone
  \/ exists e, snd (print self w msg args level kw) = Raise e.
Proof.
  unfold print. destruct (_format_msg msg args kw) as [s|e].
  - apply as_statement_result.
  - right. now exists e.
Qed.

End WithColorful.

(** C7. Every rendering operation of the logger ([print], [error],
    [warning], [success], [panic], [labeled_value] and the five [old_*]
    entry points), on every logger state and every argument list, either
    raises or returns [None]: no other value ever comes back. *)
Theorem render_returns_None `{Colorful} :
  forall (self : _CliLogger) (w : World) (c : RenderCall),
    snd (render self w c) = Return PyNone
    \/ exists e : PyExc, snd (render self w c) = Raise e.
Proof.
  intros self w c. destruct c; simpl;
    unfold error, warning, success, panic, labeled_value,
           old_debug, old_info, old_warning, old_error, old_exception;
    try apply print_result; try apply as_statement_result;
    try (left; reflexivity).
  destruct (_format_msg _ _ _) as [s|e].
  - apply as_statement_result.
  - right. now exists e.
Qed.

(** The operations do return: a plain message on a fresh interactive
    logger is written on one line and [None] comes back. *)
Lemma render_error_example :
  @render plain_colorful (initial_logger 0) {| stdout := ""; asctime := "" |}
          (call_error "boom" [] no_kwargs)
  = ({| stdout := "boom" ++ newline; asctime := "" |}, Return PyNone).
Proof. reflexivity. Qed.

(** C9. [_print(msg)] raises exactly when [msg] holds a line feed, and
    what it raises is [ValueError]; without a line feed it returns
    [None] after writing at most once, the message on a single line
    (given that the level name and the clock text hold no line feed in
    non-interactive mode). *)
Theorem _print_raises_iff_newline :
  forall (self : _CliLogger) (w : World) (msg level : string) (linefeed : bool),
    ((exists e, snd (_print self w msg level linefeed) = Raise e)
     <-> In LF (list_ascii_of_string msg))
    /\ (In LF (list_ascii_of_string msg) ->
        _print self w msg level linefeed = (w, Raise (ValueError "NO")))
    /\ (~ In LF (list_ascii_of_string msg) ->
        snd (_print self w msg level linefeed) = Return PyNone
        /\ exists rendered : string,
             (fst (_print self w msg level linefeed) = w
              \/ fst (_print self w msg level linefeed)
                 = stdout_write (if linefeed then rendered ++ newline
                                 else rendered) w)
             /\ (non_interactive self = false ->
                 rendered = repeat_str "  " (indent_level self) ++ msg)
             /\ (~ In LF (list_ascii_of_string level) ->
                 ~ In LF (list_ascii_of_string (asctime w)) ->
                 ~ In LF (list_ascii_of_string rendered))).
Proof.
  intros self w msg level linefeed.
  pose proof (_print_cases self w msg level linefeed) as Hc.
  assert (Hraise : In LF (list_ascii_of_string msg) ->
                   _print self w msg level linefeed = (w, Raise (ValueError "NO"))).
  { intros Hin. apply py_in_newline in Hin.
    destruct Hc as [[_ ?]|[(Hf & _)|(Hf & _)]]; [assumption|congruence|congruence]. }
  split; [|split]; [|exact Hraise|].
  - split.
    + intros [e He].
      destruct Hc as [[Hin _]|[(_ & _ & _ & Heq)|(_ & r & _ & Heq)]].
      * now apply py_in_newline.
      * rewrite Heq in He. discriminate He.
      * rewrite Heq in He. discriminate He.
    + intros Hin. rewrite (Hraise Hin). simpl. eauto.
  - intros Hno. pose proof Hno as Hno'. apply py_in_newline_false in Hno'.
    destruct Hc as [[Hin _]|[(_ & Hni & _ & Heq)|(_ & r & Hr & Heq)]].
    + congruence.
    + rewrite Heq. simpl. split; [reflexivity|].
      exists (formatter_format (asctime w) level msg). split; [now left|].
      split; [congruence|].
      intros Hl Ha. now apply no_LF_formatter_format.
    + rewrite Heq. simpl. split; [reflexivity|].
      exists r. split; [now right|]. split.
      * intros Hni. now rewrite Hni in Hr.
      * intros Hl Ha. subst r. destruct (non_interactive self).
        -- now apply no_LF_formatter_format.
        -- apply no_LF_app; [|assumption]. apply no_LF_repeat_str.
           no_LF_literal.
Qed.

Import IndentedContextManager.

Lemma block_run_indent (evs : list BlockEvent) :
  forall self : _CliLogger,
    block_run self evs
    = set_indent_level self (indent_level self + depth_change evs).
Proof.
  unfold block_run.
  induction evs as [|ev evs IH]; intros self; simpl.
  - destruct self; unfold set_indent_level; simpl. f_equal. lia.
  - rewrite IH. destruct ev; destruct self; unfold set_indent_level; simpl;
      f_equal; lia.
Qed.

(** C10. Entering the context manager of [indented()] adds exactly one
    to [indent_level], leaving it subtracts exactly one, also when the
    block leaves by an exception (which goes on to the caller); neither
    touches another attribute of the logger, so a balanced run of
    enters and exits leaves the logger as it was. *)
Theorem indented_enter_exit_balanced :
  forall (self : _CliLogger),
    __enter__ self = (set_indent_level self (indent_level self + 1), PyNone)
    /\ (forall exc, __exit__ self exc
                    = (set_indent_level self (indent_level self - 1), PyNone))
    /\ (forall n,
          indent_level (set_indent_level self n) = n
          /\ _non_interactive (set_indent_level self n) = _non_interactive self
          /\ _non_interactive_mode (set_indent_level self n)
             = _non_interactive_mode self
          /\ _color_mode (set_indent_level self n) = _color_mode self
          /\ _verbosity (set_indent_level self n) = _verbosity self
          /\ _autodetected_cf_colormode (set_indent_level self n)
             = _autodetected_cf_colormode self)
    /\ (forall exc, fst (__exit__ (fst (__enter__ self)) exc) = self)
    /\ (forall body w,
          with_indented body self w
          = (let '(inside, w', r) := body (fst (__enter__ self)) w in
             (set_indent_level inside (indent_level inside - 1), w', r)))
    /\ (forall evs, depth_change evs = 0 -> block_run self evs = self).
Proof.
  intros self. repeat split.
  - intros exc. destruct self; cbv [__enter__ __exit__ set_indent_level fst indent_level
      _non_interactive _non_interactive_mode _color_mode _verbosity
      _autodetected_cf_colormode]. f_equal. lia.
  - intros body w. unfold with_indented. simpl.
    destruct (body _ w) as [[inside w'] [[]|e]]; reflexivity.
  - intros evs Hz. rewrite block_run_indent, Hz.
    destruct self; unfold set_indent_level; simpl. f_equal. lia.
Qed.

(** A block that raises still leaves the indentation as it found it. *)
Lemma with_indented_raise_example :
  with_indented (fun l w => (l, w, Raise (ValueError "NO")))
                (initial_logger 0) {| stdout := ""; asctime := "" |}
  = (initial_logger 0, {| stdout := ""; asctime := "" |},
     Raise (ValueError "NO")).
Proof. reflexivity. Qed.







(** The text [_format_msg] makes of the number three and two more values. *)
Lemma _format_msg_of_non_str_example :
  @_format_msg plain_colorful (PyInt 3) [PyNone; PyBool true] no_kwargs
  = Return "3, None, True".
Proof. vm_compute. reflexivity. Qed.

(** X3. On an interactive logger [print] writes one line: two spaces per
    level of indentation, the formatted message, a line feed. *)
Theorem print_writes_indented_line `{Colorful} :
  forall (self : _CliLogger) (w : World) (msg : PyVal) (args : list PyVal)
         (level : string) (kw : Kwargs) (s : string),
    non_interactive self = false ->
    _format_msg msg args kw = Return s ->
    ~ In LF (list_ascii_of_string s) ->
    print self w msg args level kw
    = (stdout_write (repeat_str "  " (indent_level self) ++ s ++ newline) w,
       Return PyNone)
    /\ String.length (repeat_str "  " (indent_level self))
       = (2 * Z.to_nat (indent_level self))%nat.
Proof.
  intros self w msg args level kw s Hni Hfmt Hno.
  apply py_in_newline_false in Hno. split.
  - unfold print. rewrite Hfmt. unfold _print. rewrite Hno, Hni. simpl.
    now rewrite append_assoc.
  - apply length_indent.
Qed.

Lemma print_writes_indented_line_witness :
  @print plain_colorful (set_indent_level (initial_logger 0) 2)
         {| stdout := ""; asctime := "" |} (PyStr "done") [] INFO no_kwargs
  = (stdout_write (repeat_str "  " 2 ++ "done" ++ newline)
                  {| stdout := ""; asctime := "" |},
     Return PyNone)
  /\ String.length (repeat_str "  " 2) = (2 * Z.to_nat 2)%nat.
Proof.
  apply (@print_writes_indented_line plain_colorful
           (set_indent_level (initial_logger 0) 2)).
  - reflexivity.
  - reflexivity.
  - cbn; intuition discriminate.
Defined.

End CliLoggerFacts.

(** ** The object-lifetime core: the ownership table *)

Module CoreFacts.
Import Core Ownership.

Local Open Scope nat_scope.
Local Open Scope list_scope.

(** *** Lists updated by index *)

Lemma remove_first_other {A : Type} `{EqDecision A} (x y : A) (l : list A) :
  x <> y -> (y ∈ remove_first x l <-> y ∈ l).
Proof.
  intros Hne. induction l as [|z l IH]; simpl; [reflexivity|].
  destruct (decide (x = z)) as [<-|Hz].
  - rewrite elem_of_cons. split; [auto | intros [?|?]; [congruence | assumption]].
  - rewrite !elem_of_cons, IH. reflexivity.
Qed.

Lemma remove_first_length {A : Type} `{EqDecision A} (x : A) (l : list A) :
  length (remove_first x l) <= length l.
Proof.
  induction l as [|z l IH]; simpl; [lia|].
  destruct (decide (x = z)); simpl; lia.
Qed.

Lemma remove_first_subset {A : Type} `{EqDecision A} (x y : A) (l : list A) :
  y ∈ remove_first x l -> y ∈ l.
Proof.
  induction l as [|z l IH]; simpl; [auto|].
  destruct (decide (x = z)); rewrite ?elem_of_cons; intuition.
Qed.

(** A fold of [alter] over a list of indices applies the function at each
    index as many times as the index occurs. *)
Lemma fold_alter_lookup (f : Obj -> Obj) (bs : list nat) :
  forall (os : list Obj) (j : nat),
    fold_left (fun acc b => alter f b acc) bs os !! j
    = Nat.iter (count_occ Nat.eq_dec bs j) f <$> os !! j.
Proof.
  induction bs as [|b bs IH]; intros os j; simpl.
  - now destruct (os !! j).
  - rewrite IH, list_lookup_alter.
    destruct (Nat.eq_dec b j) as [->|Hne].
    + rewrite decide_True by reflexivity.
      destruct (os !! j) as [o|]; simpl; [|reflexivity].
      now rewrite Nat.iter_swap.
    + now rewrite decide_False by assumption.
Qed.

Lemma fold_alter_length (f : Obj -> Obj) (bs : list nat) :
  forall os : list Obj,
    length (fold_left (fun acc b => alter f b acc) bs os) = length os.
Proof.
  induction bs as [|b bs IH]; intros os; simpl; [reflexivity|].
  now rewrite IH, length_alter.
Qed.

Lemma count_occ_zero (bs : list nat) (j : nat) :
  j ∉ bs -> count_occ Nat.eq_dec bs j = 0.
Proof. rewrite list_elem_of_In. apply count_occ_not_In. Qed.

Lemma count_occ_pos (bs : list nat) (j : nat) :
  j ∈ bs -> 0 < count_occ Nat.eq_dec bs j.
Proof. rewrite list_elem_of_In. apply count_occ_In. Qed.

(** *** What changing pins leaves alone *)

Lemma iter_drop_pin (p : Pin) (k : nat) (o : Obj) :
  same_but_pins o (Nat.iter k (drop_pin p) o)
  /\ (forall x, x <> p ->
        (x ∈ pins (Nat.iter k (drop_pin p) o) <-> x ∈ pins o))
  /\ length (pins (Nat.iter k (drop_pin p) o)) <= length (pins o).
Proof.
  induction k as [|k (Hs & Hx & Hl)]; simpl.
  - repeat split; auto.
  - destruct Hs as (? & ? & ? & ? & ?).
    split; [repeat split; assumption|]. split.
    + intros x Hne. rewrite <- (Hx x Hne). apply remove_first_other. congruence.
    + etransitivity; [apply remove_first_length | exact Hl].
Qed.

Lemma iter_add_pin (p : Pin) (k : nat) (o : Obj) :
  same_but_pins o (Nat.iter k (add_pin p) o)
  /\ pins (Nat.iter k (add_pin p) o) = replicate k p ++ pins o.
Proof.
  induction k as [|k (Hs & Hp)]; simpl.
  - repeat split; auto.
  - destruct Hs as (? & ? & ? & ? & ?).
    split; [repeat split; assumption|]. now rewrite Hp.
Qed.

Lemma refcount_le_of_pins (o o' : Obj) :
  handles o' = handles o -> length (pins o') <= length (pins o) ->
  refcount o' <= refcount o.
Proof. unfold refcount. intros -> ?. lia. Qed.

(** *** The payload and the owner of an object never change *)

Lemma extends_refl (os : list Obj) : extends os os.
Proof. intros j o Ho. exists o. auto. Qed.

Lemma extends_trans (os1 os2 os3 : list Obj) :
  extends os1 os2 -> extends os2 os3 -> extends os1 os3.
Proof.
  intros H12 H23 j o Ho.
  destruct (H12 j o Ho) as (o2 & Ho2 & E1 & E2 & E3).
  destruct (H23 j o2 Ho2) as (o3 & Ho3 & F1 & F2 & F3).
  exists o3. repeat split; congruence.
Qed.

Lemma keeps_payload_iter (f : Obj -> Obj) (k : nat) :
  keeps_payload f -> keeps_payload (Nat.iter k f).
Proof.
  intros Hf. induction k as [|k IH]; intros o; simpl; [auto|].
  destruct (Hf (Nat.iter k f o)) as (-> & -> & ->). apply IH.
Qed.

Lemma keeps_payload_add_pin (p : Pin) : keeps_payload (add_pin p).
Proof. intros o. auto. Qed.

Lemma keeps_payload_drop_pin (p : Pin) : keeps_payload (drop_pin p).
Proof. intros o. auto. Qed.

Lemma keeps_payload_evict_entry : keeps_payload evict_entry.
Proof. intros o. unfold evict_entry. destruct (state o); auto. Qed.

Lemma extends_fold_alter (f : Obj -> Obj) (bs : list nat) (os : list Obj) :
  keeps_payload f ->
  extends os (fold_left (fun acc b => alter f b acc) bs os).
Proof.
  intros Hf j o Ho. rewrite fold_alter_lookup, Ho. simpl.
  eexists. split; [reflexivity|]. now apply keeps_payload_iter.
Qed.

Lemma extends_alter (f : Obj -> Obj) (i : nat) (os : list Obj) :
  keeps_payload f -> extends os (alter f i os).
Proof.
  intros Hf j o Ho. rewrite list_lookup_alter.
  destruct (decide (i = j)) as [->|]; [|eauto 10].
  rewrite Ho. simpl. eexists. split; [reflexivity|]. apply Hf.
Qed.

Lemma extends_fmap (f : Obj -> Obj) (os : list Obj) :
  keeps_payload f -> extends os (f <$> os).
Proof.
  intros Hf j o Ho. rewrite list_lookup_fmap, Ho. simpl.
  eexists. split; [reflexivity|]. apply Hf.
Qed.

Lemma extends_insert (i : nat) (o o' : Obj) (os : list Obj) :
  os !! i = Some o ->
  owner o' = owner o -> size_bytes o' = size_bytes o -> nested o' = nested o ->
  extends os (<[i := o']> os).
Proof.
  intros Hi E1 E2 E3 j oj Hj. rewrite list_lookup_insert.
  destruct (decide (i = j /\ i < length os)) as [[-> _]|_]; [|eauto 10].
  exists o'. rewrite Hi in Hj. inversion Hj; subst. auto.
Qed.

Lemma extends_app (os : list Obj) (o : Obj) : extends os (os ++ [o]).
Proof.
  intros j oj Hj. exists oj. split; [|auto].
  now apply lookup_app_l_Some.
Qed.

Lemma release_nested_lookup (c : ObjId) (bs : list ObjId) (os : list Obj) (j : nat) :
  release_nested c bs os !! j
  = Nat.iter (count_occ Nat.eq_dec bs j) (drop_pin (NestedPin c)) <$> os !! j.
Proof. apply fold_alter_lookup. Qed.

Lemma release_nested_length (c : ObjId) (bs : list ObjId) (os : list Obj) :
  length (release_nested c bs os) = length os.
Proof. apply fold_alter_length. Qed.

Lemma extends_settle (d : list ProcId) (i : nat) (os : list Obj) :
  extends os (settle d i os).
Proof.
  unfold settle. destruct (os !! i) as [o|] eqn:Hi; [|apply extends_refl].
  destruct (state o); try apply extends_refl.
  destruct (bool_decide (owner o ∈ d)).
  - eapply extends_trans; [eapply (extends_insert i o (with_state o LOST)); eauto|].
    apply extends_fold_alter, keeps_payload_drop_pin.
  - destruct (refcount o =? 0); [|apply extends_refl].
    eapply extends_trans;
      [eapply (extends_insert i o (with_state o PENDING_EVICTION)); eauto|].
    apply extends_fold_alter, keeps_payload_drop_pin.
Qed.

Lemma extends_sweep (d : list ProcId) (n : nat) :
  forall os : list Obj, extends os (sweep d n os).
Proof.
  induction n as [|n IH]; intros os; simpl; [apply extends_refl|].
  eapply extends_trans; [apply extends_settle | apply IH].
Qed.

Lemma evict_entry_idempotent (o : Obj) :
  evict_entry (evict_entry o) = evict_entry o.
Proof. unfold evict_entry. destruct o as [? ? ? ? ? []]; reflexivity. Qed.

Lemma evict_all_idempotent (s : Cluster) : evict_all (evict_all s) = evict_all s.
Proof.
  unfold evict_all, with_objs. simpl. f_equal.
  rewrite map_map. apply map_ext. apply evict_entry_idempotent.
Qed.

(** However many attempts [make_room] makes, the cluster it leaves is the
    one it found or that one after a single eviction attempt. *)
Lemma make_room_cases (n : nat) (need : N) :
  forall s : Cluster,
    fst (make_room n need s) = s \/ fst (make_room n need s) = evict_all s.
Proof.
  induction n as [|n IH]; intros s; simpl.
  - destruct (_ <=? _)%N; auto.
  - destruct (_ <=? _)%N; [auto|].
    destruct (IH (evict_all s)) as [->| ->]; [auto|].
    right. apply evict_all_idempotent.
Qed.

Lemma extends_make_room (n : nat) (need : N) (s : Cluster) :
  extends (objs s) (objs (fst (make_room n need s))).
Proof.
  destruct (make_room_cases n need s) as [->| ->]; [apply extends_refl|].
  apply (extends_fmap evict_entry), keeps_payload_evict_entry.
Qed.

Lemma extends_register (o : Obj) (s : Cluster) :
  extends (objs s) (objs (fst (register o s))).
Proof.
  unfold register. simpl.
  eapply extends_trans; [apply extends_app|].
  apply extends_fold_alter, keeps_payload_add_pin.
Qed.

Lemma extends_settle_all (s : Cluster) : extends (objs s) (objs (settle_all s)).
Proof. apply extends_sweep. Qed.

Lemma extends_put (p : ProcId) (pl : Payload) (s : Cluster) :
  extends (objs s) (objs (fst (put p pl s))).
Proof.
  unfold put. destruct (negb (alive p s)); [apply extends_refl|].
  destruct (negb (forallb _ _)); [apply extends_refl|].
  pose proof (extends_make_room (object_store_full_max_retries s)
                                (payload_bytes pl) s) as Hm.
  destruct (make_room _ _ s) as [s1 []]; simpl in *; [|exact Hm].
  eapply extends_trans; [exact Hm|].
  apply (extends_register (mkObj p (payload_bytes pl) (embedded pl) [p] [] ACTIVE)).
Qed.

Lemma extends_add_local_ref (p : ProcId) (id : ObjId) (s : Cluster) :
  extends (objs s) (objs (fst (add_local_ref p id s))).
Proof.
  unfold add_local_ref. destruct (negb (alive p s)); [apply extends_refl|].
  destruct (objs s !! id) as [o|] eqn:Ho; [|apply extends_refl].
  destruct (state o); try apply extends_refl.
  simpl. now apply (extends_insert id o).
Qed.

Lemma extends_remove_local_ref (p : ProcId) (id : ObjId) (s : Cluster) :
  extends (objs s) (objs (fst (remove_local_ref p id s))).
Proof.
  unfold remove_local_ref.
  destruct (objs s !! id) as [o|] eqn:Ho; [|apply extends_refl].
  destruct (bool_decide (p ∈ handles o)); [|apply extends_refl].
  simpl. eapply extends_trans; [|apply extends_sweep].
  simpl. now apply (extends_insert id o).
Qed.

Lemma extends_submit (p : ProcId) (arg_ids : list ObjId) (r : nat) (s : Cluster) :
  extends (objs s) (objs (fst (submit p arg_ids r s))).
Proof.
  unfold submit. destruct (negb (alive p s)); [apply extends_refl|].
  destruct (negb (forallb _ _)); [apply extends_refl|].
  simpl. apply extends_fold_alter, keeps_payload_add_pin.
Qed.

Lemma extends_on_executor_crash (t : TaskId) (s : Cluster) :
  extends (objs s) (objs (on_executor_crash t s)).
Proof.
  unfold on_executor_crash.
  destruct (tasks s !! t) as [tk|]; [|apply extends_refl].
  destruct (outcome tk); try apply extends_refl.
  destruct (attempts tk <? max_retries tk); [apply extends_refl|].
  eapply extends_trans; [|apply extends_sweep].
  simpl. apply extends_fold_alter, keeps_payload_drop_pin.
Qed.

Lemma extends_kill (p : ProcId) (s : Cluster) : extends (objs s) (objs (kill p s)).
Proof. apply extends_sweep. Qed.

(** [on_success] when it goes through: the cluster it leaves, step by
    step. *)
Lemma on_success_Ok (t : TaskId) (e : ProcId) (pl : Payload) (s s' : Cluster)
    (id : ObjId) :
  on_success t e pl s = (s', Ok id) ->
  exists (tk : Task) (s1 : Cluster),
    tasks s !! t = Some tk /\ outcome tk = Pending
    /\ alive e s = true /\ forallb (holds e s) (embedded pl) = true
    /\ make_room (object_store_full_max_retries s) (payload_bytes pl) s
       = (s1, true)
    /\ id = length (objs s1)
    /\ s' = settle_all
              (with_tasks
                 (with_objs (fst (register (mkObj e (payload_bytes pl) (embedded pl)
                                                  [submitter tk] [] ACTIVE) s1))
                    (release_task_refs t (args tk)
                       (objs (fst (register (mkObj e (payload_bytes pl) (embedded pl)
                                                   [submitter tk] [] ACTIVE) s1)))))
                 (<[t := set_outcome tk (Succeeded id)]>
                    (tasks (fst (register (mkObj e (payload_bytes pl) (embedded pl)
                                                 [submitter tk] [] ACTIVE) s1))))).
Proof.
  unfold on_success. intros H.
  destruct (tasks s !! t) as [tk|]; [|discriminate H].
  destruct (outcome tk) eqn:Hout; try discriminate H.
  destruct (alive e s) eqn:Ha; simpl in H; [|discriminate H].
  destruct (forallb (holds e s) (embedded pl)) eqn:Hh; simpl in H; [|discriminate H].
  destruct (make_room _ _ s) as [s1 []] eqn:Hm; [|discriminate H].
  unfold register in *. simpl in *. inversion H; subst.
  exists tk, s1. repeat split; auto.
Qed.

Lemma extends_on_success (t : TaskId) (e : ProcId) (pl : Payload) (s : Cluster) :
  extends (objs s) (objs (fst (on_success t e pl s))).
Proof.
  destruct (on_success t e pl s) as [s' r] eqn:H.
  destruct r as [id| |].
  - apply on_success_Ok in H as (tk & s1 & _ & _ & _ & _ & Hm & _ & ->).
    simpl.
    eapply extends_trans; [|apply extends_sweep]. simpl.
    eapply extends_trans; [|apply extends_fold_alter, keeps_payload_drop_pin].
    eapply extends_trans; [|apply (extends_fold_alter _ _ _ (keeps_payload_add_pin _))].
    eapply extends_trans; [|apply extends_app].
    replace s1 with (fst (make_room (object_store_full_max_retries s)
                                    (payload_bytes pl) s)) by now rewrite Hm.
    apply extends_make_room.
  - revert H. unfold on_success.
    destruct (tasks s !! t) as [tk|]; [|intros [= <- _]; apply extends_refl].
    destruct (outcome tk); try (intros [= <- _]; apply extends_refl).
    destruct (negb (alive e s)); [intros [= <- _]; apply extends_refl|].
    destruct (negb (forallb _ _)); [intros [= <- _]; apply extends_refl|].
    pose proof (extends_make_room (object_store_full_max_retries s)
                                  (payload_bytes pl) s) as Hm.
    destruct (make_room _ _ s) as [s1 []]; [discriminate|].
    intros [= <- _]. exact Hm.
  - revert H. unfold on_success.
    destruct (tasks s !! t) as [tk|]; [|discriminate].
    destruct (outcome tk); try discriminate.
    destruct (negb (alive e s)); [discriminate|].
    destruct (negb (forallb _ _)); [discriminate|].
    destruct (make_room _ _ s) as [s1 []]; discriminate.
Qed.

(** No operation changes the owner, the size or the embedded references
    of an object, and none removes an object from the table. *)
Lemma extends_step (s : Cluster) (op : Op) : extends (objs s) (objs (step s op)).
Proof.
  destruct op; simpl.
  - apply extends_put.
  - apply extends_add_local_ref.
  - apply extends_remove_local_ref.
  - apply extends_alter, keeps_payload_evict_entry.
  - apply extends_submit.
  - apply extends_on_success.
  - apply extends_on_executor_crash.
  - apply extends_kill.
  - apply extends_refl.
Qed.

Lemma extends_run (ops : list Op) :
  forall s : Cluster, extends (objs s) (objs (run s ops)).
Proof.
  unfold run. induction ops as [|op ops IH]; intros s; simpl.
  - apply extends_refl.
  - eapply extends_trans; [apply extends_step | apply IH].
Qed.

(** *** The invariant of the ownership table *)

(** [PreInv] carries over to a table whose entries relate one by one to
    those of the old one. *)
Lemma preinv_pointwise (d d' : list ProcId) (os os' : list Obj) :
  PreInv d os ->
  (forall j, is_Some (os !! j) -> is_Some (os' !! j)) ->
  (forall j o',
      os' !! j = Some o' ->
      exists o,
        os !! j = Some o /\ nested o' = nested o
        /\ (state o' = ACTIVE -> state o = ACTIVE)
        /\ (state o' <> ACTIVE ->
            (state o <> ACTIVE -> refcount o = 0 \/ owner o ∈ d) ->
            refcount o' = 0 \/ owner o' ∈ d')
        /\ (forall a oa',
              NestedPin a ∈ pins o -> os' !! a = Some oa' ->
              state oa' = ACTIVE -> NestedPin a ∈ pins o')) ->
  PreInv d' os'.
Proof.
  intros (H1 & H2 & H4) Htot Hpt. repeat split.
  - intros i o' b Hi Hb.
    destruct (Hpt i o' Hi) as (o & Ho & Hn & _).
    rewrite Hn in Hb. eauto.
  - intros i o' b Hi Hact Hb.
    destruct (Hpt i o' Hi) as (o & Ho & Hn & Hs & _).
    rewrite Hn in Hb.
    destruct (H2 i o b Ho (Hs Hact) Hb) as (ob & Hob & Hpin).
    destruct (Htot b) as [ob' Hob']; [eauto|].
    destruct (Hpt b ob' Hob') as (ob0 & Hob0 & _ & _ & _ & Hpins).
    rewrite Hob in Hob0. inversion Hob0; subst ob0.
    exists ob'. split; [assumption|]. eauto.
  - intros i o' Hi Hna.
    destruct (Hpt i o' Hi) as (o & Ho & _ & _ & H4' & _).
    apply H4'; [assumption|]. intros Hno. eauto.
Qed.

(** The cluster table right after object [i] left the active state. *)
Lemma transition_lookup (i : nat) (o : Obj) (st' : ObjState) (os : list Obj)
    (j : nat) :
  os !! i = Some o ->
  release_nested i (nested o) (<[i := with_state o st']> os) !! j
  = Nat.iter (count_occ Nat.eq_dec (nested o) j) (drop_pin (NestedPin i))
      <$> (if decide (i = j) then Some (with_state o st') else os !! j).
Proof.
  intros Hi. rewrite release_nested_lookup, list_lookup_insert.
  pose proof (lookup_lt_Some _ _ _ Hi) as Hlt.
  destruct (decide (i = j)) as [->|Hne].
  - now rewrite decide_True by auto.
  - rewrite decide_False; [reflexivity | intros [? _]; contradiction].
Qed.

Lemma transition_preinv (d : list ProcId) (i : nat) (o : Obj) (st' : ObjState)
    (os : list Obj) :
  PreInv d os -> os !! i = Some o -> st' <> ACTIVE ->
  (refcount o = 0 \/ owner o ∈ d) ->
  PreInv d (release_nested i (nested o) (<[i := with_state o st']> os)).
Proof.
  intros HP Hi Hst Hdoomed.
  apply (preinv_pointwise d d os); [assumption| |].
  - intros j [oj Hj]. rewrite (transition_lookup i o st' os j Hi).
    destruct (decide (i = j)); [eauto | rewrite Hj; eauto].
  - intros j o' Hj'. rewrite (transition_lookup i o st' os j Hi) in Hj'.
    set (k := count_occ Nat.eq_dec (nested o) j) in *.
    destruct (decide (i = j)) as [<-|Hne]; simpl in Hj'.
    + inversion Hj'; subst o'. clear Hj'.
      destruct (iter_drop_pin (NestedPin i) k (with_state o st'))
        as ((Eo & _ & En & Eh & Es) & Hx & Hl).
      exists o. simpl in *. split; [assumption|]. split; [assumption|].
      split; [congruence|]. split.
      * intros _ _. destruct Hdoomed as [Hz|Hd]; [left|right; congruence].
        pose proof (refcount_le_of_pins (with_state o st') _ Eh Hl) as Hle.
        unfold refcount in *. simpl in *. lia.
      * intros a oa' Hpin Ha Hact. apply Hx; [|assumption].
        intros [= ->]. rewrite (transition_lookup i o st' os i Hi) in Ha.
        rewrite decide_True in Ha by reflexivity. simpl in Ha.
        inversion Ha; subst oa'.
        destruct (iter_drop_pin (NestedPin i)
                    (count_occ Nat.eq_dec (nested o) i) (with_state o st'))
          as ((_ & _ & _ & _ & Es') & _ & _).
        simpl in Es'. congruence.
    + destruct (os !! j) as [oj|] eqn:Hj; [|discriminate Hj'].
      simpl in Hj'. inversion Hj'; subst o'. clear Hj'.
      destruct (iter_drop_pin (NestedPin i) k oj)
        as ((Eo & _ & En & Eh & Es) & Hx & Hl).
      exists oj. split; [reflexivity|]. split; [assumption|].
      split; [congruence|]. split.
      * intros Hna H4. rewrite Es in Hna. destruct (H4 Hna) as [Hz|Hd].
        -- left. pose proof (refcount_le_of_pins oj _ Eh Hl). lia.
        -- right. congruence.
      * intros a oa' Hpin Ha Hact. apply Hx; [|assumption].
        intros [= ->]. rewrite (transition_lookup i o st' os i Hi) in Ha.
        rewrite decide_True in Ha by reflexivity. simpl in Ha.
        inversion Ha; subst oa'.
        destruct (iter_drop_pin (NestedPin i)
                    (count_occ Nat.eq_dec (nested o) i) (with_state o st'))
          as ((_ & _ & _ & _ & Es') & _ & _).
        simpl in Es'. congruence.
Qed.

Lemma transition_above (i : nat) (o : Obj) (st' : ObjState) (os : list Obj)
    (j : nat) :
  J1 os -> os !! i = Some o -> i < j ->
  release_nested i (nested o) (<[i := with_state o st']> os) !! j = os !! j.
Proof.
  intros H1 Hi Hlt. rewrite (transition_lookup i o st' os j Hi).
  rewrite decide_False by lia.
  rewrite count_occ_zero; [now destruct (os !! j)|].
  intros Hin. pose proof (H1 i o j Hi Hin). lia.
Qed.

Lemma transition_settled (d : list ProcId) (i : nat) (o : Obj) (st' : ObjState)
    (os : list Obj) :
  os !! i = Some o -> st' <> ACTIVE ->
  settled d (release_nested i (nested o) (<[i := with_state o st']> os)) i.
Proof.
  intros Hi Hst o' Ho' Hact.
  rewrite (transition_lookup i o st' os i Hi) in Ho'.
  rewrite decide_True in Ho' by reflexivity. simpl in Ho'.
  inversion Ho'; subst o'.
  destruct (iter_drop_pin (NestedPin i)
              (count_occ Nat.eq_dec (nested o) i) (with_state o st'))
    as ((_ & _ & _ & _ & Es') & _ & _).
  simpl in Es'. congruence.
Qed.

Lemma settle_spec (d : list ProcId) (i : nat) (os : list Obj) :
  PreInv d os ->
  PreInv d (settle d i os)
  /\ length (settle d i os) = length os
  /\ settled d (settle d i os) i
  /\ (forall j, i < j -> settle d i os !! j = os !! j).
Proof.
  intros HP. unfold settle.
  destruct (os !! i) as [o|] eqn:Hi.
  2:{ split; [assumption|]. split; [reflexivity|]. split; [|reflexivity].
      intros o Ho. congruence. }
  destruct (state o) eqn:Hst;
    try (split; [assumption|]; split; [reflexivity|]; split; [|reflexivity];
         intros o' Ho' Hact; congruence).
  destruct (bool_decide (owner o ∈ d)) eqn:Hd.
  - apply bool_decide_eq_true in Hd. split; [|split; [|split]].
    + apply transition_preinv; auto; discriminate.
    + now rewrite release_nested_length, length_insert.
    + apply transition_settled; [assumption | discriminate].
    + intros j Hj. apply transition_above; auto. apply HP.
  - apply bool_decide_eq_false in Hd.
    destruct (refcount o =? 0) eqn:Hz.
    + apply Nat.eqb_eq in Hz. split; [|split; [|split]].
      * apply transition_preinv; auto; discriminate.
      * now rewrite release_nested_length, length_insert.
      * apply transition_settled; [assumption | discriminate].
      * intros j Hj. apply transition_above; auto. apply HP.
    + apply Nat.eqb_neq in Hz.
      split; [assumption|]. split; [reflexivity|]. split; [|reflexivity].
      intros o' Ho' _. assert (o' = o) by congruence. subst. split; [lia|assumption].
Qed.

Lemma sweep_spec (d : list ProcId) (n : nat) :
  forall os : list Obj,
    PreInv d os -> (forall j, n <= j -> settled d os j) ->
    PreInv d (sweep d n os) /\ J3 d (sweep d n os)
    /\ length (sweep d n os) = length os.
Proof.
  induction n as [|n IH]; intros os HP Hset; simpl.
  - split; [assumption|]. split; [|reflexivity].
    intros i o Ho Hact. apply (Hset i); [lia|assumption..].
  - destruct (settle_spec d n os HP) as (HP' & Hlen & Hn & Habove).
    destruct (IH (settle d n os) HP') as (HP'' & H3 & Hlen').
    + intros j Hj. destruct (decide (j = n)) as [->|Hne]; [assumption|].
      intros o Ho. rewrite Habove in Ho by lia. apply (Hset j); [lia|assumption].
    + split; [assumption|]. split; [assumption|]. congruence.
Qed.

Lemma settle_all_inv (s : Cluster) :
  PreInv (dead s) (objs s) -> Inv (settle_all s).
Proof.
  intros HP.
  destruct (sweep_spec (dead s) (length (objs s)) (objs s) HP) as (HP' & H3 & _).
  - intros j Hj o Ho. apply lookup_lt_Some in Ho. lia.
  - split; assumption.
Qed.

(** Entries that only gain references, or move from [PENDING_EVICTION] to
    [EVICTED]: the invariant stays. *)
Lemma inv_pointwise_grow (d : list ProcId) (os os' : list Obj) :
  (forall j, is_Some (os !! j) -> is_Some (os' !! j)) ->
  (forall j o',
      os' !! j = Some o' ->
      exists o,
        os !! j = Some o /\ nested o' = nested o /\ owner o' = owner o
        /\ (state o' = ACTIVE <-> state o = ACTIVE)
        /\ (forall x, x ∈ pins o -> x ∈ pins o')
        /\ refcount o <= refcount o'
        /\ (state o <> ACTIVE -> refcount o = 0 -> refcount o' = 0)) ->
  PreInv d os /\ J3 d os -> PreInv d os' /\ J3 d os'.
Proof.
  intros Htot Hpt [HP H3]. split.
  - apply (preinv_pointwise d d os); [assumption..|].
    intros j o' Hj.
    destruct (Hpt j o' Hj) as (o & Ho & En & Eo & Es & Hpins & Hle & Hz).
    exists o. split; [assumption|]. split; [assumption|].
    split; [apply Es|]. split; [|eauto].
    intros Hna H4. destruct H4 as [Hc|Hd]; [tauto| |right; congruence].
    left. apply Hz; tauto.
  - intros j o' Hj Hact.
    destruct (Hpt j o' Hj) as (o & Ho & En & Eo & Es & Hpins & Hle & Hz).
    destruct (H3 j o Ho) as [Hc Hd]; [tauto|].
    split; [lia | congruence].
Qed.

(** Entries that only lose references, and processes that only die:
    [PreInv] stays. *)
Lemma preinv_pointwise_shrink (d d' : list ProcId) (os os' : list Obj) :
  (forall p, p ∈ d -> p ∈ d') ->
  (forall j, is_Some (os !! j) -> is_Some (os' !! j)) ->
  (forall j o',
      os' !! j = Some o' ->
      exists o,
        os !! j = Some o /\ nested o' = nested o /\ owner o' = owner o
        /\ state o' = state o
        /\ (forall a, NestedPin a ∈ pins o -> NestedPin a ∈ pins o')
        /\ refcount o' <= refcount o) ->
  PreInv d os -> PreInv d' os'.
Proof.
  intros Hd Htot Hpt HP.
  apply (preinv_pointwise d d' os); [assumption..|].
  intros j o' Hj.
  destruct (Hpt j o' Hj) as (o & Ho & En & Eo & Es & Hpins & Hle).
  exists o. split; [assumption|]. split; [assumption|].
  split; [congruence|]. split; [|eauto].
  intros Hna H4. rewrite Es in Hna. destruct (H4 Hna) as [Hz|Hin].
  - left. lia.
  - right. rewrite Eo. auto.
Qed.

Lemma inv_empty (capacity : N) (retries : nat) : Inv (empty_cluster capacity retries).
Proof.
  split; [split; [|split]|]; red; simpl; intros *; rewrite lookup_nil; discriminate.
Qed.

Lemma evict_entry_fields (o : Obj) :
  nested (evict_entry o) = nested o /\ owner (evict_entry o) = owner o
  /\ handles (evict_entry o) = handles o /\ pins (evict_entry o) = pins o
  /\ (state (evict_entry o) = ACTIVE <-> state o = ACTIVE)
  /\ refcount (evict_entry o) = refcount o.
Proof.
  unfold evict_entry. destruct o as [? ? ? ? ? []]; simpl;
    repeat split; auto; discriminate.
Qed.

Lemma inv_evict_all (s : Cluster) : Inv s -> Inv (evict_all s).
Proof.
  unfold Inv. simpl. apply inv_pointwise_grow.
  - intros j [o Ho]. rewrite list_lookup_fmap, Ho. simpl. eauto.
  - intros j o'. rewrite list_lookup_fmap.
    destruct (objs s !! j) as [o|]; simpl; [|discriminate].
    intros [= <-]. exists o.
    destruct (evict_entry_fields o) as (? & ? & _ & Hp & ? & Hr).
    rewrite Hp, Hr. repeat split; auto; tauto.
Qed.

Lemma inv_evict (id : ObjId) (s : Cluster) : Inv s -> Inv (evict id s).
Proof.
  unfold Inv. simpl. apply inv_pointwise_grow.
  - intros j [o Ho]. rewrite list_lookup_alter.
    destruct (decide (id = j)) as [->|]; [rewrite Ho|]; simpl; eauto.
  - intros j o'. rewrite list_lookup_alter.
    destruct (decide (id = j)) as [->|].
    + destruct (objs s !! j) as [o|]; simpl; [|discriminate].
      intros [= <-]. exists o.
      destruct (evict_entry_fields o) as (? & ? & _ & Hp & ? & Hr).
      rewrite Hp, Hr. repeat split; auto; tauto.
    + intros Ho. exists o'. repeat split; auto.
Qed.

Lemma inv_make_room (n : nat) (need : N) (s : Cluster) :
  Inv s -> Inv (fst (make_room n need s)).
Proof.
  intros HI. destruct (make_room_cases n need s) as [->| ->];
    [assumption | now apply inv_evict_all].
Qed.

Lemma make_room_fields (n : nat) (need : N) (s : Cluster) :
  dead (fst (make_room n need s)) = dead s
  /\ tasks (fst (make_room n need s)) = tasks s
  /\ length (objs (fst (make_room n need s))) = length (objs s)
  /\ forall p id, holds p (fst (make_room n need s)) id = holds p s id.
Proof.
  destruct (make_room_cases n need s) as [->| ->]; [auto|].
  simpl. split; [reflexivity|]. split; [reflexivity|].
  split; [apply length_map|].
  intros p id. unfold holds, evict_all. simpl. rewrite list_lookup_fmap.
  destruct (objs s !! id) as [o|]; simpl; [|reflexivity].
  now destruct (evict_entry_fields o) as (_ & _ & -> & _).
Qed.

Lemma holds_true (p : ProcId) (s : Cluster) (id : ObjId) :
  holds p s id = true -> exists o, objs s !! id = Some o /\ p ∈ handles o.
Proof.
  unfold holds. destruct (objs s !! id) as [o|]; [|discriminate].
  intros H. apply bool_decide_eq_true in H. eauto.
Qed.

Lemma forallb_holds (p : ProcId) (s : Cluster) (ids : list ObjId) (b : ObjId) :
  forallb (holds p s) ids = true -> b ∈ ids ->
  exists o, objs s !! b = Some o /\ p ∈ handles o.
Proof.
  intros H Hb. apply holds_true.
  rewrite forallb_forall in H. apply H. now apply list_elem_of_In.
Qed.

Lemma refcount_pos_of_handle (p : ProcId) (o : Obj) :
  p ∈ handles o -> 0 < refcount o.
Proof.
  unfold refcount. destruct (handles o); [intros H; inversion H | simpl; lia].
Qed.

Lemma register_lookup (o : Obj) (s : Cluster) (j : nat) :
  objs (fst (register o s)) !! j
  = Nat.iter (count_occ Nat.eq_dec (nested o) j)
             (add_pin (NestedPin (length (objs s))))
      <$> (objs s ++ [o]) !! j.
Proof. unfold register. simpl. apply fold_alter_lookup. Qed.

(** A new object whose creator holds every reference it embeds. *)
Lemma inv_register (o : Obj) (s : Cluster) :
  Inv s ->
  (forall b, b ∈ nested o ->
     exists ob, objs s !! b = Some ob /\ 0 < length (handles ob)) ->
  state o = ACTIVE -> 0 < refcount o -> owner o ∉ dead s ->
  Inv (fst (register o s)).
Proof.
  intros [(H1 & H2 & H4) H3] Hheld Hact Hcnt Halive.
  set (n := length (objs s)).
  assert (Hnew : forall b, b ∈ nested o -> b < n).
  { intros b Hb. destruct (Hheld b Hb) as (ob & Hob & _).
    now apply lookup_lt_Some in Hob. }
  assert (Hold : forall j oj, objs s !! j = Some oj ->
            objs (fst (register o s)) !! j
            = Some (Nat.iter (count_occ Nat.eq_dec (nested o) j)
                             (add_pin (NestedPin n)) oj)).
  { intros j oj Hj. rewrite register_lookup.
    now rewrite (lookup_app_l_Some _ _ _ _ Hj). }
  assert (Hlast : objs (fst (register o s)) !! n = Some o).
  { rewrite register_lookup. rewrite count_occ_zero.
    - unfold n. rewrite lookup_app_r by lia. rewrite Nat.sub_diag. reflexivity.
    - intros Hin. apply Hnew in Hin. lia. }
  assert (Hcases : forall j o', objs (fst (register o s)) !! j = Some o' ->
            (exists oj, objs s !! j = Some oj
                        /\ o' = Nat.iter (count_occ Nat.eq_dec (nested o) j)
                                         (add_pin (NestedPin n)) oj)
            \/ (j = n /\ o' = o)).
  { intros j o' Hj. destruct (objs s !! j) as [oj|] eqn:Hoj.
    - left. exists oj. rewrite (Hold j oj Hoj) in Hj. inversion Hj. auto.
    - right. apply lookup_ge_None in Hoj.
      destruct (decide (j = n)) as [->|Hne].
      + rewrite Hlast in Hj. inversion Hj. auto.
      + rewrite register_lookup in Hj.
        rewrite lookup_ge_None_2 in Hj; [discriminate|].
        rewrite length_app. simpl. fold n. lia. }
  split; [split; [|split]|].
  - intros j o' b Hj Hb. destruct (Hcases j o' Hj) as [(oj & Hoj & ->)|[-> ->]].
    + destruct (iter_add_pin (NestedPin n) (count_occ Nat.eq_dec (nested o) j) oj)
        as ((_ & _ & En & _) & _).
      rewrite En in Hb. eauto.
    + auto.
  - intros j o' b Hj Hs Hb. destruct (Hcases j o' Hj) as [(oj & Hoj & ->)|[-> ->]].
    + destruct (iter_add_pin (NestedPin n) (count_occ Nat.eq_dec (nested o) j) oj)
        as ((_ & _ & En & _ & Es) & _).
      rewrite En in Hb. rewrite Es in Hs.
      destruct (H2 j oj b Hoj Hs Hb) as (ob & Hob & Hpin).
      eexists. split; [apply (Hold b ob Hob)|].
      destruct (iter_add_pin (NestedPin n) (count_occ Nat.eq_dec (nested o) b) ob)
        as (_ & ->).
      apply elem_of_app. now right.
    + destruct (Hheld b Hb) as (ob & Hob & _).
      eexists. split; [apply (Hold b ob Hob)|].
      destruct (iter_add_pin (NestedPin n) (count_occ Nat.eq_dec (nested o) b) ob)
        as (_ & ->).
      apply elem_of_app. left.
      pose proof (count_occ_pos (nested o) b Hb) as Hpos.
      destruct (count_occ Nat.eq_dec (nested o) b); [lia|]. simpl. left.
  - intros j o' Hj Hna. destruct (Hcases j o' Hj) as [(oj & Hoj & ->)|[-> ->]];
      [|contradiction].
    destruct (iter_add_pin (NestedPin n) (count_occ Nat.eq_dec (nested o) j) oj)
      as ((Eo & _ & _ & Eh & Es) & Ep).
    rewrite Es in Hna.
    destruct (H4 j oj Hoj Hna) as [Hz|Hd]; [|right; simpl; rewrite Eo; exact Hd].
    left. destruct (decide (j ∈ nested o)) as [Hin|Hnin].
    + destruct (Hheld j Hin) as (ob & Hob & Hh).
      assert (ob = oj) by congruence. subst ob.
      unfold refcount in Hz. lia.
    + rewrite (count_occ_zero _ _ Hnin). simpl. assumption.
  - intros j o' Hj Hs. destruct (Hcases j o' Hj) as [(oj & Hoj & ->)|[-> ->]].
    + destruct (iter_add_pin (NestedPin n) (count_occ Nat.eq_dec (nested o) j) oj)
        as ((Eo & _ & _ & Eh & Es) & Ep).
      rewrite Es in Hs. destruct (H3 j oj Hoj Hs) as [Hc Hd].
      split; [|simpl; congruence].
      unfold refcount in *. rewrite Eh, Ep, length_app. lia.
    + auto.
Qed.

Lemma alive_true (p : ProcId) (s : Cluster) : alive p s = true -> p ∉ dead s.
Proof.
  unfold alive. intros H. apply negb_true_iff, bool_decide_eq_false in H. exact H.
Qed.

Lemma forallb_holds_ext (p : ProcId) (s s1 : Cluster) (ids : list ObjId) :
  (forall id, holds p s1 id = holds p s id) ->
  forallb (holds p s1) ids = forallb (holds p s) ids.
Proof.
  intros Hext. induction ids as [|id ids IH]; simpl; [reflexivity|].
  now rewrite Hext, IH.
Qed.

Lemma inv_put (p : ProcId) (pl : Payload) (s : Cluster) :
  Inv s -> Inv (fst (put p pl s)).
Proof.
  intros HI. unfold put.
  destruct (alive p s) eqn:Ha; simpl; [|assumption].
  destruct (forallb (holds p s) (embedded pl)) eqn:Hh; simpl; [|assumption].
  pose proof (inv_make_room (object_store_full_max_retries s) (payload_bytes pl) s HI)
    as HI1.
  destruct (make_room_fields (object_store_full_max_retries s) (payload_bytes pl) s)
    as (Hd & _ & _ & Hholds).
  destruct (make_room _ _ s) as [s1 []]; simpl in *; [|assumption].
  apply (inv_register (mkObj p (payload_bytes pl) (embedded pl) [p] [] ACTIVE) s1);
    [exact HI1 | | reflexivity | |]; simpl.
  - intros b Hb.
    assert (Hall : forallb (holds p s1) (embedded pl) = true).
    { rewrite <- Hh. apply forallb_holds_ext, Hholds. }
    destruct (forallb_holds p s1 (embedded pl) b Hall Hb) as (ob & Hob & Hin).
    exists ob. split; [assumption|].
    destruct (handles ob); [inversion Hin | simpl; lia].
  - unfold refcount. simpl. lia.
  - rewrite Hd. now apply alive_true.
Qed.

Lemma inv_add_local_ref (p : ProcId) (id : ObjId) (s : Cluster) :
  Inv s -> Inv (fst (add_local_ref p id s)).
Proof.
  intros HI. unfold add_local_ref.
  destruct (negb (alive p s)); [assumption|].
  destruct (objs s !! id) as [o|] eqn:Ho; [|assumption].
  destruct (state o) eqn:Hst; try assumption.
  unfold Inv. simpl. revert HI. apply inv_pointwise_grow.
  - intros j Hj. rewrite list_lookup_insert.
    destruct (decide (id = j /\ id < length (objs s))); eauto.
  - intros j o'. rewrite list_lookup_insert.
    destruct (decide (id = j /\ id < length (objs s))) as [[<- _]|_].
    + intros [= <-]. exists o. split; [assumption|]. simpl.
      repeat split; auto; try congruence.
      unfold refcount. simpl. lia.
    + intros Hj. exists o'. repeat split; auto.
Qed.

Lemma inv_submit (p : ProcId) (arg_ids : list ObjId) (r : nat) (s : Cluster) :
  Inv s -> Inv (fst (submit p arg_ids r s)).
Proof.
  intros HI. unfold submit.
  destruct (negb (alive p s)); [assumption|].
  destruct (forallb (holds p s) arg_ids) eqn:Hh; simpl; [|assumption].
  unfold Inv. simpl. revert HI. unfold add_task_refs. apply inv_pointwise_grow.
  - intros j [o Ho]. rewrite fold_alter_lookup, Ho. simpl. eauto.
  - intros j o'. rewrite fold_alter_lookup.
    destruct (objs s !! j) as [o|] eqn:Ho; simpl; [|discriminate].
    intros [= <-]. exists o. split; [reflexivity|].
    destruct (iter_add_pin (TaskPin (length (tasks s)))
                (count_occ Nat.eq_dec arg_ids j) o)
      as ((Eo & _ & En & Eh & Es) & Ep).
    split; [assumption|]. split; [assumption|].
    split; [now rewrite Es|]. split; [|split].
    + intros x Hx. rewrite Ep. apply elem_of_app. now right.
    + unfold refcount. rewrite Eh, Ep, length_app. lia.
    + intros _ Hz. destruct (decide (j ∈ arg_ids)) as [Hin|Hnin].
      * destruct (forallb_holds p s arg_ids j Hh Hin) as (oj & Hoj & Hp).
        assert (oj = o) by congruence. subst oj.
        pose proof (refcount_pos_of_handle p o Hp). lia.
      * now rewrite (count_occ_zero _ _ Hnin).
Qed.

Lemma preinv_release_task_refs (d : list ProcId) (t : TaskId)
    (ids : list ObjId) (os : list Obj) :
  PreInv d os -> PreInv d (release_task_refs t ids os).
Proof.
  unfold release_task_refs. apply preinv_pointwise_shrink; [auto| |].
  - intros j [o Ho]. rewrite fold_alter_lookup, Ho. simpl. eauto.
  - intros j o'. rewrite fold_alter_lookup.
    destruct (os !! j) as [o|]; simpl; [|discriminate].
    intros [= <-]. exists o. split; [reflexivity|].
    destruct (iter_drop_pin (TaskPin t) (count_occ Nat.eq_dec ids j) o)
      as ((Eo & _ & En & Eh & Es) & Hx & Hl).
    repeat split; auto.
    + intros a Ha. apply Hx; [discriminate | assumption].
    + now apply refcount_le_of_pins.
Qed.

Lemma inv_remove_local_ref (p : ProcId) (id : ObjId) (s : Cluster) :
  Inv s -> Inv (fst (remove_local_ref p id s)).
Proof.
  intros HI. unfold remove_local_ref.
  destruct (objs s !! id) as [o|] eqn:Ho; [|assumption].
  destruct (bool_decide (p ∈ handles o)); [|assumption].
  simpl. apply settle_all_inv. simpl.
  destruct HI as [HP _]. revert HP. apply preinv_pointwise_shrink; [auto| |].
  - intros j Hj. rewrite list_lookup_insert.
    destruct (decide (id = j /\ id < length (objs s))); eauto.
  - intros j o'. rewrite list_lookup_insert.
    destruct (decide (id = j /\ id < length (objs s))) as [[<- _]|_].
    + intros [= <-]. exists o. split; [assumption|]. simpl.
      repeat split; auto.
      unfold refcount. simpl. pose proof (remove_first_length p (handles o)). lia.
    + intros Hj. exists o'. repeat split; auto.
Qed.

Lemma inv_on_executor_crash (t : TaskId) (s : Cluster) :
  Inv s -> Inv (on_executor_crash t s).
Proof.
  intros HI. unfold on_executor_crash.
  destruct (tasks s !! t) as [tk|]; [|assumption].
  destruct (outcome tk); try assumption.
  destruct (attempts tk <? max_retries tk); [exact HI|].
  apply settle_all_inv. simpl. apply preinv_release_task_refs, HI.
Qed.

Lemma inv_kill (p : ProcId) (s : Cluster) : Inv s -> Inv (kill p s).
Proof.
  intros [HP _]. unfold kill. apply settle_all_inv. simpl.
  revert HP. apply preinv_pointwise_shrink.
  - intros q Hq. now right.
  - auto.
  - intros j o' Hj. exists o'. repeat split; auto.
Qed.

Lemma inv_on_success (t : TaskId) (e : ProcId) (pl : Payload) (s : Cluster) :
  Inv s -> Inv (fst (on_success t e pl s)).
Proof.
  intros HI. destruct (on_success t e pl s) as [s' r] eqn:H.
  destruct r as [id| |]; simpl.
  - apply on_success_Ok in H as (tk & s1 & _ & _ & Ha & Hh & Hm & _ & ->).
    apply settle_all_inv. simpl.
    apply preinv_release_task_refs.
    pose proof (inv_make_room (object_store_full_max_retries s) (payload_bytes pl) s HI)
      as HI1.
    destruct (make_room_fields (object_store_full_max_retries s) (payload_bytes pl) s)
      as (Hd & _ & _ & Hholds).
    rewrite Hm in HI1, Hd, Hholds. simpl in *.
    assert (HI2 : Inv (fst (register (mkObj e (payload_bytes pl) (embedded pl)
                                            [submitter tk] [] ACTIVE) s1))).
    { apply inv_register; [exact HI1 | | reflexivity | |]; simpl.
      - intros b Hb.
        assert (Hall : forallb (holds e s1) (embedded pl) = true).
        { rewrite <- Hh. apply forallb_holds_ext, Hholds. }
        destruct (forallb_holds e s1 (embedded pl) b Hall Hb) as (ob & Hob & Hin).
        exists ob. split; [assumption|].
        destruct (handles ob); [inversion Hin | simpl; lia].
      - unfold refcount. simpl. lia.
      - rewrite Hd. now apply alive_true. }
    apply HI2.
  - revert H. unfold on_success.
    destruct (tasks s !! t) as [tk|]; [|now intros [= <- _]].
    destruct (outcome tk); try now intros [= <- _].
    destruct (negb (alive e s)); [now intros [= <- _]|].
    destruct (negb (forallb _ _)); [now intros [= <- _]|].
    pose proof (inv_make_room (object_store_full_max_retries s) (payload_bytes pl) s HI)
      as HI1.
    destruct (make_room _ _ s) as [s1 []]; [discriminate|].
    now intros [= <- _].
  - revert H. unfold on_success.
    destruct (tasks s !! t) as [tk|]; [|discriminate].
    destruct (outcome tk); try discriminate.
    destruct (negb (alive e s)); [discriminate|].
    destruct (negb (forallb _ _)); [discriminate|].
    destruct (make_room _ _ s) as [s1 []]; discriminate.
Qed.

(** Every operation and event keeps the invariant. *)
Lemma inv_step (s : Cluster) (op : Op) : Inv s -> Inv (step s op).
Proof.
  intros HI. destruct op; simpl.
  - now apply inv_put.
  - now apply inv_add_local_ref.
  - now apply inv_remove_local_ref.
  - now apply inv_evict.
  - now apply inv_submit.
  - now apply inv_on_success.
  - now apply inv_on_executor_crash.
  - now apply inv_kill.
  - exact HI.
Qed.

Lemma inv_run (ops : list Op) : forall s : Cluster, Inv s -> Inv (run s ops).
Proof.
  unfold run. induction ops as [|op ops IH]; intros s HI; simpl; [assumption|].
  apply IH, inv_step, HI.
Qed.

Lemma inv_reachable (capacity : N) (retries : nat) (ops : list Op) :
  Inv (run (empty_cluster capacity retries) ops).
Proof. apply inv_run, inv_empty. Qed.

(** In a cluster that satisfies the invariant the data of an object is
    there exactly when its count is above zero and its owner is alive. *)
Lemma active_iff_counted (s : Cluster) (id : ObjId) (o : Obj) :
  Inv s -> objs s !! id = Some o ->
  (state o = ACTIVE <-> 0 < refcount o /\ owner o ∉ dead s).
Proof.
  intros [(_ & _ & H4) H3] Ho. split.
  - intros Hact. eauto.
  - intros [Hc Hd]. destruct (decide (state o = ACTIVE)) as [|Hna]; [assumption|].
    destruct (H4 id o Ho Hna); [lia | contradiction].
Qed.

(** *** The task lifecycle *)

(** A crash that leaves retries keeps every pin: only the attempt count of
    the task changes. *)
Lemma crash_with_retries_left (t : TaskId) (tk : Task) (s : Cluster) :
  tasks s !! t = Some tk -> outcome tk = Pending ->
  attempts tk < max_retries tk ->
  on_executor_crash t s = with_tasks s (<[t := retry tk]> (tasks s)).
Proof.
  intros Ht Hout Hlt. unfold on_executor_crash. rewrite Ht, Hout.
  apply Nat.ltb_lt in Hlt. now rewrite Hlt.
Qed.

(** The crash that exhausts the retries makes [WorkerError] the result of
    the task. *)
Lemma crash_exhausts_retries (t : TaskId) (tk : Task) (s : Cluster) :
  tasks s !! t = Some tk -> outcome tk = Pending ->
  max_retries tk <= attempts tk ->
  poll (on_executor_crash t s) (OfTask t) = Gone WorkerError.
Proof.
  intros Ht Hout Hle. unfold on_executor_crash. rewrite Ht, Hout.
  apply Nat.ltb_ge in Hle. rewrite Hle. simpl.
  rewrite list_lookup_insert_eq by (now apply lookup_lt_Some in Ht).
  reflexivity.
Qed.

(** A task that reached its outcome is not touched by a later crash: its
    pins are not released a second time. *)
Lemma crash_after_outcome (t : TaskId) (tk : Task) (s : Cluster) :
  tasks s !! t = Some tk -> outcome tk <> Pending ->
  on_executor_crash t s = s.
Proof.
  intros Ht Hout. unfold on_executor_crash. rewrite Ht.
  now destruct (outcome tk).
Qed.

(** *** What [put] and [get] keep *)


Lemma get_keeps_cluster (a : Awaited) (timeout : option nat) (s : Cluster) :
  fst (get a timeout s) = s.
Proof. reflexivity. Qed.

Lemma await_constant (a : Awaited) (timeout : option nat) (s : Cluster) :
  match timeout with
  | Some n => await a timeout (replicate (S n) s) = snd (get a timeout s)
  | None => forall k, snd (get a None s) <> Blocked ->
                      await a None (replicate (S k) s) = snd (get a None s)
  end.
Proof.
  destruct timeout as [n|].
  - unfold get. simpl snd. induction n as [|n IH].
    + simpl. now destruct (poll s a).
    + change (replicate (S (S n)) s) with (s :: replicate (S n) s).
      cbn [await]. destruct (poll s a) eqn:Hp; try reflexivity.
      rewrite IH. reflexivity.
  - intros k. unfold get. simpl. now destruct (poll s a).
Qed.

(** *** Waiting *)

Lemma await_times_out (a : Awaited) (n : nat) :
  forall trace : list Cluster,
    n < length trace ->
    waiting_throughout a n trace = true ->
    await a (Some n) trace = Raise TimeoutError.
Proof.
  unfold waiting_throughout.
  induction n as [|n IH]; intros [|s later] Hlen Hw; simpl in *; try lia.
  - apply andb_true_iff in Hw as [Hs _].
    destruct (poll s a); try discriminate Hs. reflexivity.
  - apply andb_true_iff in Hw as [Hs Hw].
    destruct (poll s a); try discriminate Hs.
    apply IH; [lia | exact Hw].
Qed.

End CoreFacts.

(** ** The scenarios of the tests, on the core *)

Module LifetimeLaws.
Import Core Ownership CoreFacts Scenario.

Local Open Scope nat_scope.
Local Open Scope list_scope.

(** Without eviction attempts ([object_store_full_max_retries] of 0) and
    with no [evict] delivered in time, the third 40 MiB put finds the
    store full: the puts of scenario A go through because a put may evict
    the zero-refcount entries. *)
Lemma fill_needs_eviction_attempts :
  map succeeded
      (snd (_fill_object_store [false; false; false; false; false]
              (fst (put driver array_40MiB (empty_cluster (100 * MiB) 0)))))
  = [true; false; false; false; false].
Proof. vm_compute. reflexivity. Qed.


(** The cluster of scenario B while the task is pending: the driver holds
    nothing, each wrapper pins what it wraps, the task pins the outermost
    wrapper only. *)
Lemma scenario_B_pending_pins :
  map handles (objs scenario_B_pending) = [[]; []; []; []; []; []]
  /\ map pins (objs scenario_B_pending)
     = [[NestedPin 1]; [NestedPin 2]; [NestedPin 3]; [NestedPin 4];
        [NestedPin 5]; [TaskPin pending_task]]
  /\ map nested (objs scenario_B_pending) = [[]; [0]; [1]; [2]; [3]; [4]].
Proof. vm_compute. auto. Qed.

(** C2. The recursive pin. In every cluster the core can reach, an object
    [A] that is reachable (its count is above zero, be it through a task
    pin alone, and its owner is alive) and embeds a reference to [B] holds
    a pin on [B], so the count of [B] is above zero and, as long as the
    owner of [B] is alive, [get] returns [B]. In scenario B (the array under five nested puts,
    the outermost wrapper pinned by the pending task alone) the array is
    returned by [get] while the task is pending, also after five 40 MiB
    puts and after a first crash of the executor; once the task has
    returned, or has crashed on its retry too, the array is no longer
    active and the next eviction attempt takes it out of the store. *)
Theorem recursive_pin_invariant :
  (forall (capacity : N) (retries : nat) (ops : list Op) (A B : ObjId) (oA : Obj),
      objs (run (empty_cluster capacity retries) ops) !! A = Some oA ->
      0 < refcount oA ->
      owner oA ∉ dead (run (empty_cluster capacity retries) ops) ->
      B ∈ nested oA ->
      exists oB,
        objs (run (empty_cluster capacity retries) ops) !! B = Some oB
        /\ NestedPin A ∈ pins oB /\ 0 < refcount oB
        /\ (owner oB ∉ dead (run (empty_cluster capacity retries) ops) ->
            poll (run (empty_cluster capacity retries) ops) (OfObject B)
            = Ready (mkPayload (size_bytes oB) (nested oB))))
  /\ state_of scenario_B_pending innermost = Some ACTIVE
  /\ (forall b1 b2 b3 b4 b5 : bool,
        map succeeded (snd (_fill_object_store [b1; b2; b3; b4; b5] scenario_B_pending))
        = [true; true; true; true; true]
        /\ snd (get (OfObject innermost) None
                    (fst (_fill_object_store [b1; b2; b3; b4; b5] scenario_B_pending)))
           = Ok array_40MiB
        /\ snd (get (OfObject innermost) None
                    (fst (_fill_object_store [b1; b2; b3; b4; b5]
                            (on_executor_crash pending_task scenario_B_pending))))
           = Ok array_40MiB)
  /\ state_of (task_returns scenario_B_pending) innermost = Some PENDING_EVICTION
  /\ state_of (task_crashes_twice scenario_B_pending) innermost
     = Some PENDING_EVICTION
  /\ state_of (evict_all (task_returns scenario_B_pending)) innermost = Some EVICTED
  /\ state_of (evict_all (task_crashes_twice scenario_B_pending)) innermost
     = Some EVICTED
  /\ (forall timeout : nat,
        snd (get (OfObject innermost) (Some timeout) (task_returns scenario_B_pending))
        = Raise TimeoutError
        /\ snd (get (OfObject innermost) (Some timeout)
                    (task_crashes_twice scenario_B_pending))
           = Raise TimeoutError).
Proof.
  split.
  { intros capacity retries ops A B oA HA Hcnt Hown HB.
    pose proof (inv_reachable capacity retries ops) as HI.
    set (s := run (empty_cluster capacity retries) ops) in *.
    assert (Hact : state oA = ACTIVE)
      by (apply (active_iff_counted s A oA HI HA); auto).
    destruct HI as [(H1 & H2 & H4) H3].
    destruct (H2 A oA B HA Hact HB) as (oB & HoB & Hpin).
    assert (Hcount : 0 < refcount oB).
    { unfold refcount. destruct (pins oB); [inversion Hpin | simpl; lia]. }
    exists oB. repeat split; try assumption.
    intros Halive. unfold poll, poll_object. rewrite HoB.
    destruct (decide (state oB = ACTIVE)) as [->|Hna]; [reflexivity|].
    destruct (H4 B oB HoB Hna); [lia | contradiction]. }
  split; [vm_compute; reflexivity|].
  split.
  { intros b1 b2 b3 b4 b5.
    repeat split; destruct b1, b2, b3, b4, b5; vm_compute; reflexivity. }
  repeat split; try (vm_compute; reflexivity).
Qed.

(** The pending task of scenario B ([max_retries=1]) under crashes: still
    pending after the first, failed with [WorkerError] after the second,
    its pin on the outermost wrapper released then, and untouched by a
    third. *)
Lemma scenario_B_crashes :
  poll (on_executor_crash pending_task scenario_B_pending) (OfTask pending_task)
  = Waiting
  /\ pins <$> objs (on_executor_crash pending_task scenario_B_pending) !! outermost
     = Some [TaskPin pending_task]
  /\ poll (task_crashes_twice scenario_B_pending) (OfTask pending_task)
     = Gone WorkerError
  /\ pins <$> objs (task_crashes_twice scenario_B_pending) !! outermost = Some []
  /\ on_executor_crash pending_task (task_crashes_twice scenario_B_pending)
     = task_crashes_twice scenario_B_pending.
Proof. vm_compute. auto. Qed.

Lemma scenario_B_pending_as_run :
  scenario_B_pending = run one_worker_100MiB scenario_B_ops.
Proof. vm_compute. reflexivity. Qed.

(** The recursive pin at work in scenario B: the first wrapper (object 1)
    is active and embeds the array (object 0), which it pins. *)
Lemma recursive_pin_invariant_witness :
  exists oB,
    objs (run (empty_cluster (100 * MiB) 2) scenario_B_ops) !! innermost = Some oB
    /\ NestedPin 1 ∈ pins oB /\ 0 < refcount oB
    /\ (owner oB ∉ dead (run (empty_cluster (100 * MiB) 2) scenario_B_ops) ->
        poll (run (empty_cluster (100 * MiB) 2) scenario_B_ops) (OfObject innermost)
        = Ready (mkPayload (size_bytes oB) (nested oB))).
Proof.
  refine (proj1 recursive_pin_invariant (100 * MiB)%N 2 scenario_B_ops 1 innermost
            (mkObj driver 1024 [0] [] [NestedPin 2] ACTIVE) _ _ _ _).
  - vm_compute. reflexivity.
  - unfold refcount. simpl. lia.
  - vm_compute. intros H. inversion H.
  - simpl. left.
Defined.

(** C5. The object a task returns is registered with the process that
    executed the task as its owner; no later operation or event changes
    that owner (nor the payload), whoever the reference is passed to and
    whichever task returns it again; and once that process is dead, [get]
    never returns the object again. *)
Theorem returned_object_owned_by_executor :
  forall (capacity : N) (retries : nat) (ops0 : list Op) (t : TaskId)
         (executor : ProcId) (pl : Payload) (s' : Cluster) (id : ObjId),
    on_success t executor pl (run (empty_cluster capacity retries) ops0)
    = (s', Ok id) ->
    (exists o, objs s' !! id = Some o /\ owner o = executor
               /\ size_bytes o = payload_bytes pl /\ nested o = embedded pl)
    /\ (forall ops : list Op,
          exists o, objs (run s' ops) !! id = Some o /\ owner o = executor
                    /\ size_bytes o = payload_bytes pl /\ nested o = embedded pl)
    /\ (forall (ops : list Op) (got : Payload),
          poll (kill executor (run s' ops)) (OfObject id) <> Ready got).
Proof.
  intros capacity retries ops0 t e pl s' id H.
  set (s0 := run (empty_cluster capacity retries) ops0) in *.
  assert (HI' : Inv s').
  { replace s' with (fst (on_success t e pl s0)) by now rewrite H.
    apply inv_on_success, inv_reachable. }
  assert (Hnew : exists o, objs s' !! id = Some o /\ owner o = e
                           /\ size_bytes o = payload_bytes pl
                           /\ nested o = embedded pl).
  { apply on_success_Ok in H as (tk & s1 & _ & _ & _ & _ & Hm & -> & ->).
    set (o := mkObj e (payload_bytes pl) (embedded pl) [submitter tk] [] ACTIVE).
    assert (Hreg : exists o1, objs (fst (register o s1)) !! length (objs s1) = Some o1
                              /\ owner o1 = e /\ size_bytes o1 = payload_bytes pl
                              /\ nested o1 = embedded pl).
    { rewrite register_lookup. rewrite lookup_app_r by lia.
      rewrite Nat.sub_diag. simpl. eexists. split; [reflexivity|].
      destruct (iter_add_pin (NestedPin (length (objs s1)))
                  (count_occ Nat.eq_dec (embedded pl) (length (objs s1))) o)
        as ((Eo & Ez & En & _) & _).
      auto. }
    destruct Hreg as (o1 & Ho1 & E1 & E2 & E3).
    assert (Hext : extends (objs (fst (register o s1)))
                     (sweep (dead s1)
                        (length (release_task_refs t (args tk)
                                   (objs (fst (register o s1)))))
                        (release_task_refs t (args tk) (objs (fst (register o s1)))))).
    { eapply extends_trans; [|apply extends_sweep].
      apply extends_fold_alter, keeps_payload_drop_pin. }
    destruct (Hext _ _ Ho1) as (o2 & Ho2 & F1 & F2 & F3).
    exists o2. simpl. split; [exact Ho2|]. repeat split; congruence. }
  split; [exact Hnew|].
  destruct Hnew as (o & Ho & E1 & E2 & E3).
  split.
  - intros ops. destruct (extends_run ops s' id o Ho) as (o' & Ho' & F1 & F2 & F3).
    exists o'. repeat split; congruence.
  - intros ops got.
    destruct (extends_run ops s' id o Ho) as (o' & Ho' & F1 & _).
    destruct (extends_kill e (run s' ops) id o' Ho') as (o'' & Ho'' & G1 & _).
    pose proof (inv_kill e _ (inv_run ops s' HI')) as [_ H3].
    unfold poll, poll_object. rewrite Ho''.
    destruct (state o'') eqn:Hst; try discriminate.
    destruct (H3 id o'' Ho'' Hst) as [_ Hd].
    exfalso. apply Hd. simpl. rewrite G1, F1, E1. left.
Qed.

(** A task of the driver returns from the worker: the object it returns
    (object 1) belongs to the worker, also after it went through a second
    task. *)
Lemma returned_object_owned_by_executor_witness :
  (exists o, objs (fst (on_success 0 worker (mkPayload 16 [])
                          (run (empty_cluster (100 * MiB) 2) task_submitted_ops)))
               !! 1 = Some o
             /\ owner o = worker /\ size_bytes o = 16%N /\ nested o = [])
  /\ (forall ops : list Op,
        exists o, objs (run (fst (on_success 0 worker (mkPayload 16 [])
                                    (run (empty_cluster (100 * MiB) 2)
                                         task_submitted_ops))) ops)
                    !! 1 = Some o
                  /\ owner o = worker /\ size_bytes o = 16%N /\ nested o = [])
  /\ (forall (ops : list Op) (got : Payload),
        poll (kill worker
                (run (fst (on_success 0 worker (mkPayload 16 [])
                             (run (empty_cluster (100 * MiB) 2) task_submitted_ops)))
                     ops))
             (OfObject 1)
        <> Ready got).
Proof.
  apply (returned_object_owned_by_executor (100 * MiB)%N 2 task_submitted_ops
           0 worker (mkPayload 16 [])).
  vm_compute. reflexivity.
Defined.

(** The chain of [pass_through_ops] really runs: the second task returns
    object 2, which embeds object 1. *)
Lemma pass_through_example :
  map (fun o => (owner o, nested o, state o))
      (objs (run (fst (on_success 0 worker (mkPayload 16 [])
                         (run one_worker_100MiB task_submitted_ops)))
                 pass_through_ops))
  = [(driver, [], ACTIVE); (worker, [], ACTIVE); (worker, [1], ACTIVE)].
Proof. vm_compute. reflexivity. Qed.

(** C6. A [get] with a finite timeout whose wait is still on when the
    timeout elapses (at every tick up to then the data is not there and
    nothing terminal is known) raises [TimeoutError] and nothing else;
    [TimeoutError] is not terminal; the call leaves the cluster, and with
    it every local handle, as it was; and the same [get] called again
    returns the data once it is there. *)
Theorem timed_get_raises_TimeoutError :
  forall (a : Awaited) (n : nat) (trace : list Cluster),
    n < length trace ->
    waiting_throughout a n trace = true ->
    await a (Some n) trace = Raise TimeoutError
    /\ terminal TimeoutError = false
    /\ (forall (s : Cluster) (timeout : option nat),
          fst (get a timeout s) = s
          /\ step s (OpGet a timeout) = s)
    /\ (forall (s : Cluster),
          poll s a = Waiting ->
          snd (get a (Some n) s) = Raise TimeoutError)
    /\ (forall (s : Cluster) (later : list Cluster) (pl : Payload) (m : nat),
          poll s a = Ready pl ->
          await a (Some m) (s :: later) = Ok pl
          /\ snd (get a (Some m) s) = Ok pl).
Proof.
  intros a n trace Hlen Hw.
  split; [now apply await_times_out|].
  split; [reflexivity|].
  split; [intros s timeout; split; reflexivity|].
  split.
  - intros s Hp. unfold get. simpl. now rewrite Hp.
  - intros s later pl m Hp. unfold get. simpl. rewrite Hp.
    destruct m; split; reflexivity.
Qed.

(** The object of scenario A after the driver dropped it: a [get] with a
    timeout of two ticks, on a cluster where nothing else happens, times
    out. *)
Lemma timed_get_raises_TimeoutError_witness :
  await (OfObject held) (Some 2)
        (replicate 3 (scenario_A_dropped [false; false; false; false; false]))
  = Raise TimeoutError.
Proof.
  refine (proj1 (timed_get_raises_TimeoutError (OfObject held) 2
                   (replicate 3 (scenario_A_dropped [false; false; false; false; false]))
                   _ _)).
  - simpl. lia.
  - vm_compute. reflexivity.
Defined.

End LifetimeLaws.

(** ** python/ray/tests/test_reference_counting_2.py *)

Module RefCountTestFacts.
Import RefCountTest.

(** C3, on the test. [test_recursively_nest_ids] with [failure] passes
    only when [ray.get] on the result of the task (declared with
    [max_retries=1], its executor leaving on every attempt) raises
    [UnreconstructableError]: a [RayWorkerError] there is not caught and
    fails the test. [test_pass_returned_object_id], whose task is declared
    with [max_retries=0], passes only on [RayWorkerError]. *)
Theorem test_recursively_nest_ids_expects_unreconstructable :
  (forall got : GetResult,
      test_recursively_nest_ids_tail true got = Passes
      <-> got = Raised UnreconstructableError)
  /\ test_recursively_nest_ids_tail true (Raised RayWorkerError)
     = ErrorEscapes RayWorkerError
  /\ kind_of UnreconstructableError = Core.LostError
  /\ kind_of UnreconstructableError <> Core.WorkerError
  /\ (forall got : GetResult,
        test_pass_returned_object_id_pending true got = Passes
        <-> got = Raised RayWorkerError).
Proof.
  split; [|split; [reflexivity|split; [reflexivity|split; [discriminate|]]]].
  - intros [|[]]; simpl; split; intros H; try discriminate H; reflexivity.
  - intros [|[]]; simpl; split; intros H; try discriminate H; reflexivity.
Qed.

End RefCountTestFacts.

(** ** More of Python *)

Module PyExtFacts.
Import Py PyFacts PyExt.

Lemma lower_char_idempotent (c : ascii) :
  lower_char (lower_char c) = lower_char c.
Proof. destruct c as [[] [] [] [] [] [] [] []]; reflexivity. Qed.

Lemma lower_idempotent (s : string) : lower (lower s) = lower s.
Proof.
  induction s as [|c s IH]; [reflexivity|].
  cbn [lower]. now rewrite lower_char_idempotent, IH.
Qed.

Lemma lower_char_LF (c : ascii) : lower_char c = LF -> c = LF.
Proof. destruct c as [[] [] [] [] [] [] [] []]; vm_compute; congruence. Qed.

Lemma no_LF_lower (s : string) :
  ~ In LF (list_ascii_of_string s) -> ~ In LF (list_ascii_of_string (lower s)).
Proof.
  induction s as [|c s IH]; [tauto|].
  cbn [lower list_ascii_of_string In]. intros Hs [Hc|Hin].
  - apply Hs. left. now apply lower_char_LF.
  - apply IH; [|assumption]. intros Hin'. apply Hs. now right.
Qed.

Lemma lower_app (a b : string) : lower (a ++ b) = lower a ++ lower b.
Proof.
  induction a as [|c a IH]; [reflexivity|].
  change (String (lower_char c) (lower (a ++ b))
          = String (lower_char c) (lower a ++ lower b)).
  now rewrite IH.
Qed.

Lemma no_LF_lstrip (s : string) :
  ~ In LF (list_ascii_of_string s) -> ~ In LF (list_ascii_of_string (lstrip s)).
Proof.
  induction s as [|c s IH]; [tauto|].
  cbn [lstrip]. destruct (is_space c); [|tauto].
  intros Hs. apply IH. intros Hin. apply Hs. now right.
Qed.

Lemma rev_app_acc (a b : string) :
  String.rev_app a b = String.rev a ++ b.
Proof.
  unfold String.rev. revert b.
  induction a as [|c a IH]; intros b; [reflexivity|].
  cbn [String.rev_app]. rewrite (IH (String c b)), (IH (String c "")).
  now rewrite append_assoc.
Qed.

Lemma rev_cons (c : ascii) (s : string) :
  String.rev (String c s) = String.rev s ++ String c "".
Proof. unfold String.rev at 1. cbn [String.rev_app]. apply rev_app_acc. Qed.

Lemma chars_rev (s : string) (c : ascii) :
  In c (list_ascii_of_string (String.rev s)) <-> In c (list_ascii_of_string s).
Proof.
  induction s as [|x s IH]; [tauto|].
  rewrite rev_cons, chars_app, in_app_iff, IH. simpl. tauto.
Qed.

Lemma no_LF_rev (s : string) :
  ~ In LF (list_ascii_of_string s) ->
  ~ In LF (list_ascii_of_string (String.rev s)).
Proof. now rewrite chars_rev. Qed.

Lemma no_LF_strip (s : string) :
  ~ In LF (list_ascii_of_string s) -> ~ In LF (list_ascii_of_string (strip s)).
Proof.
  intros Hs. unfold strip.
  now apply no_LF_rev, no_LF_lstrip, no_LF_rev, no_LF_lstrip.
Qed.

Lemma app_empty_r (s : string) : s ++ "" = s.
Proof.
  induction s as [|c s IH]; [reflexivity|].
  change (String c (s ++ "") = String c s). now rewrite IH.
Qed.

Lemma rev_app (a b : string) :
  String.rev (a ++ b) = String.rev b ++ String.rev a.
Proof.
  induction a as [|c a IH].
  - change (String.rev b = String.rev b ++ ""). now rewrite app_empty_r.
  - change (String.rev (String c (a ++ b))
            = String.rev b ++ String.rev (String c a)).
    rewrite !rev_cons, IH. apply append_assoc.
Qed.

Lemma lstrip_app (a b : string) :
  lstrip (a ++ b)
  = match lstrip a with
    | EmptyString => lstrip b
    | String c rest => String c rest ++ b
    end.
Proof.
  induction a as [|c a IH]; [reflexivity|].
  change (lstrip (String c (a ++ b))
          = match lstrip (String c a) with
            | EmptyString => lstrip b
            | String c0 rest => String c0 rest ++ b
            end).
  cbn [lstrip]. destruct (is_space c); [exact IH | reflexivity].
Qed.

(** A line as [readline] returns it, the line feed at its end or not
    there at all (the last line of the input), gives an answer without
    line feed once stripped. *)
Lemma no_LF_strip_line (body : string) :
  ~ In LF (list_ascii_of_string body) ->
  ~ In LF (list_ascii_of_string (strip (body ++ newline))).
Proof.
  intros Hb. unfold strip. rewrite lstrip_app.
  pose proof (no_LF_lstrip body Hb) as Hl.
  destruct (lstrip body) as [|c rest] eqn:E.
  - vm_compute. tauto.
  - rewrite rev_app.
    change (String.rev newline) with newline.
    change (newline ++ String.rev (String c rest))
      with (String LF (String.rev (String c rest))).
    cbn [lstrip].
    change (is_space LF) with true. cbn iota.
    now apply no_LF_rev, no_LF_lstrip, no_LF_rev.
Qed.

End PyExtFacts.

(** ** cli_logger.py: the settings of the logger *)

Module CliSettingsFacts.
Import Py PyFacts PyExt PyExtFacts CliLogger CliSettings.

Section WithColorModes.
Context `{ColorModes}.

Lemma detect_colors_false (self : _CliLogger) (t : Terminal) :
  color_mode self = "false" ->
  detect_colors self t = (cf_call disable t, Return PyNone).
Proof. unfold detect_colors. now intros ->. Qed.

Lemma color_mode_setter_false (self : _CliLogger) (t : Terminal) :
  color_mode_setter self t "false"
  = (set__color_mode self "false", cf_call disable t, Return PyNone).
Proof. reflexivity. Qed.

Lemma non_interactive_setter_true (self : _CliLogger) (t : Terminal) :
  non_interactive_setter self t true
  = (set__non_interactive
       (set__color_mode
          (if negb (String.eqb (_non_interactive_mode self) "auto")
           then set__non_interactive_mode self "true" else self) "false") true,
     cf_call disable t, Return PyNone).
Proof. reflexivity. Qed.

Lemma non_interactive_setter_false (self : _CliLogger) (t : Terminal) :
  non_interactive_setter self t false
  = (set__non_interactive
       (if negb (String.eqb (_non_interactive_mode self) "auto")
        then set__non_interactive_mode self "false" else self) false,
     t, Return PyNone).
Proof. reflexivity. Qed.

End WithColorModes.

Lemma eqb_cases (a b : string) :
  (String.eqb a b = true /\ a = b) \/ (String.eqb a b = false /\ a <> b).
Proof.
  destruct (String.eqb a b) eqn:E.
  - left. split; [reflexivity | now apply String.eqb_eq].
  - right. split; [reflexivity | now apply String.eqb_neq].
Qed.

(** X6. Assigning [color_mode] stores the lower-cased value before it is
    checked: the setter raises [ValueError] exactly when that value is
    none of "true", "false" and "auto", the rejected value stays in the
    attribute, [colorful] is then left alone, and the case of the letters
    makes no difference. *)
Theorem color_mode_setter_stores_then_validates `{ColorModes} :
  forall (self : _CliLogger) (t : Terminal) (x : string),
    color_mode_setter self t (lower x) = color_mode_setter self t x
    /\ let '(self', t', r) := color_mode_setter self t x in
       color_mode self' = lower x
       /\ (r = Return PyNone
           <-> lower x = "true" \/ lower x = "false" \/ lower x = "auto")
       /\ (r <> Return PyNone ->
           r = Raise (ValueError ("Invalid log color setting: " ++ lower x))
           /\ t' = t).
Proof.
  intros self t x. split.
  { unfold color_mode_setter. now rewrite lower_idempotent. }
  unfold color_mode_setter, detect_colors, color_mode.
  cbn [set__color_mode _color_mode _autodetected_cf_colormode].
  destruct (eqb_cases (lower x) "true") as [[-> E1]|[-> N1]].
  - destruct (negb (_autodetected_cf_colormode self =? NO_COLORS));
      (split; [reflexivity|]); (split; [tauto|]); congruence.
  - destruct (eqb_cases (lower x) "false") as [[-> E2]|[-> N2]].
    + split; [reflexivity|]. split; [tauto|]. congruence.
    + destruct (eqb_cases (lower x) "auto") as [[-> E3]|[-> N3]].
      * split; [reflexivity|]. split; [tauto|]. congruence.
      * split; [reflexivity|]. split; [|auto].
        split; [discriminate | tauto].
Qed.

Section Setters.
Context `{ColorModes}.

Lemma mode_agrees_assign (self : _CliLogger) (t : Terminal) (a : Assignment) :
  mode_agrees self -> mode_agrees (fst (fst (assign self t a))).
Proof.
  intros [Ht Hf]. destruct a as [x|x|x|x]; cbn [assign].
  - unfold non_interactive_mode_setter, non_interactive_mode.
    cbn [set__non_interactive_mode _non_interactive_mode].
    destruct (eqb_cases (lower x) "auto") as [[-> E1]|[-> N1]].
    + destruct (negb (stdin_isatty t));
        [rewrite non_interactive_setter_true | rewrite non_interactive_setter_false];
        cbn; rewrite E1; cbn; split; discriminate.
    + destruct (eqb_cases (lower x) "false") as [[-> E2]|[-> N2]].
      * rewrite non_interactive_setter_false. cbn. rewrite E2. cbn.
        split; [discriminate | reflexivity].
      * destruct (eqb_cases (lower x) "true") as [[-> E3]|[-> N3]].
        -- rewrite non_interactive_setter_true. cbn. rewrite E3. cbn.
           split; [reflexivity | discriminate].
        -- cbn. split; intros; contradiction.
  - destruct x;
      [rewrite non_interactive_setter_true | rewrite non_interactive_setter_false];
      cbn; unfold non_interactive_mode, non_interactive in *;
      destruct (eqb_cases (_non_interactive_mode self) "auto") as [[-> E]|[-> N]];
      cbn; try rewrite E; split; try discriminate; try reflexivity;
      cbn; rewrite E; discriminate.
  - unfold color_mode_setter.
    destruct (detect_colors (set__color_mode self (lower x)) t) as [t1 [v|e]];
      cbn; split; assumption.
  - cbn. split; assumption.
Qed.

Lemma mode_agrees_assign_all (script : list Assignment) :
  forall (self : _CliLogger) (t : Terminal),
    mode_agrees self -> mode_agrees (fst (assign_all self t script)).
Proof.
  induction script as [|a rest IH]; intros self t Hinv; [exact Hinv|].
  cbn [assign_all].
  pose proof (mode_agrees_assign self t a Hinv) as Hstep.
  destruct (assign self t a) as [[self1 t1] r]. now apply IH.
Qed.

End Setters.

(** X7. From the logger [__init__] builds, after any script of
    assignments to [non_interactive_mode], [non_interactive],
    [color_mode] and [verbosity], the ones that raise included, a mode
    of "true" or "false" agrees with the [non_interactive] flag. *)
Theorem assignments_keep_mode_and_flag_agreeing `{ColorModes} :
  forall (colormode : Z) (t : Terminal) (script : list Assignment),
    mode_agrees (fst (assign_all (initial_logger colormode) t script)).
Proof.
  intros colormode t script. apply mode_agrees_assign_all.
  split; discriminate.
Qed.

(** X8. Assigning [non_interactive_mode] never raises and stores the
    lower-cased mode. "true", or "auto" when standard input is no
    terminal, makes the logger non-interactive, which sets [color_mode]
    to "false", disables [colorful] and lifts [verbosity] to 999;
    "false", or "auto" on a terminal, makes it interactive and leaves
    the colors as they were; any other string is stored and changes
    nothing else. *)
Theorem non_interactive_mode_setter_cases `{ColorModes} :
  forall (self : _CliLogger) (t : Terminal) (x : string),
    exists (self' : _CliLogger) (t' : Terminal),
      non_interactive_mode_setter self t x = (self', t', Return PyNone)
      /\ non_interactive_mode self' = lower x
      /\ indent_level self' = indent_level self
      /\ (lower x = "true" \/ (lower x = "auto" /\ stdin_isatty t = false) ->
          non_interactive self' = true /\ color_mode self' = "false"
          /\ t' = cf_call disable t /\ verbosity self' = 999)
      /\ (lower x = "false" \/ (lower x = "auto" /\ stdin_isatty t = true) ->
          non_interactive self' = false /\ color_mode self' = color_mode self
          /\ t' = t /\ verbosity self' = _verbosity self)
      /\ (lower x <> "true" -> lower x <> "false" -> lower x <> "auto" ->
          non_interactive self' = non_interactive self
          /\ color_mode self' = color_mode self /\ t' = t).
Proof.
  intros self t x.
  unfold non_interactive_mode_setter, non_interactive_mode.
  cbn [set__non_interactive_mode _non_interactive_mode].
  destruct (eqb_cases (lower x) "auto") as [[-> E1]|[-> N1]].
  - destruct (stdin_isatty t) eqn:Htty; cbn [negb];
      [rewrite non_interactive_setter_false | rewrite non_interactive_setter_true];
      do 2 eexists; (split; [reflexivity|]); cbn; rewrite E1; cbn;
      (split; [reflexivity|]); (split; [reflexivity|]);
      (split; [|split]); intros; intuition congruence.
  - destruct (eqb_cases (lower x) "false") as [[-> E2]|[-> N2]].
    + rewrite non_interactive_setter_false.
      do 2 eexists. split; [reflexivity|]. cbn. rewrite E2. cbn.
      (split; [reflexivity|]); (split; [reflexivity|]);
      (split; [|split]); intros; intuition congruence.
    + destruct (eqb_cases (lower x) "true") as [[-> E3]|[-> N3]].
      * rewrite non_interactive_setter_true.
        do 2 eexists. split; [reflexivity|]. cbn. rewrite E3. cbn.
        (split; [reflexivity|]); (split; [reflexivity|]);
        (split; [|split]); intros; intuition congruence.
      * do 2 eexists. split; [reflexivity|]. cbn.
        (split; [reflexivity|]); (split; [reflexivity|]);
        (split; [|split]); intros; intuition congruence.
Qed.

Lemma as_statement_idempotent (r : World * Res PyVal) :
  as_statement (as_statement r) = as_statement r.
Proof. now destruct r as [w [v|e]]. Qed.

(** X9. A non-interactive logger is verbose whatever [_verbosity] is:
    [verbose], [very_verbose], [verbose_warning] and [verbose_error]
    print as [print] does with the level names VINFO, VVINFO, VWARN and
    VERR. *)
Theorem non_interactive_logger_is_verbose `{Colorful} :
  forall (self : _CliLogger) (w : World) (text : string) (args : list PyVal)
         (kw : Kwargs),
    non_interactive self = true ->
    verbose self w (PyStr text) args kw = print self w (PyStr text) args "VINFO" kw
    /\ very_verbose self w (PyStr text) args kw
       = print self w (PyStr text) args "VVINFO" kw
    /\ verbose_warning self w text args kw
       = print self w (PyStr (cf_style orange text)) args "VWARN" kw
    /\ verbose_error self w text args kw
       = print self w (PyStr (cf_style red text)) args "VERR" kw.
Proof.
  intros self w text args kw Hni.
  unfold verbose, very_verbose, verbose_warning, verbose_error, verbosity.
  rewrite Hni. cbn [Z.ltb Z.compare]. unfold _warning, _error, print.
  repeat split;
    destruct (_format_msg _ args kw); try reflexivity;
    now rewrite !as_statement_idempotent.
Qed.

Lemma non_interactive_logger_is_verbose_witness :
  @verbose plain_colorful (non_interactive_logger 0) {| stdout := ""; asctime := "" |}
    (PyStr "up") [] no_kwargs
  = @print plain_colorful (non_interactive_logger 0) {| stdout := ""; asctime := "" |}
      (PyStr "up") [] "VINFO" no_kwargs
  /\ @very_verbose plain_colorful (non_interactive_logger 0) {| stdout := ""; asctime := "" |}
       (PyStr "up") [] no_kwargs
     = @print plain_colorful (non_interactive_logger 0) {| stdout := ""; asctime := "" |}
         (PyStr "up") [] "VVINFO" no_kwargs
  /\ @verbose_warning plain_colorful (non_interactive_logger 0) {| stdout := ""; asctime := "" |}
       "up" [] no_kwargs
     = @print plain_colorful (non_interactive_logger 0) {| stdout := ""; asctime := "" |}
         (PyStr (@cf_style plain_colorful orange "up")) [] "VWARN" no_kwargs
  /\ @verbose_error plain_colorful (non_interactive_logger 0) {| stdout := ""; asctime := "" |}
       "up" [] no_kwargs
     = @print plain_colorful (non_interactive_logger 0) {| stdout := ""; asctime := "" |}
         (PyStr (@cf_style plain_colorful red "up")) [] "VERR" no_kwargs.
Proof.
  apply (@non_interactive_logger_is_verbose plain_colorful
           (non_interactive_logger 0)).
  reflexivity.
Defined.

End CliSettingsFacts.

(** ** cli_logger.py: groups, aborting and the dialogs *)

Module CliDialogFacts.
Import Py PyFacts PyExt PyExtFacts CliLogger CliLoggerFacts CliDialog.

Lemma on_world_same (c : Console) : on_world c (world c) = c.
Proof. now destruct c. Qed.

Lemma py_in_newline_app_l (a b : string) :
  py_in newline a = true -> py_in newline (a ++ b) = true.
Proof.
  rewrite !py_in_newline, chars_app, in_app_iff. tauto.
Qed.

Lemma one_line_app (a b : string) :
  py_in newline a = false -> py_in newline b = false ->
  py_in newline (a ++ b) = false.
Proof. rewrite !py_in_newline_false. apply no_LF_app. Qed.

(** In interactive mode [_print] writes every message without line
    feed. *)
Lemma _print_interactive (self : _CliLogger) (w : World) (msg level : string)
    (linefeed : bool) :
  non_interactive self = false -> py_in newline msg = false ->
  _print self w msg level linefeed
  = (stdout_write
       (if linefeed then (repeat_str "  " (indent_level self) ++ msg) ++ newline
        else repeat_str "  " (indent_level self) ++ msg) w,
     Return PyNone).
Proof.
  intros Hni Hnl. unfold _print. rewrite Hnl, Hni. now destruct linefeed.
Qed.

Section WithColorful.
Context `{Colorful}.

Lemma print_interactive (self : _CliLogger) (w : World) (msg : PyVal)
    (args : list PyVal) (level : string) (kw : Kwargs) (s : string) :
  non_interactive self = false ->
  _format_msg msg args kw = Return s -> py_in newline s = false ->
  print self w msg args level kw
  = (stdout_write ((repeat_str "  " (indent_level self) ++ s) ++ newline) w,
     Return PyNone).
Proof.
  intros Hni Hfmt Hnl. unfold print. rewrite Hfmt.
  now rewrite (_print_interactive self w s level true Hni Hnl).
Qed.

Lemma _error_result (self : _CliLogger) (w : World) (msg : string)
    (args : list PyVal) (level : option string) (kw : Kwargs) :
  snd (_error self w msg args level kw) = Return PyNone
  \/ exists e, snd (_error self w msg args level kw) = Raise e.
Proof.
  unfold _error. destruct level as [l|]; [apply as_statement_result|].
  right. now eexists.
Qed.

End WithColorful.

(** X10. [abort] never returns. It raises the exception it was given,
    or else [ClickException] in non-interactive mode and
    [SilentClickException] otherwise; the one other way out is the
    exception of the message that could not be printed. Without a
    message nothing is written. *)
Theorem abort_never_returns `{Colorful} :
  forall (self : _CliLogger) (w : World) (msg : option string)
         (args : list PyVal) (exc : option Exc) (kw : Kwargs),
    let requested :=
      match exc with
      | Some e => e
      | None => if non_interactive self then ClickException abort_message
                else SilentClickException abort_message
      end in
    exists e : Exc,
      snd (abort self w msg args exc kw) = Raises e
      /\ (e = requested
          \/ exists (m : string) (err : PyExc),
               msg = Some m
               /\ snd (_error self w m args (Some "PANIC") kw) = Raise err
               /\ e = Builtin err)
      /\ (msg = None -> abort self w msg args exc kw = (w, Raises requested)).
Proof.
  intros self w msg args exc kw requested. unfold abort.
  destruct msg as [m|].
  - destruct (_error self w m args (Some "PANIC") kw) as [w1 [v|err]] eqn:E.
    + exists requested. subst requested.
      split; [|split; [now left | discriminate]].
      destruct exc; [reflexivity|]. now destruct (non_interactive self).
    + exists (Builtin err). split; [reflexivity|]. split; [|discriminate].
      right. exists m, err. rewrite E. auto.
  - exists requested. subst requested.
    destruct exc; [auto|]. destruct (non_interactive self); auto.
Qed.

(** X11. [doassert] returns, having written nothing, exactly when [val]
    is true. When it is false it writes what [_error] writes at level
    PANIC and raises: [AssertionError] in non-interactive mode and
    [SilentClickException] otherwise, if the message was printed. *)
Theorem doassert_returns_iff_val `{Colorful} :
  forall (self : _CliLogger) (w : World) (val : bool) (msg : string)
         (args : list PyVal) (kw : Kwargs),
    (val = true -> doassert self w val msg args kw = (w, Returns PyNone))
    /\ (val = false ->
        exists e : Exc,
          snd (doassert self w val msg args kw) = Raises e
          /\ (snd (_error self w msg args (Some "PANIC") kw) = Return PyNone ->
              e = if non_interactive self then AssertionError
                  else SilentClickException abort_message)
          /\ fst (doassert self w val msg args kw)
             = fst (_error self w msg args (Some "PANIC") kw)).
Proof.
  intros self w val msg args kw. split; intros ->; [reflexivity|].
  unfold doassert, abort. cbn [negb].
  destruct (_error self w msg args (Some "PANIC") kw) as [w1 [v|err]] eqn:E.
  - destruct (non_interactive self); eexists; cbn; auto.
  - exists (Builtin err). cbn. repeat split. discriminate.
Qed.

(** X12. [prompt] never returns and never reads: its call of [_print]
    names a keyword, [linefeed], that [_print] does not have, so
    whenever the message formats the call raises [TypeError], with
    nothing written and standard input untouched. *)
Theorem prompt_never_returns `{Colorful} :
  forall (self : _CliLogger) (c : Console) (msg : string) (args : list PyVal)
         (kw : Kwargs),
    exists e : PyExc,
      prompt self c msg args kw = (c, Raises (Builtin e))
      /\ (forall rendered : string,
            _format_msg (PyStr (cf_style underlined msg)) args kw
            = Return rendered ->
            e = TypeError "_print() got an unexpected keyword argument 'linefeed'").
Proof.
  intros self c msg args kw. unfold prompt.
  destruct (_format_msg (PyStr (cf_style underlined msg)) args kw) as [s|e].
  - eexists. cbn. rewrite on_world_same. split; [reflexivity|]. reflexivity.
  - exists e. split; [reflexivity | discriminate].
Qed.

(** X13. On an interactive logger a [group] block whose body prints one
    message writes the title at the current indentation, the message
    one level deeper, and leaves the logger as it was. *)
Theorem group_title_then_indented_body `{Colorful} :
  forall (self : _CliLogger) (w : World) (title : string) (args : list PyVal)
         (kw : Kwargs) (msg : PyVal) (margs : list PyVal) (mkw : Kwargs)
         (title_text line : string),
    non_interactive self = false ->
    _format_msg (PyStr (cf_style dodgerBlue title)) args kw = Return title_text ->
    py_in newline title_text = false ->
    _format_msg msg margs mkw = Return line ->
    py_in newline line = false ->
    with_group (print_in_block msg margs mkw) self w title args kw
    = (self,
       stdout_write
         ((repeat_str "  " (indent_level self + 1) ++ line) ++ newline)
         (stdout_write
            ((repeat_str "  " (indent_level self) ++ title_text) ++ newline) w),
       Return tt).
Proof.
  intros self w title args kw msg margs mkw title_text line Hni Ht Htl Hl Hll.
  unfold with_group, group.
  rewrite (print_interactive self w _ args INFO kw title_text Hni Ht Htl).
  unfold with_indented, IndentedContextManager.__enter__,
    IndentedContextManager.__exit__, print_in_block.
  rewrite (print_interactive _ _ msg margs INFO mkw line); auto.
  cbn [indent_level set_indent_level py_truthy].
  do 2 f_equal. destruct self as [a b c n v m].
  cbv [set_indent_level indent_level _non_interactive _non_interactive_mode
       _color_mode _verbosity _autodetected_cf_colormode].
  f_equal. lia.
Qed.

Lemma group_title_then_indented_body_witness :
  @with_group plain_colorful
    (@print_in_block plain_colorful (PyStr "step") [] no_kwargs)
    (initial_logger 0) blank_world "Setup" [] no_kwargs
  = (initial_logger 0,
     stdout_write
       ((repeat_str "  " (indent_level (initial_logger 0) + 1) ++ "step")
        ++ newline)
       (stdout_write
          ((repeat_str "  " (indent_level (initial_logger 0)) ++ "Setup")
           ++ newline) blank_world),
     Return tt).
Proof.
  apply (@group_title_then_indented_body plain_colorful (initial_logger 0)
           blank_world "Setup" [] no_kwargs (PyStr "step") [] no_kwargs
           "Setup" "step"); reflexivity.
Defined.

(** *** The confirmation dialog *)

Lemma is_line_cases (text : string) :
  is_line text = true ->
  py_in newline text = false
  \/ exists body : string, py_in newline body = false /\ text = body ++ newline.
Proof.
  induction text as [|c rest IH]; [now left|].
  destruct rest as [|c' rest'].
  - intros _. destruct (ascii_dec LF c) as [<-|Hne].
    + right. exists "". split; reflexivity.
    + left. rewrite py_in_newline_cons.
      destruct (ascii_dec LF c); [contradiction | reflexivity].
  - change (is_line (String c (String c' rest')))
      with (negb (Ascii.eqb c LF) && is_line (String c' rest')).
    intros Hl. apply andb_prop in Hl as [Hc Hrest].
    apply negb_true_iff, Ascii.eqb_neq in Hc.
    destruct (IH Hrest) as [Hno|(body & Hb & Heq)].
    + left. rewrite py_in_newline_cons.
      destruct (ascii_dec LF c); [congruence | assumption].
    + right. exists (String c body). split.
      * rewrite py_in_newline_cons.
        destruct (ascii_dec LF c); [congruence | assumption].
      * rewrite Heq. reflexivity.
Qed.

Lemma one_line_answer (text : string) :
  is_line text = true -> py_in newline (strip (lower text)) = false.
Proof.
  intros Hl. apply py_in_newline_false.
  destruct (is_line_cases text Hl) as [Hno|(body & Hb & ->)].
  - apply no_LF_strip, no_LF_lower. now apply py_in_newline_false.
  - rewrite lower_app. change (lower newline) with newline.
    apply no_LF_strip_line, no_LF_lower. now apply py_in_newline_false.
Qed.

Section Confirm.
Context `{Colorful}.

Lemma confirm_loop_sound (fuel : nat) :
  forall (self : _CliLogger) (c : Console) (default : bool) (msg_len : nat)
         (confirm_str : string) (c' : Console) (r : Out bool),
    confirm_loop fuel self c default msg_len confirm_str = Some (c', r) ->
    match r with
    | Returns b => first_answer default (stdin c) = Some (b, stdin c')
    | Raises KeyboardInterrupt =>
        first_answer default (stdin c) = Some (default, stdin c')
    | Raises (Builtin _) => True
    | Raises _ => False
    end.
Proof.
  induction fuel as [|fuel IH]; intros self c default len cs c' r Hloop;
    [discriminate|].
  cbn [confirm_loop] in Hloop.
  destruct (stdin c) as [|[text|] rest] eqn:Es; cbn [readline] in Hloop;
    cbv zeta in Hloop.
  - change (String.eqb (lower "") newline) with false in Hloop.
    change (str_in (strip (lower "")) yes_answers) with false in Hloop.
    change (str_in (strip (lower "")) no_answers) with false in Hloop.
    cbv iota in Hloop.
    destruct (error _ _ _ _ _) as [w2 [v|e]];
      [|inversion Hloop; subst; exact I].
    destruct (_print _ _ _ _ _) as [w3 [v'|e']];
      [|inversion Hloop; subst; exact I].
    apply IH in Hloop. cbn [stdin on_world] in Hloop.
    destruct r as [b|[]]; try exact I; try contradiction; discriminate.
  - cbn [first_answer]. unfold read_answer.
    destruct (String.eqb (lower text) newline).
    { inversion Hloop; subst. reflexivity. }
    destruct (str_in (strip (lower text)) yes_answers).
    { inversion Hloop; subst. reflexivity. }
    destruct (str_in (strip (lower text)) no_answers).
    { inversion Hloop; subst. reflexivity. }
    destruct (error _ _ _ _ _) as [w2 [v|e]];
      [|inversion Hloop; subst; exact I].
    destruct (_print _ _ _ _ _) as [w3 [v'|e']];
      [|inversion Hloop; subst; exact I].
    apply IH in Hloop. exact Hloop.
  - inversion Hloop; subst. reflexivity.
Qed.

(** What an interactive [confirm] can end with, against the input. *)
Lemma confirm_interactive_outcome (fuel : nat) (self : _CliLogger)
    (c : Console) (msg : string) (args : list PyVal) (_abort _default : bool)
    (kw : Kwargs) :
  match confirm fuel self c false msg args _abort _default kw with
  | Some (c', Returns b) =>
      first_answer _default (stdin c) = Some (b, stdin c')
      /\ (_abort = true -> b = true)
  | Some (c', Raises (SilentClickException _)) =>
      _abort = true /\ first_answer _default (stdin c) = Some (false, stdin c')
  | Some (_, Raises (Builtin _)) => True
  | Some (_, Raises _) => False
  | None => True
  end.
Proof.
  unfold confirm. destruct (non_interactive self); cbn [andb negb].
  { now destruct (error _ _ _ _ _) as [w1 [v|e]]. }
  destruct (_format_msg (PyStr msg) args kw) as [rendered|e]; [|exact I].
  cbv zeta.
  destruct (_print _ _ _ _ _) as [w1 [v|e]]; [|exact I].
  destruct (confirm_loop _ _ _ _ _ _) as [[c2 r]|] eqn:EL; [|exact I].
  apply confirm_loop_sound in EL. cbn [stdin on_world] in EL.
  destruct r as [res|e].
  - destruct res, _abort; cbn [negb andb];
      try (split; [exact EL | congruence]).
    destruct (_print _ _ _ _ _) as [w4 [v4|e4]]; [|exact I].
    split; [reflexivity | exact EL].
  - destruct e; try exact I; try contradiction.
    destruct (newline_ self (world c2)) as [w3 [v3|e3]]; [|exact I].
    destruct _default, _abort; cbn [negb andb stdin on_world];
      try (split; [exact EL | congruence]).
    destruct (_print _ _ _ _ _) as [w4 [v4|e4]]; [|exact I].
    split; [reflexivity | exact EL].
Qed.

Lemma confirm_yes (fuel : nat) (self : _CliLogger) (c : Console)
    (msg : string) (args : list PyVal) (_abort _default : bool) (kw : Kwargs) :
  exists (w' : World) (r : Out bool),
    confirm fuel self c true msg args _abort _default kw
    = Some (on_world c w', r)
    /\ (r = Returns true \/ exists e, r = Raises (Builtin e)).
Proof.
  unfold confirm. rewrite andb_false_r.
  destruct (_format_msg (PyStr msg) args kw) as [rendered|e].
  - cbv zeta. destruct (_print _ _ _ _ _) as [w1 [v|e]].
    + exists w1, (Returns true). split; [reflexivity | now left].
    + exists w1, (Raises (Builtin e)). split; [reflexivity | right; now exists e].
  - exists (world c), (Raises (Builtin e)). rewrite on_world_same.
    split; [reflexivity | right; now exists e].
Qed.

End Confirm.

(** X14. An interactive [confirm] answers with the first input that
    settles the dialog: when it returns, or raises
    [SilentClickException], the answer is the one [first_answer] reads
    off standard input and the input after that line is left unread.
    At the end of the input it never answers: it is still asking when
    the fuel runs out, unless printing raised. *)
Theorem confirm_answers_with_first_input `{Colorful} :
  forall (fuel : nat) (self : _CliLogger) (c : Console) (msg : string)
         (args : list PyVal) (_abort _default : bool) (kw : Kwargs),
    (forall (c' : Console) (b : bool),
       confirm fuel self c false msg args _abort _default kw
       = Some (c', Returns b) ->
       first_answer _default (stdin c) = Some (b, stdin c'))
    /\ (forall (c' : Console) (m : string),
          confirm fuel self c false msg args _abort _default kw
          = Some (c', Raises (SilentClickException m)) ->
          _abort = true
          /\ first_answer _default (stdin c) = Some (false, stdin c'))
    /\ (stdin c = [] ->
        confirm fuel self c false msg args _abort _default kw = None
        \/ exists (c' : Console) (e : PyExc),
             confirm fuel self c false msg args _abort _default kw
             = Some (c', Raises (Builtin e))).
Proof.
  intros fuel self c msg args a d kw.
  pose proof (confirm_interactive_outcome fuel self c msg args a d kw) as Hout.
  split; [|split].
  - intros c' b E. rewrite E in Hout. tauto.
  - intros c' m E. rewrite E in Hout. exact Hout.
  - intros Hempty. rewrite Hempty in Hout.
    destruct (confirm fuel self c false msg args a d kw) as [[c' [b|e]]|];
      [| |now left].
    + destruct Hout as [Hout _]. discriminate.
    + destruct e; try contradiction; try (destruct Hout; discriminate).
      right. now exists c', e.
Qed.

(** X15. With [_abort] set, [confirm] never returns [False]. *)
Theorem confirm_with_abort_never_returns_False `{Colorful} :
  forall (fuel : nat) (self : _CliLogger) (c : Console) (yes : bool)
         (msg : string) (args : list PyVal) (_default : bool) (kw : Kwargs)
         (c' : Console) (b : bool),
    confirm fuel self c yes msg args true _default kw = Some (c', Returns b) ->
    b = true.
Proof.
  intros fuel self c yes msg args d kw c' b E. destruct yes.
  - destruct (confirm_yes fuel self c msg args true d kw)
      as (w' & r & E' & [->|[e ->]]); congruence.
  - pose proof (confirm_interactive_outcome fuel self c msg args true d kw)
      as Hout.
    rewrite E in Hout. now apply Hout.
Qed.

Lemma confirm_with_abort_never_returns_False_witness :
  @confirm plain_colorful 1 (initial_logger 0) (typed [" YES "]) false
    "Go on?" [] true false no_kwargs
  = Some ({| world :=
               {| stdout := "Go on? Confirm [y/N]: "; asctime := "" |};
             stdin := [] |}, Returns true)
  /\ true = true.
Proof.
  split; [vm_compute; reflexivity|].
  apply (@confirm_with_abort_never_returns_False plain_colorful 1
           (initial_logger 0) (typed [" YES "]) false "Go on?" [] false
           no_kwargs
           {| world := {| stdout := "Go on? Confirm [y/N]: "; asctime := "" |};
              stdin := [] |} true).
  vm_compute. reflexivity.
Defined.

(** X16. With [yes], or on a non-interactive logger, [confirm] ends
    without reading standard input, whatever the fuel: with [yes] it
    returns [True] unless printing raised; without it, it raises
    [ValueError] once the request for --yes is printed. *)
Theorem confirm_reads_nothing_with_yes_or_non_interactive `{Colorful} :
  forall (fuel : nat) (self : _CliLogger) (c : Console) (yes : bool)
         (msg : string) (args : list PyVal) (_abort _default : bool)
         (kw : Kwargs),
    yes = true \/ non_interactive self = true ->
    exists (w' : World) (r : Out bool),
      confirm fuel self c yes msg args _abort _default kw
      = Some ({| world := w'; stdin := stdin c |}, r)
      /\ (yes = true -> r = Returns true \/ exists e, r = Raises (Builtin e))
      /\ (yes = false ->
          snd (error self (world c) non_interactive_confirm_msg [] no_kwargs)
          = Return PyNone ->
          r = Raises (Builtin (ValueError "Non-interactive confirm without --yes."))).
Proof.
  intros fuel self c yes msg args a d kw Hcase. destruct yes.
  - destruct (confirm_yes fuel self c msg args a d kw) as (w' & r & E & Hr).
    exists w', r. split; [exact E|]. split; [auto | discriminate].
  - destruct Hcase as [Hyes|Hni]; [discriminate|].
    unfold confirm. rewrite Hni. cbn [andb negb].
    destruct (error _ _ _ _ _) as [w1 [v|e]]; do 2 eexists;
      (split; [reflexivity|]); (split; [discriminate|]); intros _; cbn;
      congruence.
Qed.

Lemma confirm_reads_nothing_with_yes_or_non_interactive_witness :
  exists (w' : World) (r : Out bool),
    @confirm plain_colorful 0 (initial_logger 0) (typed ["no"]) true
      "Go on?" [] false false no_kwargs
    = Some ({| world := w'; stdin := stdin (typed ["no"]) |}, r)
    /\ (true = true -> r = Returns true \/ exists e, r = Raises (Builtin e))
    /\ (true = false ->
        snd (@error plain_colorful (initial_logger 0) (world (typed ["no"]))
               non_interactive_confirm_msg [] no_kwargs) = Return PyNone ->
        r = Raises (Builtin (ValueError "Non-interactive confirm without --yes."))).
Proof.
  apply (@confirm_reads_nothing_with_yes_or_non_interactive plain_colorful 0
           (initial_logger 0) (typed ["no"]) true "Go on?" [] false false
           no_kwargs).
  left. reflexivity.
Defined.

(** X17. [confirm] cannot show a message of more than one line: when
    the formatted message holds a line feed, the first [_print] raises
    [ValueError], nothing is written and nothing is read. *)
Theorem confirm_refuses_multi_line_message `{Colorful} :
  forall (fuel : nat) (self : _CliLogger) (c : Console) (yes : bool)
         (msg : string) (args : list PyVal) (_abort _default : bool)
         (kw : Kwargs) (rendered : string),
    non_interactive self && negb yes = false ->
    _format_msg (PyStr msg) args kw = Return rendered ->
    py_in newline rendered = true ->
    confirm fuel self c yes msg args _abort _default kw
    = Some (c, Raises (Builtin (ValueError "NO"))).
Proof.
  intros fuel self c yes msg args a d kw rendered Hmode Hfmt Hnl.
  unfold confirm. rewrite Hmode, Hfmt. cbv zeta.
  match goal with
  | |- context [if ?b then rendered ++ " " else rendered] =>
      assert (Hr : py_in newline (if b then rendered ++ " " else rendered) = true)
        by (destruct b; [now apply py_in_newline_app_l | assumption])
  end.
  unfold _print.
  destruct yes.
  - rewrite (py_in_newline_app_l _ _ (py_in_newline_app_l _ _ Hr)).
    now rewrite on_world_same.
  - rewrite (py_in_newline_app_l _ _ Hr). now rewrite on_world_same.
Qed.

Lemma confirm_refuses_multi_line_message_witness :
  @confirm plain_colorful 5 (initial_logger 0) (typed ["y"]) false
    ("Delete" ++ newline ++ "everything?") [] false false no_kwargs
  = Some (typed ["y"], Raises (Builtin (ValueError "NO"))).
Proof.
  apply (@confirm_refuses_multi_line_message plain_colorful 5
           (initial_logger 0) (typed ["y"]) false
           ("Delete" ++ newline ++ "everything?") [] false false no_kwargs
           ("Delete" ++ newline ++ "everything?")); reflexivity.
Defined.

Section ConfirmTerminates.
Context `{Colorful}.

Lemma _format_msg_no_kwargs (m : string) (args : list PyVal) (s : string) :
  cf_format m args [] = Return s ->
  _format_msg (PyStr m) args no_kwargs = Return (s ++ "").
Proof.
  intros Hfmt. unfold _format_msg.
  cbn [_tags _numbered _no_format kwargs no_kwargs bind]. now rewrite Hfmt.
Qed.

Lemma error_interactive (self : _CliLogger) (w : World) (msg : string)
    (args : list PyVal) (s : string) :
  non_interactive self = false ->
  cf_format (cf_style red msg) args [] = Return s ->
  py_in newline s = false ->
  exists w' : World, error self w msg args no_kwargs = (w', Return PyNone).
Proof.
  intros Hni Hfmt Hnl. unfold error, _error.
  rewrite (print_interactive self w _ args "ERR" no_kwargs (s ++ "") Hni
             (_format_msg_no_kwargs _ _ _ Hfmt)).
  - now eexists.
  - now apply one_line_app.
Qed.

Lemma newline_interactive (self : _CliLogger) (w : World) (s : string) :
  non_interactive self = false ->
  cf_format "" [] [] = Return s -> py_in newline s = false ->
  exists w' : World, newline_ self w = (w', Return PyNone).
Proof.
  intros Hni Hfmt Hnl. unfold newline_.
  rewrite (print_interactive self w _ [] INFO no_kwargs (s ++ "") Hni
             (_format_msg_no_kwargs _ _ _ Hfmt)).
  - now eexists.
  - now apply one_line_app.
Qed.

Lemma one_line_render_list (xs : list string) :
  formats_on_one_line ->
  Forall (fun x => py_in newline x = false) xs ->
  py_in newline (render_list xs "/") = false.
Proof.
  intros (Hstyle & _ & _) Hxs. unfold render_list.
  induction Hxs as [|x rest Hx Hrest IH]; [reflexivity|].
  cbn [map]. destruct rest as [|y rest'].
  - cbn [map join]. now apply Hstyle.
  - change (join "/" (cf_style bold x :: map (cf_style bold) (y :: rest')))
      with (cf_style bold x ++ "/" ++ join "/" (map (cf_style bold) (y :: rest'))).
    apply one_line_app; [now apply Hstyle|].
    apply one_line_app; [reflexivity | exact IH].
Qed.

Lemma one_line_repeat_str (s : string) (n : Z) :
  py_in newline s = false -> py_in newline (repeat_str s n) = false.
Proof. rewrite !py_in_newline_false. apply no_LF_repeat_str. Qed.

Lemma one_line_strip (s : string) :
  py_in newline s = false -> py_in newline (strip s) = false.
Proof. rewrite !py_in_newline_false. apply no_LF_strip. Qed.

Lemma confirm_loop_complete (self : _CliLogger) (default : bool)
    (msg_len : nat) (confirm_str : string) :
  formats_on_one_line ->
  non_interactive self = false ->
  py_in newline confirm_str = false ->
  forall (inputs : list Input) (c : Console) (fuel : nat) (b : bool)
         (rest : list Input),
    stdin c = inputs ->
    forallb is_typed inputs = true ->
    first_answer default inputs = Some (b, rest) ->
    (length inputs <= fuel)%nat ->
    exists w' : World,
      confirm_loop fuel self c default msg_len confirm_str
      = Some ({| world := w'; stdin := rest |}, Returns b)
      \/ (b = default
          /\ confirm_loop fuel self c default msg_len confirm_str
             = Some ({| world := w'; stdin := rest |}, Raises KeyboardInterrupt)).
Proof.
  intros Hcf Hni Hcs inputs.
  induction inputs as [|x inputs' IH]; intros c fuel b rest Hin Hty Hfirst Hfuel;
    [discriminate|].
  destruct fuel as [|fuel']; [cbn in Hfuel; lia|].
  cbn [length] in Hfuel. assert (Hfuel' : (length inputs' <= fuel')%nat) by lia.
  cbn [forallb] in Hty. apply andb_prop in Hty as [Hx Hrest].
  cbn [confirm_loop]. rewrite Hin.
  destruct x as [text|]; cbn [readline]; cbn [first_answer] in Hfirst.
  - cbv zeta. unfold read_answer in Hfirst.
    destruct (String.eqb (lower text) newline).
    { inversion Hfirst; subst. eexists. left. reflexivity. }
    destruct (str_in (strip (lower text)) yes_answers).
    { inversion Hfirst; subst. eexists. left. reflexivity. }
    destruct (str_in (strip (lower text)) no_answers).
    { inversion Hfirst; subst. eexists. left. reflexivity. }
    cbn [is_typed] in Hx.
    pose proof Hcf as (Hstyle & Hfmt & _).
    destruct (Hfmt (repeat_str " " (Z.of_nat msg_len))
                (cf_style bold (strip (strip (lower text))))
                (render_list yes_answers "/") (render_list no_answers "/"))
      as (s & Hs & Hsl).
    { now apply one_line_repeat_str. }
    { now apply Hstyle, one_line_strip, one_line_answer. }
    { apply one_line_render_list; [exact Hcf|]. now repeat constructor. }
    { apply one_line_render_list; [exact Hcf|]. now repeat constructor. }
    cbn [world].
    destruct (error_interactive self (world c) invalid_answer_msg _ s Hni Hs Hsl)
      as [w2 ->].
    rewrite (_print_interactive self w2 _ INFO false Hni);
      [|apply one_line_app; [now apply one_line_repeat_str | exact Hcs]].
    apply IH; [reflexivity | assumption | assumption | assumption].
  - inversion Hfirst; subst. eexists. right. split; reflexivity.
Qed.

End ConfirmTerminates.

(** X18. An interactive [confirm] terminates. When [colorful] keeps
    the texts of the dialog on one line, the message formats to one
    line and standard input holds typed lines with an answer among
    them, then as many rounds as there are inputs suffice: [confirm]
    returns the first answer, or raises [SilentClickException] when
    that answer is no and [_abort] is set, and leaves the input after
    it unread. *)
Theorem confirm_terminates_with_first_answer `{Colorful} :
  forall (fuel : nat) (self : _CliLogger) (c : Console) (msg : string)
         (args : list PyVal) (_abort _default : bool) (kw : Kwargs)
         (rendered : string) (b : bool) (rest : list Input),
    formats_on_one_line ->
    non_interactive self = false ->
    _format_msg (PyStr msg) args kw = Return rendered ->
    py_in newline rendered = false ->
    forallb is_typed (stdin c) = true ->
    first_answer _default (stdin c) = Some (b, rest) ->
    (length (stdin c) <= fuel)%nat ->
    exists w' : World,
      confirm fuel self c false msg args _abort _default kw
      = Some ({| world := w'; stdin := rest |},
              if negb b && _abort
              then Raises (SilentClickException confirm_abort_message)
              else Returns b).
Proof.
  intros fuel self c msg args a d kw rendered b rest Hcf Hni Hfmt Hnl Hty
    Hfirst Hfuel.
  pose proof Hcf as (Hstyle & _ & (s0 & Hs0 & Hs0l)).
  unfold confirm. rewrite Hni, Hfmt. cbn [andb]. cbv zeta.
  set (confirm_str := cf_style underlined _ ++ " ").
  assert (Hcs : py_in newline confirm_str = false).
  { subst confirm_str. apply one_line_app; [|reflexivity]. apply Hstyle.
    apply one_line_app; [reflexivity|].
    apply one_line_app; [|reflexivity].
    destruct d; (apply one_line_app; [now apply Hstyle|]);
      (apply one_line_app; [reflexivity | now apply Hstyle]). }
  match goal with
  | |- context [if ?t then rendered ++ " " else rendered] =>
      set (rendered_message := if t then rendered ++ " " else rendered)
  end.
  assert (Hrm : py_in newline rendered_message = false).
  { subst rendered_message.
    destruct (negb _ && negb _); [now apply one_line_app | assumption]. }
  rewrite (_print_interactive self (world c) _ INFO false Hni
             (one_line_app _ _ Hrm Hcs)).
  set (c1 := on_world c _).
  destruct (confirm_loop_complete self d
              (String.length (List.last (split_newline rendered_message) ""))
              confirm_str Hcf Hni Hcs (stdin c) c1 fuel b rest
              eq_refl Hty Hfirst Hfuel) as [w' [->|[-> ->]]].
  - destruct (negb b && a).
    + rewrite (_print_interactive self _ "Exiting..." INFO true Hni eq_refl).
      now eexists.
    + now eexists.
  - destruct (newline_interactive self w' s0 Hni Hs0 Hs0l) as [w3 E3].
    cbn [world]. rewrite E3. cbn [on_world stdin world].
    destruct (negb d && a).
    + rewrite (_print_interactive self _ "Exiting..." INFO true Hni eq_refl).
      now eexists.
    + now eexists.
Qed.

Lemma one_line_cons (c : ascii) (s : string) :
  c <> LF -> py_in newline s = false -> py_in newline (String c s) = false.
Proof.
  intros Hc Hs. rewrite py_in_newline_cons.
  destruct (ascii_dec LF c); [congruence | assumption].
Qed.

Lemma fields_colorful_formats_on_one_line : @formats_on_one_line fields_colorful.
Proof.
  split; [|split].
  - intros st s Hs. exact Hs.
  - intros a b c d Ha Hb Hc Hd. eexists. split; [reflexivity|].
    cbn [py_str].
    repeat first [ apply one_line_app; [assumption|]
                 | apply one_line_cons; [discriminate|]
                 | reflexivity ].
  - eexists. split; reflexivity.
Defined.

Lemma confirm_terminates_with_first_answer_witness :
  exists w' : World,
    @confirm fields_colorful 3 (initial_logger 0)
      (typed ["maybe"; " Yes "; "n"]) false "Go on?" [] true false no_kwargs
    = Some ({| world := w'; stdin := [Line ("n" ++ newline)] |},
            if negb true && true
            then Raises (SilentClickException confirm_abort_message)
            else Returns true).
Proof.
  apply (@confirm_terminates_with_first_answer fields_colorful 3
           (initial_logger 0) (typed ["maybe"; " Yes "; "n"]) "Go on?" []
           true false no_kwargs "Go on?" true [Line ("n" ++ newline)]).
  - exact fields_colorful_formats_on_one_line.
  - reflexivity.
  - reflexivity.
  - reflexivity.
  - reflexivity.
  - reflexivity.
  - cbn. lia.
Defined.

(** A dialog as it appears on the terminal: a first answer that is
    none, then a yes; the third line is not read. *)
Lemma confirm_example :
  @confirm fields_colorful 3 (initial_logger 0)
    (typed ["maybe"; " Yes "; "n"]) false "Go on?" [] true false no_kwargs
  = Some ({| world :=
               {| stdout :=
                    "Go on? Confirm [y/N]: "
                    ++ "       Invalid answer: maybe. Expected y/yes/true/1 or n/no/false/0"
                    ++ newline
                    ++ "       Confirm [y/N]: ";
                  asctime := "" |};
             stdin := [Line ("n" ++ newline)] |}, Returns true).
Proof. vm_compute. reflexivity. Qed.

End CliDialogFacts.

(** ** framework.py: checking a framework and importing it *)

Module FrameworkImportsFacts.
Import Py PyExt Framework FrameworkFacts FrameworkImports.

Lemma py_eq_str_true (v : PyVal) (s : string) :
  py_eq_str v s = true <-> v = PyStr s.
Proof.
  destruct v; cbn; try (split; [discriminate | congruence]).
  rewrite String.eqb_eq. split; congruence.
Qed.

(** What [get_auto_framework] returns is installed. *)
Lemma get_auto_framework_installed (torch tf : option PyModule) (l l1 : LogState)
    (f : string) :
  get_auto_framework torch tf l = (l1, Return f) ->
  (f = "torch" /\ torch <> None /\ tf = None)
  \/ (f = "tf" /\ tf <> None /\ torch = None).
Proof.
  unfold get_auto_framework.
  destruct torch as [t|], tf as [g|]; cbn [truthy negb];
    try discriminate;
    destruct (log_once "get_auto_framework" l) as [first l0];
    intros E; inversion E; subst; [left | right]; repeat split; congruence.
Qed.

(** The checks after the resolution of ["auto"]. *)
Lemma check_framework_not_auto (framework : PyVal) (allow_none : bool)
    (torch tf : option PyModule) (l l' : LogState) (f : PyVal) :
  py_eq_str framework "auto" = false ->
  check_framework framework allow_none torch tf l = (l', Returns f) ->
  l' = l /\ f = framework
  /\ ((framework = PyNone /\ allow_none = true)
      \/ ((framework = PyStr "tf" \/ framework = PyStr "tfe") /\ tf <> None)
      \/ (framework = PyStr "torch" /\ torch <> None)).
Proof.
  intros Hauto. unfold check_framework. rewrite Hauto. cbv zeta.
  destruct (py_eq_str framework "tf") eqn:Etf;
    [apply py_eq_str_true in Etf|];
    [|destruct (py_eq_str framework "tfe") eqn:Etfe;
      [apply py_eq_str_true in Etfe|]]; cbn [orb].
  - destruct tf; [|discriminate]. intros E; inversion E; subst.
    repeat split. right. left. split; [now left | discriminate].
  - destruct tf; [|discriminate]. intros E; inversion E; subst.
    repeat split. right. left. split; [now right | discriminate].
  - destruct (py_eq_str framework "torch") eqn:Etorch;
      [apply py_eq_str_true in Etorch|].
    + destruct torch; [|discriminate]. intros E; inversion E; subst.
      repeat split. right. right. split; [reflexivity | discriminate].
    + destruct framework; try discriminate.
      destruct allow_none; [|discriminate]. cbn [negb].
      intros E; inversion E; subst. repeat split. now left.
Qed.

(** X19. What [check_framework] returns is usable: [None], only when
    [None] was passed and allowed, or "tf" or "tfe" with tensorflow
    imported, or "torch" with torch imported. It is the argument itself
    unless that was "auto", and checking the result again returns it
    again. *)
Theorem check_framework_returns_an_installed_framework :
  forall (framework : PyVal) (allow_none : bool) (torch tf : option PyModule)
         (l l' : LogState) (f : PyVal),
    check_framework framework allow_none torch tf l = (l', Returns f) ->
    ((f = PyNone /\ framework = PyNone /\ allow_none = true)
     \/ ((f = PyStr "tf" \/ f = PyStr "tfe") /\ tf <> None)
     \/ (f = PyStr "torch" /\ torch <> None))
    /\ (framework <> PyStr "auto" -> f = framework /\ l' = l)
    /\ check_framework f allow_none torch tf l' = (l', Returns f).
Proof.
  intros framework allow_none torch tf l l' f Hcheck.
  destruct (py_eq_str framework "auto") eqn:Hauto.
  - apply py_eq_str_true in Hauto. subst framework.
    unfold check_framework in Hcheck. cbn [py_eq_str] in Hcheck.
    change (String.eqb "auto" "auto") with true in Hcheck. cbv zeta iota in Hcheck.
    destruct (get_auto_framework torch tf l) as [l1 [g|e]] eqn:Eauto;
      [|discriminate].
    destruct (get_auto_framework_installed _ _ _ _ _ Eauto)
      as [(-> & Ht & ->)|(-> & Hf & ->)].
    + destruct torch as [t|]; [|congruence]. cbn in Hcheck.
      inversion Hcheck; subst. split; [|split].
      * right. right. split; [reflexivity | discriminate].
      * intros Hne. congruence.
      * reflexivity.
    + destruct tf as [g|]; [|congruence]. cbn in Hcheck.
      inversion Hcheck; subst. split; [|split].
      * right. left. split; [now left | discriminate].
      * intros Hne. congruence.
      * reflexivity.
  - destruct (check_framework_not_auto _ _ _ _ _ _ _ Hauto Hcheck)
      as (-> & -> & Hcases).
    split; [|split].
    + destruct Hcases as [[-> ->]|[[Hf Htf]|[Hf Ht]]]; auto.
    + auto.
    + exact Hcheck.
Qed.

Lemma check_framework_returns_an_installed_framework_witness :
  ((PyStr "tfe" = PyNone /\ PyStr "tfe" = PyNone /\ true = true)
   \/ ((PyStr "tfe" = PyStr "tf" \/ PyStr "tfe" = PyStr "tfe")
       /\ Some (Module_ "tensorflow") <> None)
   \/ (PyStr "tfe" = PyStr "torch" /\ @None PyModule <> None))
  /\ (PyStr "tfe" <> PyStr "auto" ->
      PyStr "tfe" = PyStr "tfe"
      /\ {| logged_once := []; info_lines := [] |}
         = {| logged_once := []; info_lines := [] |})
  /\ check_framework (PyStr "tfe") true None (Some (Module_ "tensorflow"))
       {| logged_once := []; info_lines := [] |}
     = ({| logged_once := []; info_lines := [] |}, Returns (PyStr "tfe")).
Proof.
  apply (check_framework_returns_an_installed_framework (PyStr "tfe") true
           None (Some (Module_ "tensorflow"))
           {| logged_once := []; info_lines := [] |}).
  reflexivity.
Defined.

(** X20. [check_framework("auto")] is [get_auto_framework()]: the same
    log, the same framework, the same [ValueError]; the checks that
    follow the resolution never reject what was resolved. *)
Theorem check_framework_auto_is_get_auto_framework :
  forall (allow_none : bool) (torch tf : option PyModule) (l : LogState),
    check_framework (PyStr "auto") allow_none torch tf l
    = (fst (get_auto_framework torch tf l),
       match snd (get_auto_framework torch tf l) with
       | Return f => Returns (PyStr f)
       | Raise e => Raises (Builtin e)
       end).
Proof.
  intros allow_none torch tf l. unfold check_framework.
  cbn [py_eq_str]. change (String.eqb "auto" "auto") with true. cbv zeta iota.
  destruct (get_auto_framework torch tf l) as [l1 [g|e]] eqn:Eauto;
    [|reflexivity].
  destruct (get_auto_framework_installed _ _ _ _ _ Eauto)
    as [(-> & Ht & ->)|(-> & Hf & ->)].
  - destruct torch; [reflexivity | congruence].
  - destruct tf; [reflexivity | congruence].
Qed.

(** *** Imports *)





(** An [import] of a module that is neither loaded nor to be found
    fails and changes nothing. *)
Lemma import__missing (name : string) (rest : list string) (i : Interp) :
  str_in name (sys_modules i) = false -> str_in name (installed i) = false ->
  import_ (name :: rest) i
  = (i, Raises (ImportError ("No module named '" ++ name ++ "'"))).
Proof. intros Hl Hi. cbn [import_]. now rewrite Hl, Hi. Qed.









(** X23. Without the framework, [get_activation_fn] fails with
    [AttributeError] for a known activation. For "torch", when torch
    cannot be imported or the test switch is set, "relu" and "tanh"
    reach for an attribute the [NNStub] does not have, and any other
    name but "linear" raises the [ValueError]; for "tf", when
    tensorflow cannot be imported or the test switch is set, every name
    but "linear" reaches for [nn] on [None]. *)
Theorem get_activation_fn_without_the_framework :
  forall (tf_nn : list string) (n : string) (i : Interp),
    n <> "linear" ->
    (in_environ "RLLIB_TEST_NO_TORCH_IMPORT" i = true
     \/ (str_in "torch" (sys_modules i) = false
         /\ str_in "torch" (installed i) = false) ->
     snd (get_activation_fn tf_nn (Some n) (PyStr "torch") i)
     = if String.eqb n "relu"
       then Raises (AttributeError "'NNStub' object has no attribute 'ReLU'")
       else if String.eqb n "tanh"
            then Raises (AttributeError "'NNStub' object has no attribute 'Tanh'")
            else Raises (Builtin (ValueError
                           (unknown_activation_msg n (PyStr "torch")))))
    /\ (in_environ "RLLIB_TEST_NO_TF_IMPORT" i = true
        \/ (str_in "tensorflow" (sys_modules i) = false
            /\ str_in "tensorflow" (installed i) = false) ->
        snd (get_activation_fn tf_nn (Some n) (PyStr "tf") i)
        = Raises (AttributeError "'NoneType' object has no attribute 'nn'")).
Proof.
  intros tf_nn n i Hn. apply String.eqb_neq in Hn. split.
  - intros Hmissing. unfold get_activation_fn. cbn [py_eq_str].
    change (String.eqb "torch" "torch") with true. cbv iota. rewrite Hn.
    unfold try_import_torch.
    destruct (in_environ "RLLIB_TEST_NO_TORCH_IMPORT" i) eqn:Eflag.
    + cbn [_torch_stubs]. destruct (String.eqb n "relu"); [reflexivity|].
      now destruct (String.eqb n "tanh").
    + destruct Hmissing as [Hflag|[Hl Hi]]; [discriminate|].
      cbv zeta. rewrite (import__missing "torch" [] i Hl Hi). cbn [_torch_stubs].
      destruct (String.eqb n "relu"); [reflexivity|].
      now destruct (String.eqb n "tanh").
  - intros Hmissing. unfold get_activation_fn. cbn [py_eq_str].
    change (String.eqb "tf" "torch") with false. cbv iota. rewrite Hn.
    unfold try_import_tf.
    destruct (in_environ "RLLIB_TEST_NO_TF_IMPORT" i) eqn:Eflag; [reflexivity|].
    destruct Hmissing as [Hflag|[Hl Hi]]; [discriminate|].
    set (i1 := if negb (in_environ "TF_CPP_MIN_LOG_LEVEL" i)
               then setenv "TF_CPP_MIN_LOG_LEVEL" "3" i else i).
    assert (Hl1 : str_in "tensorflow" (sys_modules i1) = false)
      by (subst i1; now destruct (negb _)).
    assert (Hi1 : str_in "tensorflow" (installed i1) = false)
      by (subst i1; now destruct (negb _)).
    clearbody i1. rewrite Hl1.
    rewrite (import__missing "tensorflow" _ i1 Hl1 Hi1).
    rewrite (import__missing "tensorflow" [] i1 Hl1 Hi1). reflexivity.
Qed.

Lemma get_activation_fn_without_the_framework_witness :
  (in_environ "RLLIB_TEST_NO_TORCH_IMPORT" (fresh_interp []) = true
   \/ (str_in "torch" (sys_modules (fresh_interp [])) = false
       /\ str_in "torch" (installed (fresh_interp [])) = false) ->
   snd (get_activation_fn ["relu"] (Some "relu") (PyStr "torch") (fresh_interp []))
   = if String.eqb "relu" "relu"
     then Raises (AttributeError "'NNStub' object has no attribute 'ReLU'")
     else if String.eqb "relu" "tanh"
          then Raises (AttributeError "'NNStub' object has no attribute 'Tanh'")
          else Raises (Builtin (ValueError
                         (unknown_activation_msg "relu" (PyStr "torch")))))
  /\ (in_environ "RLLIB_TEST_NO_TF_IMPORT" (fresh_interp []) = true
      \/ (str_in "tensorflow" (sys_modules (fresh_interp [])) = false
          /\ str_in "tensorflow" (installed (fresh_interp [])) = false) ->
      snd (get_activation_fn ["relu"] (Some "relu") (PyStr "tf") (fresh_interp []))
      = Raises (AttributeError "'NoneType' object has no attribute 'nn'")).
Proof.
  apply (get_activation_fn_without_the_framework ["relu"] "relu" (fresh_interp [])).
  discriminate.
Defined.

End FrameworkImportsFacts.

(** ** python/ray/tests/test_cli.py: the output checks *)

Module TestCliFacts.
Import Py PyFacts PyExt PyExtFacts TestCli.
Local Open Scope nat_scope.
Local Open Scope list_scope.






Section WithRegex.
Variable fullmatch : string -> string -> option bool.
Variable repr : string -> string.

Lemma check_lines_returns (output_lines expected_lines : list string) :
  forall (i i' : nat) (printed printed' : list string) (u : unit),
    check_lines fullmatch repr output_lines expected_lines i printed
    = (i', printed', Returns u) ->
    i' = i + length output_lines.
Proof.
  induction output_lines as [|out rest IH]; intros i i' printed printed' u Hc.
  - cbn in Hc. inversion Hc. cbn. lia.
  - cbn [check_lines] in Hc. cbn [length].
    destruct (length expected_lines <=? i).
    + apply IH in Hc. lia.
    + destruct (nth_error expected_lines i) as [exp|]; [|discriminate].
      destruct (fullmatch (exp ++ " *")%string out) as [matched|];
        [|discriminate].
      apply IH in Hc. lia.
Qed.

Lemma check_lines_total (output_lines expected_lines : list string) :
  (forall pattern text, fullmatch pattern text <> None) ->
  forall (i : nat) (printed : list string),
    exists printed' : list string,
      check_lines fullmatch repr output_lines expected_lines i printed
      = (i + length output_lines, printed', Returns tt).
Proof.
  intros Hre.
  induction output_lines as [|out rest IH]; intros i printed.
  - exists printed. cbn. f_equal. f_equal. lia.
  - cbn [check_lines length].
    destruct (length expected_lines <=? i) eqn:Hle.
    + destruct (IH (i + 1) ((printed ++ [out]) ++ ["!!!!!! Expected fewer lines"]))
        as [p' ->].
      exists p'. do 2 f_equal. lia.
    + apply Nat.leb_gt in Hle.
      destruct (nth_error expected_lines i) as [exp|] eqn:Hnth;
        [|apply nth_error_None in Hnth; lia].
      destruct (fullmatch (exp ++ " *")%string out) as [matched|] eqn:Hm;
        [|now apply Hre in Hm].
      match goal with
      | |- context [check_lines _ _ rest _ (i + 1) ?p] =>
          destruct (IH (i + 1) p) as [p' ->]
      end.
      exists p'. do 2 f_equal. lia.
Qed.

Lemma report_missing_raises (fuel : nat) (expected_lines : list string) :
  forall (i : nat) (printed : list string),
    i < length expected_lines ->
    length expected_lines - i <= fuel ->
    exists (i' : nat) (printed' : list string),
      report_missing repr fuel expected_lines i printed
      = Some (i', printed',
              Raises (Builtin (IndexError "list index out of range"))).
Proof.
  induction fuel as [|fuel IH]; intros i printed Hi Hfuel; [lia|].
  cbn [report_missing].
  replace (i <? length expected_lines) with true
    by (symmetry; now apply Nat.ltb_lt).
  cbv zeta.
  destruct (nth_error expected_lines (i + 1)) as [exp|] eqn:Hnth.
  - assert (Hlt : i + 1 < length expected_lines).
    { apply nth_error_Some. congruence. }
    apply IH; [assumption | lia].
  - now do 2 eexists.
Qed.

Lemma report_missing_done (fuel : nat) (expected_lines : list string)
    (i : nat) (printed : list string) :
  length expected_lines <= i ->
  report_missing repr (S fuel) expected_lines i printed
  = Some (i, printed, Returns tt).
Proof.
  intros Hi. cbn [report_missing].
  replace (i <? length expected_lines) with false
    by (symmetry; apply Nat.ltb_ge; assumption).
  reflexivity.
Qed.

End WithRegex.

(** X25. [_debug_check_line_by_line] never returns. When every pattern
    compiles it ends in the [AssertionError] of its last statement if
    the output has at least as many lines as were expected, and in an
    [IndexError] if it has fewer: the loop that reports the missing
    lines advances its index before it looks the line up. *)
Theorem _debug_check_line_by_line_never_returns :
  forall (fullmatch : string -> string -> option bool)
         (repr : string -> string) (fuel : nat) (output : string)
         (expected_lines : list string),
    length expected_lines < fuel ->
    exists (printed : list string) (e : Exc),
      _debug_check_line_by_line fullmatch repr fuel output expected_lines
      = Some (printed, Raises e)
      /\ ((forall pattern text, fullmatch pattern text <> None) ->
          e = if length expected_lines <=? length (split_newline output)
              then AssertionError
              else Builtin (IndexError "list index out of range")).
Proof.
  intros fullmatch repr fuel output expected_lines Hfuel.
  unfold _debug_check_line_by_line.
  destruct (check_lines fullmatch repr (split_newline output) expected_lines 0 [])
    as [[i printed] [u|e]] eqn:Hcheck.
  - pose proof (check_lines_returns _ _ _ _ _ _ _ _ _ Hcheck) as Hi.
    cbn [Nat.add] in Hi. subst i.
    destruct (length expected_lines <=? length (split_newline output)) eqn:Hle.
    + apply Nat.leb_le in Hle. destruct fuel as [|fuel]; [lia|].
      rewrite (report_missing_done repr fuel expected_lines _ printed Hle).
      now do 2 eexists.
    + apply Nat.leb_gt in Hle.
      destruct (report_missing_raises repr fuel expected_lines _ printed Hle)
        as (i' & printed' & ->); [lia|].
      now do 2 eexists.
  - exists printed, e. split; [reflexivity|]. intros Hre.
    destruct (check_lines_total fullmatch repr (split_newline output)
                expected_lines Hre 0 []) as [p' Htotal].
    congruence.
Qed.

Lemma _debug_check_line_by_line_never_returns_witness :
  exists (printed : list string) (e : Exc),
    _debug_check_line_by_line (fun _ _ => Some true) (fun s => s) 3
      ("a" ++ newline ++ "b")%string ["a"; "b"]
    = Some (printed, Raises e)
    /\ ((forall pattern text : string, Some true <> None) ->
        e = if length ["a"; "b"]
               <=? length (split_newline ("a" ++ newline ++ "b")%string)
            then AssertionError
            else Builtin (IndexError "list index out of range")).
Proof.
  apply (_debug_check_line_by_line_never_returns
           (fun _ _ => Some true) (fun s => s) 3
           ("a" ++ newline ++ "b")%string ["a"; "b"]).
  cbn. lia.
Defined.


End TestCliFacts.
